(** * note2markdown: WordPress export to Markdown

    A shallow embedding of [note2markdown.py] and the properties of its
    field resolver, record extractor, markup converter, filename sanitizer
    and document writer.

    Python strings are sequences of Unicode code points; they are modelled
    as lists of [N].  Exceptions are modelled by the [result] type.  The
    element tree of [xml.etree] is read only and is a tree; the parse tree
    of Beautiful Soup is changed in place while lists still hold its tags,
    and is a heap of cells.

    The library functions follow CPython 3.11 ([re], [xml.etree] with its C
    accelerator) and Beautiful Soup 4 with [html.parser].  Files are
    written on Linux, into a directory that exists and takes new files;
    the name of a file has at most 255 bytes there. *)

From Stdlib Require Import NArith Ascii String List Lia Bool DecimalString.
From Stdlib Require DecimalNat.
From Stdlib Require Import Sorted.
From stdpp Require Import base decidable option list numbers.
Import ListNotations.

Set Default Proof Using "Type".
Set Warnings "-register-all".
Set Warnings "-notation-overridden".
Set Warnings "-notation-incompatible-prefix".

(** ** Python strings *)

Definition pystr := list N.

Definition ch (a : ascii) : N := N_of_ascii a.
Arguments ch a%_char.

Definition u (s : string) : pystr := map N_of_ascii (list_ascii_of_string s).
Arguments u s%_string.

Definition c_nl : N := 10.
Definition c_space : N := 32.
Definition c_dquote : N := 34.

(** [str.isspace] on one code point; the same set is what [\s] matches in a
    [str] pattern and what [str.strip()] removes. *)
Definition isspace (c : N) : bool :=
  ((9 <=? c) && (c <=? 13) || (28 <=? c) && (c <=? 32) || (c =? 133)
   || (c =? 160) || (c =? 5760) || (8192 <=? c) && (c <=? 8202)
   || (c =? 8232) || (c =? 8233) || (c =? 8239) || (c =? 8287)
   || (c =? 12288))%N.

Definition str_eqb (a b : pystr) : bool := bool_decide (a = b).

Fixpoint drop_while (p : N -> bool) (s : pystr) : pystr :=
  match s with
  | [] => []
  | c :: s' => if p c then drop_while p s' else s
  end.

Fixpoint take_while (p : N -> bool) (s : pystr) : pystr :=
  match s with
  | [] => []
  | c :: s' => if p c then c :: take_while p s' else []
  end.

Definition lstrip (s : pystr) : pystr := drop_while isspace s.
Definition rstrip (s : pystr) : pystr := rev (drop_while isspace (rev s)).
(** [s.strip()] *)
Definition strip (s : pystr) : pystr := lstrip (rstrip s).

Fixpoint startswith (p s : pystr) : bool :=
  match p, s with
  | [], _ => true
  | a :: p', b :: s' => (a =? b)%N && startswith p' s'
  | _ :: _, [] => false
  end.

Definition endswith (p s : pystr) : bool := startswith (rev p) (rev s).

(** [needle in hay] on strings *)
Fixpoint contains (needle hay : pystr) : bool :=
  startswith needle hay ||
  match hay with
  | [] => false
  | _ :: hay' => contains needle hay'
  end.

(** [c in s] for a single character *)
Definition has_char (c : N) (s : pystr) : bool := existsb (N.eqb c) s.

(** [s.split(sep)] for a one-character separator *)
Fixpoint split (sep : N) (s : pystr) : list pystr :=
  match s with
  | [] => [[]]
  | c :: s' =>
      if (c =? sep)%N then [] :: split sep s'
      else match split sep s' with
           | w :: ws => (c :: w) :: ws
           | [] => [[c]]
           end
  end.

(** [sep.join(parts)] *)
Fixpoint join (sep : pystr) (parts : list pystr) : pystr :=
  match parts with
  | [] => []
  | [p] => p
  | p :: ps => p ++ sep ++ join sep ps
  end.

(** Truthiness of a string: non-empty. *)
Definition nonempty (s : pystr) : bool :=
  match s with [] => false | _ => true end.

(** ** Exceptions *)

Inductive exn :=
| SyntaxError | TypeError | KeyError | AttributeError
| ValueError | UnicodeEncodeError | OSError
| ParserRejectedMarkup   (* bs4.exceptions.ParserRejectedMarkup *)
| OutOfFuel      (* the recursion budget of the model was exhausted *)
| Unmodelled.    (* library behaviour outside the modelled fragment *)

Inductive result (A : Type) :=
| Ok (a : A)
| Raise (e : exn).
Arguments Ok {A} a.
Arguments Raise {A} e.

Definition bind {A B} (m : result A) (k : A -> result B) : result B :=
  match m with
  | Ok a => k a
  | Raise e => Raise e
  end.

Declare Scope py_scope.
Delimit Scope py_scope with py.
Notation "x <- m ;; k" := (bind m (fun x => k))
  (at level 100, m at next level, right associativity) : py_scope.
Local Open Scope py_scope.

(** A loop that threads a state through a list and may raise. *)
Fixpoint for_each {A S} (f : S -> A -> result S) (l : list A) (s : S) : result S :=
  match l with
  | [] => Ok s
  | a :: l' => s' <- f s a ;; for_each f l' s'
  end.

(** ** Regular expressions

    The patterns of the program are sequences of character classes, each
    taken once, greedily zero or more times, or greedily one or more times,
    and the end-of-line anchor of [re.MULTILINE].  [match_here] is the
    backtracking matcher of [re] on this fragment: it returns the length of
    the first match found in backtracking order at the start of [s]. *)

Inductive quant := One | Star | Plus.

Inductive atom :=
| Class (p : N -> bool) (q : quant)
| Eol.  (* [$] with re.MULTILINE: at the end, or just before a newline *)

Definition regex := list atom.

Definition at_eol (s : pystr) : bool :=
  match s with
  | [] => true
  | c :: _ => (c =? c_nl)%N
  end.

(** Greedy repetition: try [n] characters, then [n-1], ... down to [lo]. *)
Fixpoint backtrack (k : pystr -> option nat) (s : pystr) (n lo : nat) : option nat :=
  match k (drop n s) with
  | Some m => if lo <=? n then Some (n + m) else None
  | None =>
      match n with
      | 0 => None
      | S n' => if lo <=? n' then backtrack k s n' lo else None
      end
  end.

Fixpoint match_here (r : regex) (s : pystr) : option nat :=
  match r with
  | [] => Some 0
  | Eol :: r' => if at_eol s then match_here r' s else None
  | Class p One :: r' =>
      match s with
      | c :: s' => if p c then S <$> match_here r' s' else None
      | [] => None
      end
  | Class p Star :: r' =>
      backtrack (match_here r') s (length (take_while p s)) 0
  | Class p Plus :: r' =>
      backtrack (match_here r') s (length (take_while p s)) 1
  end.

(** [re.sub(r, repl, s)]: matches are searched left to right and do not
    overlap; [skip] counts the characters of the current match that are
    still to be dropped.  (An empty match inserts [repl] and moves on by
    one character; no pattern of the program can match the empty string.) *)
Fixpoint sub_from (r : regex) (repl : pystr) (skip : nat) (s : pystr) : pystr :=
  match s with
  | [] =>
      match skip, match_here r [] with
      | 0, Some _ => repl
      | _, _ => []
      end
  | c :: s' =>
      match skip with
      | S k => sub_from r repl k s'
      | 0 =>
          match match_here r s with
          | Some (S n) => repl ++ sub_from r repl n s'
          | Some 0 => repl ++ c :: sub_from r repl 0 s'
          | None => c :: sub_from r repl 0 s'
          end
      end
  end.

Definition re_sub (r : regex) (repl s : pystr) : pystr := sub_from r repl 0 s.

(** ** xml.etree.ElementTree *)

Module ET.

(** An element: qualified tag, attributes, optional text, children. *)
Inductive Element :=
| mkElement (tag : pystr) (attrib : list (pystr * pystr))
            (text : option pystr) (children : list Element).

Definition tag (e : Element) : pystr := let 'mkElement t _ _ _ := e in t.
Definition attrib (e : Element) := let 'mkElement _ a _ _ := e in a.
Definition text (e : Element) : option pystr := let 'mkElement _ _ x _ := e in x.
Definition children (e : Element) : list Element := let 'mkElement _ _ _ c := e in c.

(** [Element.iter()]: the element and all its descendants, document order. *)
Fixpoint iter (e : Element) : list Element :=
  match e with
  | mkElement _ _ _ cs => e :: flat_map iter cs
  end.

(** The proper descendants of [e] (every [x] of [e.iter()] with
    [x is not e]). *)
Definition descendants (e : Element) : list Element := flat_map iter (children e).

End ET.

(** ** xml.etree.ElementPath *)

Module ElementPath.
Import ET.

(** The class [[^/\[\]\(\)@!=\s]] of the tokenizer. *)
Definition tag_char (c : N) : bool :=
  negb (existsb (N.eqb c) (u "/[]()@!=")) && negb (isspace c).

(** [(ttype, tag)], the two groups of [xpath_tokenizer_re]. *)
Definition token := (pystr * pystr)%type.

(** A quoted string ['...'] or a double-quoted one at the start of [s]:
    its length, when the closing quote exists. *)
Definition quoted (q : N) (s : pystr) : option nat :=
  match s with
  | c :: s' =>
      if (c =? q)%N && has_char q s'
      then Some (2 + length (take_while (fun x => negb (x =? q)%N) s'))
      else None
  | [] => None
  end.

(** The second group, [(?:\{[^}]+\})?[^/\[\]\(\)@!=\s]+]: the length of its
    match at the start of [s]. *)
Definition tag_token (s : pystr) : option nat :=
  let plain := length (take_while tag_char s) in
  let braced :=
    match s with
    | c :: s' =>
        if (c =? ch "{")%N then
          let ns := take_while (fun x => negb (x =? ch "}")%N) s' in
          match ns, drop (length ns) s' with
          | _ :: _, _ :: rest =>
              match length (take_while tag_char rest) with
              | 0 => None
              | S n => Some (2 + length ns + S n)
              end
          | _, _ => None
          end
        else None
    | [] => None
    end in
  match braced with
  | Some n => Some n
  | None => match plain with 0 => None | S n => Some (S n) end
  end.

(** One step of [xpath_tokenizer_re.findall]: the token matched at the start
    of [s] and its length, alternatives tried in the order of the pattern. *)
Definition token_at (s : pystr) : option (token * nat) :=
  let op (n : nat) := Some ((take n s, []) : token, n) in
  match quoted (ch "'") s with
  | Some n => op n
  | None =>
  match quoted c_dquote s with
  | Some n => op n
  | None =>
      if startswith (u "::") s then op 2
      else if startswith (u "//") s then op 2
      else if startswith (u "/") s then op 1
      else if startswith (u "..") s then op 2
      else if startswith (u "()") s then op 2
      else if startswith (u "!=") s then op 2
      else match s with
           | c :: _ =>
               if existsb (N.eqb c) (u "/.*:[]()@=") then op 1
               else match tag_token s with
                    | Some n => Some (([], take n s) : token, n)
                    | None =>
                        match length (take_while isspace s) with
                        | 0 => None
                        | S n => Some (([], []) : token, S n)
                        end
                    end
           | [] => None
           end
  end end.

Fixpoint findall_from (skip : nat) (s : pystr) : list token :=
  match s with
  | [] => []
  | _ :: s' =>
      match skip with
      | S k => findall_from k s'
      | 0 =>
          match token_at s with
          | Some (t, S n) => t :: findall_from n s'
          | _ => findall_from 0 s'
          end
      end
  end.

(** [xpath_tokenizer(pattern, namespaces=None)]: a tag with a prefix cannot be
    resolved without a prefix map.  The generator raises when the offending
    token is requested, so the stream is a list of results. *)
Definition xpath_tokenizer (pattern : pystr) : list (result token) :=
  map (fun t : token =>
         let '(ttype, tg) := t in
         match tg with
         | c :: _ =>
             if negb (c =? ch "{")%N && has_char (ch ":") tg
             then Raise SyntaxError else Ok t
         | [] => Ok t
         end)
      (findall_from 0 pattern).

Definition _is_wildcard_tag (tg : pystr) : bool :=
  str_eqb (take 3 tg) (u "{*}") || endswith (u "}*") tg.

(** The test made by the selector that [_prepare_tag(tag)] returns. *)
Definition _prepare_tag (tg el_tag : pystr) : bool :=
  if str_eqb tg (u "{*}*") then true
  else if str_eqb tg (u "{}*") then negb (startswith (u "{") el_tag)
  else if str_eqb (take 3 tg) (u "{*}")
       then str_eqb el_tag (drop 3 tg) || endswith (drop 2 tg) el_tag
  else startswith (take (length tg - 1) tg) el_tag.

(** The test of a step on the tag of a candidate element. *)
Definition tag_test (tg el_tag : pystr) : bool :=
  if _is_wildcard_tag tg then _prepare_tag tg el_tag
  else str_eqb el_tag (if startswith (u "{}") tg then drop 2 tg else tg).

Inductive selector :=
| SelChild (tg : pystr)        (* prepare_child *)
| SelStar                      (* prepare_star *)
| SelSelf                      (* prepare_self *)
| SelDescendant (tg : pystr)   (* prepare_descendant *)
| SelNone.                     (* prepare_descendant returned None *)

(** [Element.iter(tag)] below each element of [res], the element itself
    left out; [tag == "*"] selects every element. *)
Definition select (sel : selector) (res : list Element) : result (list Element) :=
  match sel with
  | SelChild tg => Ok (flat_map (fun e => List.filter (fun c => tag_test tg (tag c)) (children e)) res)
  | SelStar => Ok (flat_map children res)
  | SelSelf => Ok res
  | SelDescendant tg =>
      Ok (flat_map (fun e =>
            List.filter (fun c => if str_eqb tg (u "*") then true else tag_test tg (tag c))
                   (descendants e)) res)
  | SelNone => Raise TypeError
  end.

(** What [ops[token[0]]] does with a token: append a selector, start a
    descendant step (which reads one more token), or fail.  Parent steps
    and predicates are outside the modelled fragment; a token type without
    an entry in [ops] is a [KeyError]. *)
Inductive action := Emit (sel : selector) | Descend | Fail (e : exn).

Definition op_of (t : token) : action :=
  let '(ttype, tg) := t in
  if str_eqb ttype [] then Emit (SelChild tg)
  else if str_eqb ttype (u "*") then Emit SelStar
  else if str_eqb ttype (u ".") then Emit SelSelf
  else if str_eqb ttype (u "//") then Descend
  else if str_eqb ttype (u "..") || str_eqb ttype (u "[") then Fail Unmodelled
  else Fail KeyError.

(** Where the compiling loop of [iterfind] stands: about to dispatch a token
    on [ops], inside [prepare_descendant], or after a selector, where one
    ["/"] is skipped. *)
Inductive mode := AtOp | InDescendant | AfterSelector.

Fixpoint compile (m : mode) (toks : list (result token)) : result (list selector) :=
  match toks with
  | [] => match m with InDescendant => Ok [SelNone] | _ => Ok [] end
  | Raise e :: _ => Raise e
  | Ok t :: rest =>
      match m with
      | InDescendant =>
          if str_eqb (fst t) (u "*")
          then sels <- compile AfterSelector rest ;; Ok (SelDescendant (u "*") :: sels)
          else if str_eqb (fst t) []
          then sels <- compile AfterSelector rest ;; Ok (SelDescendant (snd t) :: sels)
          else Raise SyntaxError
      | AfterSelector =>
          if str_eqb (fst t) (u "/") then compile AtOp rest
          else match op_of t with
               | Emit sel => sels <- compile AfterSelector rest ;; Ok (sel :: sels)
               | Descend => compile InDescendant rest
               | Fail e => Raise e
               end
      | AtOp =>
          match op_of t with
          | Emit sel => sels <- compile AfterSelector rest ;; Ok (sel :: sels)
          | Descend => compile InDescendant rest
          | Fail e => Raise e
          end
      end
  end.

(** [ElementPath.iterfind(elem, path)] *)
Definition iterfind (elem : Element) (path : pystr) : result (list Element) :=
  let path := if endswith (u "/") path then path ++ u "*" else path in
  if startswith (u "/") path then Raise SyntaxError
  else
    selector <- compile AtOp (xpath_tokenizer path) ;;
    for_each (fun res sel => select sel res) selector [elem].

(** [ElementPath.find(elem, path)] *)
Definition find (elem : Element) (path : pystr) : result (option Element) :=
  res <- iterfind elem path ;; Ok (head res).

End ElementPath.

Module ET_find.
Import ET.

(** [checkpath] of the C accelerator: does the tag contain a path character
    outside braces, or start with a namespace wildcard? *)
Fixpoint has_pathchar (check : bool) (s : pystr) : bool :=
  match s with
  | [] => false
  | c :: s' =>
      if (c =? ch "{")%N then has_pathchar false s'
      else if (c =? ch "}")%N then has_pathchar true s'
      else (check && existsb (N.eqb c) (u "/*[@.")) || has_pathchar check s'
  end.

Definition checkpath (path : pystr) : bool :=
  startswith (u "{}") path && (3 <=? length path)
  || startswith (u "{*}") path
  || has_pathchar true path.

(** [Element.find(path)]: a path without path characters is compared with
    the tags of the children; any other goes through ElementPath. *)
Definition find (self : Element) (path : pystr) : result (option Element) :=
  if checkpath path then ElementPath.find self path
  else Ok (head (List.filter (fun c => str_eqb (tag c) path) (children self))).

(** [Element.findall(path)] *)
Definition findall (self : Element) (path : pystr) : result (list Element) :=
  if checkpath path then ElementPath.iterfind self path
  else Ok (List.filter (fun c => str_eqb (tag c) path) (children self)).

End ET_find.

(** ** Dictionaries

    A [dict] keeps its keys in insertion order; assigning to a key that is
    already present keeps its position. *)

Section Dict.
Context {V : Type}.

Fixpoint dict_get (d : list (pystr * V)) (k : pystr) : option V :=
  match d with
  | [] => None
  | (k', v) :: d' => if str_eqb k' k then Some v else dict_get d' k
  end.

Fixpoint dict_set (d : list (pystr * V)) (k : pystr) (v : V) : list (pystr * V) :=
  match d with
  | [] => [(k, v)]
  | (k', v') :: d' =>
      if str_eqb k' k then (k', v) :: d' else (k', v') :: dict_set d' k v
  end.

Definition dict_mem (d : list (pystr * V)) (k : pystr) : bool :=
  match dict_get d k with Some _ => true | None => false end.

Definition keys (d : list (pystr * V)) : list pystr := map fst d.

End Dict.

(** The values that the record dictionary holds. *)
Inductive value :=
| VNone
| VStr (s : pystr)
| VDict (d : list (pystr * pystr)).

Definition dict := list (pystr * value).

(** [d[k]] *)
Definition getitem (d : dict) (k : pystr) : result value :=
  match dict_get d k with
  | Some v => Ok v
  | None => Raise KeyError
  end.

(** Truthiness *)
Definition truthy (v : value) : bool :=
  match v with
  | VNone => false
  | VStr s => nonempty s
  | VDict d => match d with [] => false | _ => true end
  end.

(** ** class XMLParser *)

Module XMLParser.
Import ET.

Definition _cleanup_tag_name (tag : pystr) : pystr :=
  if has_char (ch "}") tag then List.last (split (ch "}") tag) [] else tag.

Fixpoint _find_element_by_tag_variants (element : Element) (tag_variants : list pystr)
  : result (option Element) :=
  match tag_variants with
  | [] => Ok None
  | variant :: rest =>
      exact_match <- ET_find.find element variant ;;
      match exact_match with
      | Some e => Ok (Some e)
      | None =>
          wp_match <- ET_find.find element (u ".//{{{*}}}:" ++ variant) ;;
          match wp_match with
          | Some e => Ok (Some e)
          | None =>
              ns_match <- ET_find.find element (u ".//{{{*}}}" ++ variant) ;;
              match ns_match with
              | Some e => Ok (Some e)
              | None => _find_element_by_tag_variants element rest
              end
          end
      end
  end.

(** The text of an element when it is neither [None] nor empty. *)
Definition text_of (found : option Element) : option pystr :=
  match found with
  | Some e => match text e with
              | Some (c :: t) => Some (c :: t)
              | _ => None
              end
  | None => None
  end.

Definition _find_text_by_tag_variants (element : Element) (tag_variants : list pystr)
  : result pystr :=
  found_element <- _find_element_by_tag_variants element tag_variants ;;
  match text_of found_element with
  | Some t => Ok (strip t)
  | None => Ok []
  end.

Definition canonical_fields : list pystr :=
  [u "title"; u "link"; u "description"; u "content"; u "pubDate"; u "post_id";
   u "guid"; u "post_date"; u "post_date_gmt"; u "post_modified";
   u "post_modified_gmt"; u "comment_status"; u "ping_status"; u "post_name";
   u "status"; u "post_parent"; u "menu_order"; u "post_type";
   u "post_password"; u "is_sticky"; u "creator"].

(** The dictionary that [extract_article_content] starts from. *)
Definition empty_content : dict :=
  map (fun k => (k, VStr [])) canonical_fields ++ [(u "other_metadata", VDict [])].

(** The first loop: the immediate children whose tag mentions
    [wordpress.org] or an empty namespace, keyed by bare name. *)
Definition wp_flagged (elem : Element) : bool :=
  contains (u "wordpress.org") (tag elem) || contains (u "{}") (tag elem).

Definition wp_value (elem : Element) : pystr :=
  match text elem with
  | Some (c :: t) => strip (c :: t)
  | _ => []
  end.

Definition collect_wp_elements (article_element : Element) : list (pystr * pystr) :=
  fold_left
    (fun wp_elements elem =>
       let tag_name := _cleanup_tag_name (tag elem) in
       if wp_flagged elem then dict_set wp_elements tag_name (wp_value elem)
       else wp_elements)
    (children article_element) [].

(** The body of the last loop: [content[key] = value] for a key of the
    record, [content['other_metadata'][key] = value] otherwise. *)
Definition merge_wp (content : dict) (kv : pystr * pystr) : result dict :=
  let '(key, val) := kv in
  if dict_mem content key then Ok (dict_set content key (VStr val))
  else
    om <- getitem content (u "other_metadata") ;;
    match om with
    | VDict m => Ok (dict_set content (u "other_metadata") (VDict (dict_set m key val)))
    | _ => Raise TypeError
    end.

Definition dc_creator : pystr := u ".//{http://purl.org/dc/elements/1.1/}creator".
Definition content_encoded : pystr :=
  u ".//{http://purl.org/rss/1.0/modules/content/}encoded".

Definition extract_article_content (article_element : Element) : result dict :=
  let content := empty_content in
  let wp_elements := collect_wp_elements article_element in
  title <- _find_text_by_tag_variants article_element [u "title"] ;;
  let content := dict_set content (u "title") (VStr title) in
  link <- _find_text_by_tag_variants article_element [u "link"] ;;
  let content := dict_set content (u "link") (VStr link) in
  guid <- _find_text_by_tag_variants article_element [u "guid"] ;;
  let content := dict_set content (u "guid") (VStr guid) in
  creator_elem <- ET_find.find article_element dc_creator ;;
  let content :=
    match text_of creator_elem with
    | Some t => dict_set content (u "creator") (VStr (strip t))
    | None => content
    end in
  encoded_elem <- ET_find.find article_element content_encoded ;;
  let content :=
    match text_of encoded_elem with
    | Some t => dict_set content (u "content") (VStr (strip t))
    | None => content
    end in
  for_each merge_wp wp_elements content.

(** The dictionary that [get_structure] builds for an element; its four
    keys are fixed. *)
Inductive structure :=
| mkStructure (tag : pystr) (attributes : list (pystr * pystr)) (text : pystr)
              (children : list structure).

(** [get_structure(element, level)] for an element that is not [None].  (The
    recursion limit of the interpreter is not modelled.) *)
Fixpoint get_structure_of (element : Element) (level : nat) : structure :=
  match element with
  | mkElement tg at_ tx cs =>
      mkStructure tg at_
        (match tx with
         | Some (c :: t) => strip (c :: t)
         | _ => []
         end)
        (map (fun child => get_structure_of child (S level)) cs)
  end.

(** [get_structure]: [None] stands for the root of the parser, which is
    [None] itself before [parse]. *)
Definition get_structure (root element : option Element) (level : nat) : result structure :=
  match (match element with Some e => Some e | None => root end) with
  | Some e => Ok (get_structure_of e level)
  | None => Raise AttributeError
  end.

Section Printing.

(** [str(element.attrib)], as the f-string renders the dictionary. *)
Variable str_attrib : list (pystr * pystr) -> pystr.

(** ["  " * level] *)
Definition indent (level : nat) : pystr := concat (replicate level (u "  ")).

(** The strings that [print_structure(element, level)] prints, one for each
    call of [print], for an element that is not [None]. *)
Fixpoint print_structure_of (element : Element) (level : nat) : list pystr :=
  match element with
  | mkElement tg at_ tx cs =>
      let tag_name := _cleanup_tag_name tg in
      [indent level ++ tag_name ++ u ": " ++ str_attrib at_]
      ++ (match tx with
          | Some (c :: t) =>
              if nonempty (strip (c :: t))
              then [indent level ++ u "  text: " ++ take 100 (strip (c :: t)) ++ u "..."]
              else []
          | _ => []
          end)
      ++ flat_map (fun child => print_structure_of child (S level)) cs
  end.

Definition print_structure (root element : option Element) (level : nat)
  : result (list pystr) :=
  match (match element with Some e => Some e | None => root end) with
  | Some e => Ok (print_structure_of e level)
  | None => Raise AttributeError
  end.

End Printing.

End XMLParser.

(** ** bs4: the parse tree *)

Module bs4.

(** A page element.  [in_text] tells the strings that [get_text] returns
    (NavigableString, CData) from those it leaves out (Comment, Doctype and
    the like); all of them are instances of [str]. *)
Inductive node :=
| NavigableString (in_text : bool) (s : pystr)
| Tag (name : pystr) (attrs : list (pystr * pystr)) (contents : list node).

(** *** BeautifulSoup(markup, 'html.parser') on simple fragments

    The fragment covered here: text without [<], [>] and [&], and properly
    nested elements [<name a="v" ...>...</name>] with lower-case names,
    void elements without an end tag.  [parse_simple] returns [None]
    outside of it. *)

Definition is_lower (c : N) : bool := ((97 <=? c) && (c <=? 122))%N.
Definition is_digit (c : N) : bool := ((48 <=? c) && (c <=? 57))%N.
Definition name_char (c : N) : bool := is_lower c || is_digit c.
Definition data_char (c : N) : bool := negb (existsb (N.eqb c) (u "<>&")).
Definition value_char (c : N) : bool :=
  negb (existsb (N.eqb c) (c_dquote :: u "<>&")).

Definition void_elements : list pystr :=
  [u "area"; u "base"; u "br"; u "col"; u "embed"; u "hr"; u "img"; u "input";
   u "keygen"; u "link"; u "menuitem"; u "meta"; u "param"; u "source";
   u "track"; u "wbr"; u "basefont"; u "bgsound"; u "command"; u "frame";
   u "image"; u "isindex"; u "nextid"; u "spacer"].

(** Elements whose content the parser or the tree builder treats in a
    special way. *)
Definition special_elements : list pystr :=
  [u "script"; u "style"; u "template"; u "rt"; u "rp"; u "textarea";
   u "title"; u "pre"; u "plaintext"; u "xmp"; u "iframe"; u "noembed";
   u "noframes"; u "noscript"].

Definition mem (x : pystr) (l : list pystr) : bool := existsb (str_eqb x) l.

Definition valid_name (nm : pystr) : bool :=
  match nm with
  | c :: _ => is_lower c && negb (mem nm special_elements)
  | [] => false
  end.

Inductive htoken :=
| TData (s : pystr)
| TStart (name : pystr) (attrs : list (pystr * pystr))
| TEnd (name : pystr).

(** Attributes [ name="value"], each after one space, up to the closing [>].
    A repeated attribute keeps its last value. *)
Fixpoint lex_attrs (fuel : nat) (s : pystr) (acc : list (pystr * pystr))
  : option (list (pystr * pystr) * pystr) :=
  match fuel with
  | 0 => None
  | S f =>
      match s with
      | c :: s' =>
          if (c =? ch ">")%N then Some (acc, s')
          else if (c =? c_space)%N then
            let nm := take_while is_lower s' in
            let r := drop (length nm) s' in
            match nm, r with
            | _ :: _, e :: q :: r' =>
                let v := take_while value_char r' in
                match drop (length v) r' with
                | q' :: r'' =>
                    if (e =? ch "=")%N && (q =? c_dquote)%N && (q' =? c_dquote)%N
                    then lex_attrs f r'' (dict_set acc nm v)
                    else None
                | [] => None
                end
            | _, _ => None
            end
          else None
      | [] => None
      end
  end.

Fixpoint lex (fuel : nat) (s : pystr) : option (list htoken) :=
  match fuel with
  | 0 => None
  | S f =>
      match s with
      | [] => Some []
      | c :: s' =>
          if (c =? ch "<")%N then
            match s' with
            | d :: s'' =>
                if (d =? ch "/")%N then
                  let nm := take_while name_char s'' in
                  match drop (length nm) s'' with
                  | g :: r =>
                      if (g =? ch ">")%N && valid_name nm
                      then cons (TEnd nm) <$> lex f r
                      else None
                  | [] => None
                  end
                else
                  let nm := take_while name_char s' in
                  if valid_name nm then
                    match lex_attrs f (drop (length nm) s') [] with
                    | Some (attrs, r) => cons (TStart nm attrs) <$> lex f r
                    | None => None
                    end
                  else None
            | [] => None
            end
          else if data_char c then
            let d := take_while data_char s in
            cons (TData d) <$> lex f (drop (length d) s)
          else None
      end
  end.

(** [endData]: a string made of ASCII spaces only is replaced by one
    newline or one space. *)
Definition is_ascii_space (c : N) : bool := existsb (N.eqb c) [32; 10; 9; 12; 13]%N.

Definition end_data (s : pystr) : pystr :=
  if forallb is_ascii_space s
  then (if has_char c_nl s then [c_nl] else [c_space])
  else s.

(** An open element: its name, its attributes, its children so far (last
    first). *)
Definition frame := (pystr * list (pystr * pystr) * list node)%type.

Definition add_child (fr : frame) (n : node) : frame :=
  let '(nm, at_, kids) := fr in (nm, at_, n :: kids).

Fixpoint build (toks : list htoken) (top : frame) (stack : list frame)
  : option (list node) :=
  match toks with
  | [] => match stack with
          | [] => Some (rev (snd top))
          | _ => None
          end
  | TData s :: r => build r (add_child top (NavigableString true (end_data s))) stack
  | TStart n a :: r =>
      if mem n void_elements then build r (add_child top (Tag n a [])) stack
      else build r (n, a, []) (top :: stack)
  | TEnd n :: r =>
      match stack with
      | [] => None
      | parent :: stack' =>
          let '(nm, at_, kids) := top in
          if str_eqb n nm then build r (add_child parent (Tag nm at_ (rev kids))) stack'
          else None
      end
  end.

Definition document_name : pystr := u "[document]".

Definition parse_simple (markup : pystr) : option (list node) :=
  match lex (S (length markup)) markup with
  | Some toks => build toks (document_name, [], []) []
  | None => None
  end.

(** *** Markup that the parser rejects

    When [<![] is followed by a character that cannot start the name of a
    marked section, [parse_marked_section] of [html.parser] raises an
    [AssertionError], which Beautiful Soup raises again as
    [ParserRejectedMarkup].  The model has this for markup that starts in
    this way. *)
Definition is_letter (c : N) : bool :=
  ((65 <=? c) && (c <=? 90) || (97 <=? c) && (c <=? 122))%N.

Definition rejected_markup (markup : pystr) : bool :=
  match markup with
  | a :: b :: c :: d :: _ =>
      (a =? ch "<")%N && (b =? ch "!")%N && (c =? ch "[")%N && negb (is_letter d)
  | _ => false
  end.

(** *** The tree as the program sees it: objects that are mutated in place

    Every tag is a cell of the heap; its contents are strings and
    references to other tags.  A tag that is removed from its parent stays
    in the heap, as the object stays alive while a list still holds it. *)

Inductive item :=
| IStr (in_text : bool) (s : pystr)
| IRef (i : nat).

Record cell := mkCell {
  name : pystr;
  attrs : list (pystr * pystr);
  contents : list item
}.

Abbreviation heap := (list cell).

(** The cells of a tree, in document order, the first at index [base]. *)
Fixpoint alloc (base : nat) (n : node) : item * list cell :=
  match n with
  | NavigableString v s => (IStr v s, [])
  | Tag nm at_ cs =>
      let '(its, cells) :=
        (fix go (b : nat) (l : list node) {struct l} : list item * list cell :=
           match l with
           | [] => ([], [])
           | c :: l' =>
               let '(it, cs1) := alloc b c in
               let '(its, cs2) := go (b + length cs1) l' in
               (it :: its, cs1 ++ cs2)
           end) (S base) cs in
      (IRef base, mkCell nm at_ its :: cells)
  end.

(** The heap of a soup; the soup itself is cell 0. *)
Definition load (contents : list node) : heap :=
  snd (alloc 0 (Tag document_name [] contents)).

Definition lookup (h : heap) (i : nat) : result cell :=
  match h !! i with
  | Some c => Ok c
  | None => Raise Unmodelled
  end.

Fixpoint map_each {A B} (f : A -> result B) (l : list A) : result (list B) :=
  match l with
  | [] => Ok []
  | a :: l' => b <- f a ;; bs <- map_each f l' ;; Ok (b :: bs)
  end.

(** [tag.descendants]: everything below the tag, in document order. *)
Fixpoint descendants (fuel : nat) (h : heap) (i : nat) : result (list item) :=
  match fuel with
  | 0 => Raise OutOfFuel
  | S f =>
      c <- lookup h i ;;
      subs <- map_each (fun it =>
                match it with
                | IStr _ _ => Ok [it]
                | IRef j => sub <- descendants f h j ;; Ok (it :: sub)
                end) (contents c) ;;
      Ok (concat subs)
  end.

Definition refs (l : list item) : list nat :=
  flat_map (fun it => match it with IRef j => [j] | IStr _ _ => [] end) l.

Definition strings (l : list item) : list pystr :=
  flat_map (fun it => match it with IStr true s => [s] | _ => [] end) l.

(** [tag.find_all(recursive=True)] *)
Definition find_all (fuel : nat) (h : heap) (i : nat) : result (list nat) :=
  d <- descendants fuel h i ;; Ok (refs d).

Definition has_name (h : heap) (nm : pystr) (j : nat) : bool :=
  match h !! j with
  | Some c => str_eqb (name c) nm
  | None => false
  end.

(** [tag.find(name)] *)
Definition find (fuel : nat) (h : heap) (i : nat) (nm : pystr) : result (option nat) :=
  d <- descendants fuel h i ;; Ok (head (List.filter (has_name h nm) (refs d))).

(** [tag.find_all(name, recursive=False)] *)
Definition find_all_children (h : heap) (i : nat) (nm : pystr) : result (list nat) :=
  c <- lookup h i ;; Ok (List.filter (has_name h nm) (refs (contents c))).

(** [tag.get_text(separator)] *)
Definition get_text (fuel : nat) (h : heap) (i : nat) (separator : pystr) : result pystr :=
  d <- descendants fuel h i ;; Ok (join separator (strings d)).

(** [tag.string]: the only child when it is a string, the [.string] of the
    only child when it is a tag, [None] otherwise. *)
Fixpoint string (fuel : nat) (h : heap) (i : nat) : result (option pystr) :=
  match fuel with
  | 0 => Raise OutOfFuel
  | S f =>
      c <- lookup h i ;;
      match contents c with
      | [IStr _ s] => Ok (Some s)
      | [IRef j] => string f h j
      | _ => Ok None
      end
  end.

(** [tag.string = s]: the contents become the one string [s]. *)
Definition set_string (h : heap) (i : nat) (s : pystr) : heap :=
  match h !! i with
  | Some c => <[i := mkCell (name c) (attrs c) [IStr true s]]> h
  | None => h
  end.

(** [tag.get(key, '')] *)
Definition get (c : cell) (key : pystr) : pystr :=
  match dict_get (attrs c) key with
  | Some v => v
  | None => []
  end.

End bs4.

(** ** What the model takes from the libraries as given

    [unquote_escaped]: [urllib.parse.unquote] on a string with a percent
    sign.  [nfkc_nonascii]: [unicodedata.normalize('NFKC', s)] on a string
    with a non-ASCII character.  [html_parser_other]: the contents of
    [BeautifulSoup(markup, 'html.parser')], or what it raises, for markup
    that [parse_simple] does not cover. *)
Record Externals := {
  unquote_escaped : pystr -> pystr;
  nfkc_nonascii : pystr -> pystr;
  html_parser_other : pystr -> result (list bs4.node)
}.

(** ** class MarkdownExporter *)

Module MarkdownExporter.
Import bs4.

Section WithExternals.
Variable ext : Externals.

(** [BeautifulSoup(html_content, 'html.parser')]: the contents of the soup,
    or the exception of the parser. *)
Definition BeautifulSoup (markup : pystr) : result (list node) :=
  if rejected_markup markup then Raise ParserRejectedMarkup
  else match parse_simple markup with
       | Some l => Ok l
       | None => html_parser_other ext markup
       end.

(** How an f-string renders a value that may be [None]. *)
Definition fmt (o : option pystr) : pystr :=
  match o with
  | Some s => s
  | None => u "None"
  end.

Definition nl2 : pystr := [c_nl; c_nl].

(** [str(n)] for a natural number *)
Definition decimal (n : nat) : pystr :=
  u (DecimalString.NilZero.string_of_uint (Nat.to_uint n)).

(** [enumerate(l, 1)] *)
Definition enumerate1 {A} (l : list A) : list (nat * A) :=
  combine (seq 1 (length l)) l.

Fixpoint _process_element (fuel : nat) (h : heap) (element : nat) : result heap :=
  match fuel with
  | 0 => Raise OutOfFuel
  | S f =>
      c <- lookup h element ;;
      let heading (marks : pystr) :=
        s <- string f h element ;;
        Ok (set_string h element (marks ++ u " " ++ fmt s ++ nl2)) in
      let li_text (h : heap) (li : nat) : result pystr :=
        t <- get_text f h li [] ;; Ok (strip t) in
      h <-
        (if str_eqb (name c) (u "h1") then heading (u "#")
         else if str_eqb (name c) (u "h2") then heading (u "##")
         else if str_eqb (name c) (u "h3") then heading (u "###")
         else if str_eqb (name c) (u "h4") then heading (u "####")
         else if str_eqb (name c) (u "h5") then heading (u "#####")
         else if str_eqb (name c) (u "h6") then heading (u "######")
         else if str_eqb (name c) (u "p") then
           s <- string f h element ;;
           match s with
           | Some (x :: t) => Ok (set_string h element ((x :: t) ++ nl2))
           | _ =>
               r <- for_each
                      (fun (st : heap * list pystr) child =>
                         match child with
                         | IStr _ x => Ok (fst st, snd st ++ [strip x])
                         | IRef j =>
                             h' <- _process_element f (fst st) j ;;
                             t <- get_text f h' j [] ;;
                             Ok (h', snd st ++ [t])
                         end)
                      (contents c) (h, []) ;;
               Ok (set_string (fst r) element (join (u " ") (snd r) ++ nl2))
           end
         else if str_eqb (name c) (u "a") then
           let href := get c (u "href") in
           s <- string f h element ;;
           let text := match s with Some (x :: t) => x :: t | _ => href end in
           Ok (set_string h element (u "[" ++ text ++ u "](" ++ href ++ u ")"))
         else if str_eqb (name c) (u "img") then
           let src := get c (u "src") in
           Ok (set_string h element (u "![](" ++ src ++ u ")"))
         else if str_eqb (name c) (u "figure") then
           img <- find f h element (u "img") ;;
           match img with
           | Some i =>
               ci <- lookup h i ;;
               let src := get ci (u "src") in
               figcaption <- find f h element (u "figcaption") ;;
               caption <- match figcaption with
                          | Some fc => s <- string f h fc ;; Ok (fmt s)
                          | None => Ok []
                          end ;;
               Ok (set_string h element (u "![" ++ caption ++ u "](" ++ src ++ u ")" ++ nl2))
           | None => Ok h
           end
         else if str_eqb (name c) (u "figcaption") then
           Ok (set_string h element [])
         else if str_eqb (name c) (u "ul") then
           lis <- find_all_children h element (u "li") ;;
           items <- map_each (fun li => t <- li_text h li ;; Ok (u "- " ++ t)) lis ;;
           Ok (set_string h element (join [c_nl] items ++ nl2))
         else if str_eqb (name c) (u "ol") then
           lis <- find_all_children h element (u "li") ;;
           items <- map_each
                      (fun il : nat * nat =>
                         t <- li_text h (snd il) ;;
                         Ok (decimal (fst il) ++ u ". " ++ t))
                      (enumerate1 lis) ;;
           Ok (set_string h element (join [c_nl] items ++ nl2))
         else if str_eqb (name c) (u "br") then
           Ok (set_string h element [c_nl])
         else Ok h) ;;
      found <- find_all f h element ;;
      for_each (fun h child => _process_element f h child) found h
  end.

(** [\n\s*\n\s*\n+] *)
Definition blank_lines : regex :=
  [Class (N.eqb c_nl) One; Class isspace Star; Class (N.eqb c_nl) One;
   Class isspace Star; Class (N.eqb c_nl) Plus].

(** [ +$] with re.MULTILINE *)
Definition trailing_spaces : regex := [Class (N.eqb c_space) Plus; Eol].

Definition html_to_markdown (html_content : pystr) : result pystr :=
  match html_content with
  | [] => Ok []
  | _ =>
      contents <- BeautifulSoup html_content ;;
      let soup := load contents in
      let fuel := S (length soup) in
      soup <- _process_element fuel soup 0 ;;
      markdown <- get_text fuel soup 0 [c_nl] ;;
      let markdown := re_sub blank_lines nl2 markdown in
      let markdown := re_sub trailing_spaces [] markdown in
      Ok (strip markdown)
  end.

(** [urllib.parse.unquote]: a string without a percent sign is returned as
    it is. *)
Definition unquote (s : pystr) : pystr :=
  if has_char (ch "%") s then unquote_escaped ext s else s.

(** [unicodedata.normalize('NFKC', s)]: an ASCII string is its own normal
    form. *)
Definition normalize_NFKC (s : pystr) : pystr :=
  if forallb (fun c => (c <? 128)%N) s then s else nfkc_nonascii ext s.

(** The class of the first substitution: the double quote and the
    characters of [<>:/\|?*]. *)
Definition forbidden_chars : pystr := c_dquote :: u "<>:/\|?*".

Definition forbidden (c : N) : bool := existsb (N.eqb c) forbidden_chars.

Definition _sanitize_filename (filename : pystr) : pystr :=
  let filename := unquote filename in
  let filename := normalize_NFKC filename in
  let filename := re_sub [Class forbidden One] (u "_") filename in
  let filename := re_sub [Class isspace Plus] (u "_") filename in
  take 100 filename.

(** [safe_value] of [_format_as_markdown]; the result of
    [value_str.replace] is dropped.  [str] of a dictionary is outside the
    model. *)
Definition safe_value (v : value) : result pystr :=
  match v with
  | VNone => Ok (u "None")
  | VStr [] => Ok [c_dquote; c_dquote]
  | VStr value_str =>
      if has_char (ch ":") value_str || has_char c_nl value_str
         || has_char c_dquote value_str
      then Ok ([c_dquote] ++ value_str ++ [c_dquote])
      else Ok value_str
  | VDict _ => Raise Unmodelled
  end.

(** The fields that [_format_as_markdown] writes, in its order. *)
Definition header_fields : list pystr :=
  [u "title"; u "post_id"; u "link"; u "guid"; u "description"; u "pubDate";
   u "post_date"; u "post_date_gmt"; u "post_modified"; u "post_modified_gmt";
   u "comment_status"; u "ping_status"; u "post_name"; u "status";
   u "post_parent"; u "menu_order"; u "post_type"; u "post_password";
   u "is_sticky"].

(** One line [key: value] *)
Definition header_line (key : pystr) (v : value) : result pystr :=
  s <- safe_value v ;; Ok (key ++ u ": " ++ s).

Definition _format_as_markdown (article_content : dict) : result pystr :=
  let lines := [u "---"] in
  basic <- map_each (fun key => v <- getitem article_content key ;; header_line key v)
                    header_fields ;;
  let lines := lines ++ basic in
  items <- match dict_get article_content (u "other_metadata") with
           | None => Ok []
           | Some (VDict d) => Ok d
           | Some _ => Raise AttributeError
           end ;;
  extra <- map_each (fun kv : pystr * pystr => header_line (fst kv) (VStr (snd kv))) items ;;
  let lines := lines ++ extra ++ [u "---"; []] in
  body <- getitem article_content (u "content") ;;
  last <- (if truthy body
           then match body with VStr s => Ok s | _ => Raise TypeError end
           else Ok (u "(No content)")) ;;
  Ok (join [c_nl] (lines ++ [last])).

(** [f"{index:03d}"] *)
Definition pad3 (index : nat) : pystr :=
  let d := decimal index in
  replicate (3 - length d) (ch "0") ++ d.

(** The files of the output directory, by name; a later write replaces an
    earlier one. *)
Definition files := list (pystr * pystr).

(** A surrogate code point: the UTF-8 codec refuses it. *)
Definition is_surrogate (c : N) : bool := ((55296 <=? c) && (c <=? 57343))%N.

(** [s.encode('utf-8')] succeeds. *)
Definition utf8_encodable (s : pystr) : bool := forallb (fun c => negb (is_surrogate c)) s.

(** The bytes of a code point in a file name: [os.fsencode] writes the
    surrogates U+DC80 to U+DCFF as one byte each and refuses the others. *)
Definition escaped_byte (c : N) : bool := ((56448 <=? c) && (c <=? 56575))%N.

Definition name_bytes (c : N) : nat :=
  if (c <? 128)%N || escaped_byte c then 1
  else if (c <? 2048)%N then 2
  else if (c <? 65536)%N then 3
  else 4.

Definition NAME_MAX : nat := 255.

(** [open(filepath, 'w', encoding='utf-8')] for the file [filename] of the
    output directory: what it raises, if anything.  The name is encoded,
    then checked for a null character, then given to the system. *)
Definition open_for_writing (filename : pystr) : result unit :=
  if existsb (fun c => is_surrogate c && negb (escaped_byte c)) filename
  then Raise UnicodeEncodeError
  else if has_char 0%N filename then Raise ValueError
  else if NAME_MAX <? list_sum (map name_bytes filename) then Raise OSError
  else Ok tt.

(** What [export_article] computes before it opens the file: the name of
    the file inside the output directory, the record with its converted
    content, and the text of the document. *)
Definition prepare_article (article_content : dict) (index : nat)
  : result (pystr * dict * pystr) :=
  title <- getitem article_content (u "title") ;;
  filename <-
    (if truthy title
     then match title with
          | VStr t => Ok (_sanitize_filename t ++ u ".md")
          | _ => Raise Unmodelled
          end
     else Ok (u "article_" ++ pad3 index ++ u ".md")) ;;
  body <- getitem article_content (u "content") ;;
  article_content <-
    (if truthy body
     then match body with
          | VStr b =>
              md <- html_to_markdown b ;;
              Ok (dict_set article_content (u "content") (VStr md))
          | _ => Raise Unmodelled
          end
     else Ok article_content) ;;
  markdown_content <- _format_as_markdown article_content ;;
  Ok (filename, article_content, markdown_content).

(** [export_article]: the files afterwards, and the record with its
    converted content and the name of the file, or the exception.  [open]
    makes the file or empties it; [write] fills it, or raises on a text
    that cannot be encoded and leaves it empty. *)
Definition export_article (fs : files) (article_content : dict) (index : nat)
  : files * result (dict * pystr) :=
  match prepare_article article_content index with
  | Raise e => (fs, Raise e)
  | Ok (filename, article_content, markdown_content) =>
      match open_for_writing filename with
      | Raise e => (fs, Raise e)
      | Ok _ =>
          if utf8_encodable markdown_content
          then (dict_set fs filename markdown_content, Ok (article_content, filename))
          else (dict_set fs filename [], Raise UnicodeEncodeError)
      end
  end.

End WithExternals.
End MarkdownExporter.

(** ** The functions of the module: parsing, searching, the whole run

    The run reads a file, prints and writes files.  What is printed is kept
    as a list of lines, one for each call of [print]: a constructor stands
    for the text of one [print] statement and carries the values that the
    statement puts into it.  The files are those of the output directory.
    An exception leaves the lines and the files as they are when it is
    raised: a file that was opened and could not be written stays, empty. *)

Module Program.
Import ET XMLParser MarkdownExporter.

(** What reading the file or making the directory may raise. *)
Inductive io_error := ParseError | FileNotFoundError | OSError.

Inductive raised :=
| IO (e : io_error)
| Py (e : exn).

Inductive line :=
| Reading (xml_path : pystr)
| ParseErrorLine (e : io_error)
| FileNotFoundLine (xml_path : pystr)
| StructureHeading
| RootTag (tag_name : pystr)
| ChannelFound
| ChannelCount (n : nat)
| ChildTag (tag_name : pystr)
| ArticleElement
| Ellipsis
| ArticlesFound (n : nat)
| NoArticlesWarning
| CheckTagHint
| CheckStructureHint
| AllTagsHeading
| TagLine (tag : pystr)
| Saved (number : nat) (filepath : pystr)
| TitleLine (title : value)
| LinkLine (link : value)
| PostDateLine (post_date : value)
| Done (n : nat)
| OutputDir (output_dir : pystr)
| ErrorLine (e : raised).

Record world := mkWorld { stdout : list line; disk : files }.

Inductive outcome (A : Type) :=
| Returned (a : A)
| Raised (e : raised).
Arguments Returned {A} a.
Arguments Raised {A} e.

Definition M (A : Type) : Type := world -> world * outcome A.

Definition ret {A} (a : A) : M A := fun w => (w, Returned a).

Definition raise {A} (e : raised) : M A := fun w => (w, Raised e).

Definition mbind {A B} (m : M A) (k : A -> M B) : M B :=
  fun w =>
    match m w with
    | (w', Returned a) => k a w'
    | (w', Raised e) => (w', Raised e)
    end.

Declare Scope run_scope.
Delimit Scope run_scope with run.
Notation "x <- m ;; k" := (mbind m (fun x => k))
  (at level 100, m at next level, right associativity) : run_scope.
Notation "m ;;; k" := (mbind m (fun _ => k))
  (at level 100, right associativity) : run_scope.
Local Open Scope run_scope.

Definition print (l : line) : M unit :=
  fun w => (mkWorld (stdout w ++ [l]) (disk w), Returned tt).

Definition print_all (ls : list line) : M unit :=
  fun w => (mkWorld (stdout w ++ ls) (disk w), Returned tt).

Definition lift {A} (r : result A) : M A :=
  match r with
  | Ok a => ret a
  | Raise e => raise (Py e)
  end.

(** [except Exception as e: print(...); traceback.print_exc(); raise]; the
    traceback goes to the error stream. *)
Definition reporting {A} (m : M A) : M A :=
  fun w =>
    match m w with
    | (w', Returned a) => (w', Returned a)
    | (w', Raised e) => (mkWorld (stdout w' ++ [ErrorLine e]) (disk w'), Raised e)
    end.

(** The fields of an [XMLParser] that the program reads. *)
Record parser := mkParser { xml_path : pystr; root : option Element }.

(** [sorted(set(l))]: the distinct strings of [l] in the order of their code
    points. *)
Fixpoint str_ltb (a b : pystr) : bool :=
  match a, b with
  | [], [] => false
  | [], _ :: _ => true
  | _ :: _, [] => false
  | x :: a', y :: b' => (x <? y)%N || (x =? y)%N && str_ltb a' b'
  end.

Fixpoint insert_sorted (x : pystr) (l : list pystr) : list pystr :=
  match l with
  | [] => [x]
  | y :: l' =>
      if str_eqb x y then l
      else if str_ltb x y then x :: l
      else y :: insert_sorted x l'
  end.

Definition sorted_set (l : list pystr) : list pystr := fold_right insert_sorted [] l.

Section WithEnvironment.
Variable ext : Externals.

(** [ET.parse(path).getroot()]: the root of the document in the file, or
    what reading or parsing it raises. *)
Variable ET_parse : pystr -> Element + io_error.

(** [Path(output_dir).mkdir(exist_ok=True)] *)
Variable mkdir : pystr -> option io_error.

(** [str(Path(output_dir) / filename)] *)
Variable path_str : pystr -> pystr -> pystr.

(** [XMLParser.parse] *)
Definition parse (self : parser) : M (parser * Element) :=
  match ET_parse (xml_path self) with
  | inl r => ret (mkParser (xml_path self) (Some r), r)
  | inr ParseError => print (ParseErrorLine ParseError) ;;; raise (IO ParseError)
  | inr FileNotFoundError =>
      print (FileNotFoundLine (xml_path self)) ;;; raise (IO FileNotFoundError)
  | inr e => raise (IO e)
  end.

(** [XMLParser.find_articles] *)
Definition find_articles (self : parser) (article_tag : pystr) : M (parser * list Element) :=
  sr <- match root self with
        | Some r => ret (self, r)
        | None => parse self
        end ;;
  articles <- lift (ET_find.findall (snd sr) (u ".//" ++ article_tag)) ;;
  ret (fst sr, articles).

(** The lines of the loop over the children of the channel; [i] is the
    index that [enumerate] gives to the first of [l]. *)
Fixpoint list_channel (article_tag : pystr) (i : nat) (l : list Element) : list line :=
  match l with
  | [] => []
  | child :: l' =>
      let tag_name := _cleanup_tag_name (tag child) in
      [ChildTag tag_name]
      ++ (if str_eqb tag_name article_tag then [ArticleElement] else [])
      ++ (if 15 <=? i then [Ellipsis] else list_channel article_tag (S i) l')
  end.

(** The loop over the articles; [i] is the index of the first of
    [articles], [exported_files] the paths so far. *)
Fixpoint export_all (output_dir : pystr) (i : nat) (articles : list Element)
    (exported_files : list pystr) : M (list pystr) :=
  match articles with
  | [] => ret exported_files
  | article :: rest =>
      content <- lift (extract_article_content article) ;;
      cf <- (fun w =>
               match export_article ext (disk w) content i with
               | (fs, Ok (content, filename)) =>
                   (mkWorld (stdout w) fs, Returned (content, path_str output_dir filename))
               | (fs, Raise e) => (mkWorld (stdout w) fs, Raised (Py e))
               end) ;;
      let content := fst cf in
      let filepath := snd cf in
      let exported_files := exported_files ++ [filepath] in
      print (Saved (S i) filepath) ;;;
      title <- lift (getitem content (u "title")) ;;
      (if truthy title then print (TitleLine title) else ret tt) ;;;
      link <- lift (getitem content (u "link")) ;;
      print (LinkLine link) ;;;
      post_date <- lift (getitem content (u "post_date")) ;;
      print (PostDateLine post_date) ;;;
      export_all output_dir (S i) rest exported_files
  end.

Definition process_xml_to_markdown (xml_path output_dir article_tag : pystr)
  : M (list pystr) :=
  print (Reading xml_path) ;;;
  let parser := mkParser xml_path None in
  match mkdir output_dir with Some e => raise (IO e) | None => ret tt end ;;;
  reporting (
    pr <- parse parser ;;
    let parser := fst pr in
    print StructureHeading ;;;
    root <- match root parser with
            | Some r => ret r
            | None => raise (Py AttributeError)
            end ;;
    print (RootTag (_cleanup_tag_name (tag root))) ;;;
    channel <- lift (ET_find.find root (u ".//channel")) ;;
    match channel with
    | Some channel =>
        print ChannelFound ;;;
        print (ChannelCount (length (children channel))) ;;;
        print_all (list_channel article_tag 0 (children channel))
    | None => ret tt
    end ;;;
    pa <- find_articles parser article_tag ;;
    let articles := snd pa in
    print (ArticlesFound (length articles)) ;;;
    match articles with
    | [] =>
        print NoArticlesWarning ;;;
        print CheckTagHint ;;;
        print CheckStructureHint ;;;
        print AllTagsHeading ;;;
        print_all (map TagLine (sorted_set (map (fun elem => _cleanup_tag_name (tag elem))
                                                (iter root)))) ;;;
        ret []
    | _ =>
        exported_files <- export_all output_dir 0 articles [] ;;
        print (Done (length exported_files)) ;;;
        print (OutputDir output_dir) ;;;
        ret exported_files
    end).

End WithEnvironment.
End Program.

(** * Vocabulary of the properties *)

Import XMLParser MarkdownExporter.

(** ** Examples of library functions

    Stand-ins for the examples: on ASCII input without a percent sign that
    [parse_simple] covers, none of them is called. *)
Definition no_externals : Externals :=
  {| unquote_escaped := fun s => s;
     nfkc_nonascii := fun s => s;
     html_parser_other := fun _ => Raise Unmodelled |}.

(** ** Records

    The record of the round trip: the three given fields, every other field
    at its default. *)
Definition hello_record : dict :=
  dict_set (dict_set (dict_set XMLParser.empty_content
    (u "title") (VStr (u "Hello: World")))
    (u "post_id") (VStr (u "1")))
    (u "content") (VStr (u "<h1>Title</h1><p>Body text</p>")).

Definition hello_body : pystr := u "# Title" ++ [c_nl; c_nl] ++ u "Body text".

Definition hello_header : list pystr :=
  [u "title: " ++ [c_dquote] ++ u "Hello: World" ++ [c_dquote];
   u "post_id: 1"] ++
  map (fun k => k ++ u ": " ++ [c_dquote; c_dquote])
      [u "link"; u "guid"; u "description"; u "pubDate"; u "post_date";
       u "post_date_gmt"; u "post_modified"; u "post_modified_gmt";
       u "comment_status"; u "ping_status"; u "post_name"; u "status";
       u "post_parent"; u "menu_order"; u "post_type"; u "post_password";
       u "is_sticky"].

(** A record as the extractor returns it, with an author. *)
Definition alice_record : dict :=
  dict_set (dict_set XMLParser.empty_content
    (u "title") (VStr (u "Post")))
    (u "creator") (VStr (u "alice")).

(** ** Tag names and matches

    A variant that is a tag name: not empty, no character of the path
    syntax, no leading dot. *)
Definition path_free (c : N) : bool :=
  negb (existsb (N.eqb c) (c_dquote :: u "/[]()@!=*'{}:")) && negb (isspace c).

Definition tag_name (v : pystr) : bool :=
  match v with
  | [] => false
  | c :: _ => negb (c =? ch ".")%N && forallb path_free v
  end.

Fixpoint strip_prefix (p s : pystr) : option pystr :=
  match p, s with
  | [], _ => Some s
  | a :: p', b :: s' => if (a =? b)%N then strip_prefix p' s' else None
  | _ :: _, [] => None
  end.

(** [t] is the name [w] behind a qualifier: a namespace [{uri}] or a prefix
    [p:]. *)
Definition qualified (w t : pystr) : bool :=
  match strip_prefix (rev w) (rev t) with
  | Some (c :: _) => (c =? ch "}")%N || (c =? ch ":")%N
  | _ => false
  end.

(** [t] matches the variant [w]: the same name, bare or qualified. *)
Definition matches (w t : pystr) : bool := str_eqb t w || qualified w t.

(** The two patterns that the resolver builds with braces are plain
    strings: behind [.//] stands one tag, the braces and the star
    included. *)
Definition literal_prefix (lit : pystr) : Prop :=
  lit = u "{{{*}}}:" \/ lit = u "{{{*}}}".

(** The first of the children of [e] with the tag [v]. *)
Definition first_child (e : ET.Element) (v : pystr) : option ET.Element :=
  head (List.filter (fun c => str_eqb (ET.tag c) v) (ET.children e)).

(** The first of the descendants of [e] with the tag [v]. *)
Definition first_descendant (e : ET.Element) (v : pystr) : option ET.Element :=
  head (List.filter (fun c => str_eqb (ET.tag c) v) (ET.descendants e)).

(** What the text of a found element contributes. *)
Definition stripped_text (e : ET.Element) : pystr :=
  match ET.text e with
  | Some (c :: t) => strip (c :: t)
  | _ => []
  end.

Definition or_else {A} (a : option A) (b : result (option A)) : result (option A) :=
  match a with
  | Some x => Ok (Some x)
  | None => b
  end.

(** A node without any title, under any name. *)
Definition untitled_item : ET.Element :=
  ET.mkElement (u "item") [] None
    [ET.mkElement (u "link") [] (Some (u "http://example.org/1")) [];
     ET.mkElement (u "{http://purl.org/dc/elements/1.1/}creator") [] (Some (u "bob")) []].

(** A title one level below a child, and a title in a namespace. *)
Definition nested_title_item : ET.Element :=
  ET.mkElement (u "item") [] None
    [ET.mkElement (u "image") [] None
       [ET.mkElement (u "title") [] (Some (u "T")) []]].

Definition namespaced_title_item : ET.Element :=
  ET.mkElement (u "item") [] None
    [ET.mkElement (u "{http://example.org/ns}title") [] (Some (u "T")) []].

(** A title that only sits deeper than the children, then a link among the
    children. *)
Definition deep_title_item : ET.Element :=
  ET.mkElement (u "item") [] None
    [ET.mkElement (u "image") [] None
       [ET.mkElement (u "title") [] (Some (u "logo")) []];
     ET.mkElement (u "link") [] (Some (u " http://example.org/1 ")) []].

(** ** Record Extractor

    The last of the flagged children with the bare name [k], if any, and
    its value. *)
Definition flagged_as (k : pystr) (c : ET.Element) : bool :=
  wp_flagged c && str_eqb (_cleanup_tag_name (ET.tag c)) k.

Definition last_flagged (article : ET.Element) (k : pystr) : option pystr :=
  option_map wp_value (list.last (List.filter (flagged_as k) (ET.children article))).

(** The two fixed lookups: a descendant with exactly that qualified tag. *)
Definition dc_creator_tag : pystr := u "{http://purl.org/dc/elements/1.1/}creator".
Definition content_encoded_tag : pystr :=
  u "{http://purl.org/rss/1.0/modules/content/}encoded".

(** The element that the resolver returns for one tag-name variant. *)
Definition found (e : ET.Element) (v : pystr) : option ET.Element :=
  match first_child e v with
  | Some x => Some x
  | None =>
      match first_descendant e (u "{{{*}}}:" ++ v) with
      | Some x => Some x
      | None => first_descendant e (u "{{{*}}}" ++ v)
      end
  end.

Definition opt_text (o : option ET.Element) : pystr :=
  match text_of o with
  | Some t => strip t
  | None => []
  end.

(** The record before the namespaced children are merged into it. *)
Definition base_of (title link guid : pystr) (creator content : option pystr) : dict :=
  let d := dict_set empty_content (u "title") (VStr title) in
  let d := dict_set d (u "link") (VStr link) in
  let d := dict_set d (u "guid") (VStr guid) in
  let d := match creator with
           | Some t => dict_set d (u "creator") (VStr (strip t))
           | None => d
           end in
  match content with
  | Some t => dict_set d (u "content") (VStr (strip t))
  | None => d
  end.

Definition base_content (a : ET.Element) : dict :=
  base_of (opt_text (found a (u "title"))) (opt_text (found a (u "link")))
          (opt_text (found a (u "guid")))
          (text_of (first_descendant a dc_creator_tag))
          (text_of (first_descendant a content_encoded_tag)).

(** The value of a canonical field in the record before the merge. *)
Definition base_value (title link guid : pystr) (creator content : option pystr)
    (f : pystr) : pystr :=
  if str_eqb f (u "title") then title
  else if str_eqb f (u "link") then link
  else if str_eqb f (u "guid") then guid
  else if str_eqb f (u "creator") then from_option strip [] creator
  else if str_eqb f (u "content") then from_option strip [] content
  else [].

Definition other_metadata : pystr := u "other_metadata".

(** The shape of a record: the keys of the initial dictionary, the
    canonical fields holding strings. *)
Definition shaped (d : dict) : Prop :=
  keys d = keys empty_content /\
  forall f, In f canonical_fields -> exists s, dict_get d f = Some (VStr s).

(** The names under which a canonical field comes in the source: its own,
    and [encoded] for the content. *)
Definition field_sources (f : pystr) : list pystr :=
  if str_eqb f (u "content") then [u "content"; u "encoded"] else [f].

(** The field is absent from the node: no descendant is named after it,
    bare or qualified. *)
Definition absent (f : pystr) (article : ET.Element) : bool :=
  forallb (fun d => negb (existsb (fun n => matches n (ET.tag d)) (field_sources f)))
          (ET.descendants article).

(** A flagged child that would take the place of the map itself. *)
Definition shadowing (c : ET.Element) : bool := flagged_as other_metadata c.

(** An item with a title, a link and an author, and nothing else. *)
Definition plain_item : ET.Element :=
  ET.mkElement (u "item") [] None
    [ET.mkElement (u "title") [] (Some (u "Hello")) [];
     ET.mkElement (u "link") [] (Some (u "http://example.org/1")) [];
     ET.mkElement dc_creator_tag [] (Some (u "bob")) []].

(** A subject in the Dublin Core namespace and a note in the WordPress
    namespace. *)
Definition subject_item : ET.Element :=
  ET.mkElement (u "item") [] None
    [ET.mkElement (u "{http://purl.org/dc/elements/1.1/}subject") [] (Some (u "essay")) [];
     ET.mkElement (u "{http://wordpress.org/export/1.2/}note") [] (Some (u " draft ")) []].

(** Two notes and a status in the WordPress namespace. *)
Definition wp_item : ET.Element :=
  ET.mkElement (u "item") [] None
    [ET.mkElement (u "{http://wordpress.org/export/1.2/}note") [] (Some (u "first")) [];
     ET.mkElement (u "{http://wordpress.org/export/1.2/}status") [] (Some (u " publish ")) [];
     ET.mkElement (u "{http://wordpress.org/export/1.2/}note") [] (Some (u "second")) []].

(** ** Runs of newlines and ends of lines *)

Definition isnl (c : N) : bool := (c_nl =? c)%N.

(** The newlines in the run of whitespace that [s] starts with. *)
Fixpoint lead_nl (s : pystr) : nat :=
  match s with
  | [] => 0
  | c :: s' => if isspace c then (if isnl c then 1 else 0) + lead_nl s' else 0
  end.

(** No run of whitespace of [s] holds a third newline, [n] newlines being
    already in the run that [s] continues. *)
Fixpoint blank_ok (n : nat) (s : pystr) : bool :=
  match s with
  | [] => true
  | c :: s' =>
      if isnl c then (n <? 2) && blank_ok (S n) s'
      else if isspace c then blank_ok n s'
      else blank_ok 0 s'
  end.

(** The tails of the pattern [blank_lines]. *)
Definition ws_nl : regex := [Class isspace Star; Class (N.eqb c_nl) Plus].
Definition nl_ws_nl : regex := Class (N.eqb c_nl) One :: ws_nl.
Definition ws_nl_ws_nl : regex := Class isspace Star :: nl_ws_nl.

Definition isp (c : N) : bool := (c_space =? c)%N.

(** The pattern [trailing_spaces] after its first space. *)
Definition spaces_eol : regex := [Class (N.eqb c_space) Star; Eol].

(** Some line of [s] ends with a character of the class [p]. *)
Fixpoint line_ends_with (p : N -> bool) (s : pystr) : bool :=
  match s with
  | [] => false
  | c :: s' => p c && at_eol s' || line_ends_with p s'
  end.

Definition three_newlines : pystr := [c_nl; c_nl; c_nl].

(** ** The tree in the heap *)

Import bs4.

(** The references of a cell point to later cells of the heap. *)
Definition wf (h : heap) : Prop :=
  forall i c, h !! i = Some c ->
    forall j, In j (refs (contents c)) -> i < j < length h.

(** A heap that is as long as [h0] and well formed. *)
Definition good (h0 h : heap) : Prop := wf h /\ length h = length h0.

(** The loop of [alloc] over the children of a tag. *)
Fixpoint alloc_list (b : nat) (l : list node) : list item * list cell :=
  match l with
  | [] => ([], [])
  | c :: l' =>
      let '(it, cs1) := alloc b c in
      let '(its, cs2) := alloc_list (b + length cs1) l' in
      (it :: its, cs1 ++ cs2)
  end.

(** The cells of a tree allocated from [base] on: its references stay in
    the block, and each cell points further down the block. *)
Definition in_block (base : nat) (r : list item * list cell) : Prop :=
  (forall j, In j (refs (fst r)) -> base <= j < base + length (snd r)) /\
  (forall k c, snd r !! k = Some c ->
     forall j, In j (refs (contents c)) -> base + k < j < base + length (snd r)).

(** ** Markup Converter

    A whitespace character other than the newline. *)
Definition blank (c : N) : bool := isspace c && negb (isnl c).

(** A line that ends with a tabulator. *)
Definition tabbed : pystr := u "a" ++ [9; 10]%N ++ u "b".

(** The six heading elements and their marks. *)
Definition headings : list (pystr * pystr) :=
  [(u "h1", u "#"); (u "h2", u "##"); (u "h3", u "###"); (u "h4", u "####");
   (u "h5", u "#####"); (u "h6", u "######")].

(** A heading around one inline element. *)
Definition wrapped_heading : pystr := u "<h1><b>Title</b></h1>".

(** A heading with a text and an inline element. *)
Definition mixed_heading : heap :=
  load [Tag (u "h2") [] [NavigableString true (u "Hello ");
                         Tag (u "b") [] [NavigableString true (u "World")]]].

(** The tree of [wrapped_heading]. *)
Definition wrapped_heading_tree : heap :=
  load [Tag (u "h1") [] [Tag (u "b") [] [NavigableString true (u "Title")]]].

(** ** Structure listing

    The entries of a structure dictionary in document order, and the entry
    that an element gives. *)
Fixpoint flatten (s : structure) : list (pystr * list (pystr * pystr) * pystr) :=
  match s with
  | mkStructure tg at_ tx cs => (tg, at_, tx) :: flat_map flatten cs
  end.

Definition entry (e : ET.Element) : pystr * list (pystr * pystr) * pystr :=
  (ET.tag e, ET.attrib e, stripped_text e).

(** A small channel: two items, the second with an empty text. *)
Definition small_channel : ET.Element :=
  ET.mkElement (u "channel") [(u "id", u "c")] (Some (u " feed "))
    [ET.mkElement (u "item") [] None
       [ET.mkElement (u "title") [] (Some (u "A")) []];
     ET.mkElement (u "item") [] (Some (u "  ")) []].

(** ** Field Resolver on parsed documents

    The first child of [e] that carries one of the variants, the variants
    taken in order. *)
Fixpoint first_of_children (e : ET.Element) (vs : list pystr) : option ET.Element :=
  match vs with
  | [] => None
  | v :: rest =>
      match first_child e v with
      | Some x => Some x
      | None => first_of_children e rest
      end
  end.

(** No tag of the tree below [e] starts with two opening braces. *)
Definition single_braced (e : ET.Element) : Prop :=
  forall d, In d (ET.descendants e) -> startswith (u "{{") (ET.tag d) = false.

(** ** Record Extractor: the fields that only a flagged child can fill *)
Definition wp_only_fields : list pystr :=
  [u "description"; u "pubDate"; u "post_id"; u "post_date"; u "post_date_gmt";
   u "post_modified"; u "post_modified_gmt"; u "comment_status"; u "ping_status";
   u "post_name"; u "status"; u "post_parent"; u "menu_order"; u "post_type";
   u "post_password"; u "is_sticky"].

(** An item of a feed with the plain children of RSS and one child of the
    export format. *)
Definition rss_item : ET.Element :=
  ET.mkElement (u "item") [] None
    [ET.mkElement (u "title") [] (Some (u "Hello")) [];
     ET.mkElement (u "pubDate") [] (Some (u "Mon, 01 Jan 2024 00:00:00 +0000")) [];
     ET.mkElement (u "description") [] (Some (u "About")) [];
     ET.mkElement (u "{http://wordpress.org/export/1.2/}post_id") [] (Some (u "7")) []].

(** An item with a child named [other_metadata] in the export namespace,
    alone and before another child of that namespace. *)
Definition shadowed_item : ET.Element :=
  ET.mkElement (u "item") [] None
    [ET.mkElement (u "title") [] (Some (u "Hello")) [];
     ET.mkElement (u "{http://wordpress.org/export/1.2/}other_metadata") []
       (Some (u "x")) []].

Definition shadowed_then_note : ET.Element :=
  ET.mkElement (u "item") [] None
    [ET.mkElement (u "{http://wordpress.org/export/1.2/}other_metadata") []
       (Some (u "x")) [];
     ET.mkElement (u "{http://wordpress.org/export/1.2/}status") [] (Some (u "draft")) [];
     ET.mkElement (u "{http://wordpress.org/export/1.2/}note") [] (Some (u "n")) []].

(** The key is one of the canonical fields. *)
Definition is_field (k : pystr) : bool := existsb (str_eqb k) canonical_fields.

(** What the conversion of the content of a record raises, if anything. *)
Definition conversion_error (ext : Externals) (d : dict) : option exn :=
  match dict_get d (u "content") with
  | Some (VStr b) =>
      match html_to_markdown ext b with
      | Raise e => Some e
      | Ok _ => None
      end
  | _ => None
  end.

(** ** Filename Sanitizer: names that need no change

    An ASCII name of at most a hundred characters without a percent sign, a
    forbidden character or whitespace. *)
Definition clean_name (s : pystr) : bool :=
  forallb (fun c => (c <? 128)%N && negb (c =? ch "%")%N && negb (forbidden c)
                    && negb (isspace c)) s
  && (length s <=? 100).

(** ** Filename Sanitizer: forbidden characters and runs of whitespace

    A forbidden character becomes an underscore, and so does every run of
    whitespace as a whole; [in_run] tells that the character before was
    whitespace. *)
Definition underscore_forbidden (c : N) : N := if forbidden c then ch "_" else c.

Fixpoint squeeze (in_run : bool) (s : pystr) : pystr :=
  match s with
  | [] => []
  | c :: s' =>
      if isspace c
      then (if in_run then squeeze true s' else ch "_" :: squeeze true s')
      else c :: squeeze false s'
  end.

(** ** Markup Converter: what becomes of a text

    The three steps after the tree has been read back as text. *)
Definition tidy (text : pystr) : pystr :=
  strip (re_sub trailing_spaces [] (re_sub blank_lines nl2 text)).

(** The names of the elements that [_process_element] rewrites. *)
Definition handled : list pystr :=
  [u "h1"; u "h2"; u "h3"; u "h4"; u "h5"; u "h6"; u "p"; u "a"; u "img";
   u "figure"; u "figcaption"; u "ul"; u "ol"; u "br"].

Definition unhandled (c : cell) : bool := negb (mem (name c) handled).

(** Emphasis and a division: none of them is rewritten. *)
Definition emphasis : pystr := u "<div><b>bold</b> and <em>stressed</em></div>".

(** What a conversion from the element [e] on keeps of the heap: the
    names, the attributes, and every cell before [e]. *)
Definition frame (e : nat) (h h' : heap) : Prop :=
  map name h' = map name h /\
  map attrs h' = map attrs h /\
  forall j, j < e -> h' !! j = h !! j.

(** The cell [j] is the cell [e] or a cell below it. *)
Inductive below (h : heap) : nat -> nat -> Prop :=
| below_self (e : nat) : below h e e
| below_child (e : nat) (c : cell) (k j : nat) :
    h !! e = Some c -> In k (refs (contents c)) -> below h k j -> below h e j.

(** The cells of [h'] are those of [h] with the same names and attributes,
    and they refer to no cell that they did not refer to in [h]. *)
Definition shrinks (h h' : heap) : Prop :=
  length h' = length h /\
  forall j c', h' !! j = Some c' ->
    exists c, h !! j = Some c /\ name c' = name c /\ attrs c' = attrs c /\
              incl (refs (contents c')) (refs (contents c)).

(** Only cells at or below [e] differ between [h] and [h']. *)
Definition changes_below (e : nat) (h h' : heap) : Prop :=
  shrinks h h' /\ forall j, ~ below h e j -> h' !! j = h !! j.

(** A heading and a paragraph side by side. *)
Definition two_blocks : heap :=
  load [Tag (u "h1") [] [NavigableString true (u "A")];
        Tag (u "p") [] [NavigableString true (u "B")]].

(** ** Markup Converter: a heading inside divisions

    A node inside [k] divisions, a first-level heading around one text, and
    what one conversion makes of the text of such a heading. *)
Fixpoint wrap (k : nat) (n : node) : node :=
  match k with
  | 0 => n
  | S k' => Tag (u "div") [] [wrap k' n]
  end.

Definition heading1 (t : pystr) : node := Tag (u "h1") [] [NavigableString true t].

Definition mark (x : pystr) : pystr := u "#" ++ u " " ++ x ++ nl2.

(** The heap of the soup of [wrap k (heading1 t)]: the soup and the
    divisions, each holding the next cell, then the heading. *)
Definition links (k : nat) : list cell :=
  map (fun i => mkCell (if i =? 0 then document_name else u "div") [] [IRef (S i)])
      (seq 0 (S k)).

Definition nested (k : nat) (t : pystr) : heap :=
  links k ++ [mkCell (u "h1") [] [IStr true t]].

(** How often a heading is converted when the conversion starts [d] cells
    above it, and how often in all when it starts from each of the [m]
    cells nearest to it in turn. *)
Definition count (d : nat) : nat :=
  match d with
  | 0 => 1
  | S d' => 2 ^ d'
  end.

Fixpoint total (m : nat) : nat :=
  match m with
  | 0 => 0
  | S m' => count m' + total m'
  end.

(** ** Export

    The name of the file of a record: the sanitised title when there is
    one, the index otherwise. *)
Definition file_name (ext : Externals) (d : dict) (index : nat) : pystr :=
  match dict_get d (u "title") with
  | Some (VStr (c :: t)) => _sanitize_filename ext (c :: t) ++ u ".md"
  | _ => u "article_" ++ pad3 index ++ u ".md"
  end.

(** The parser accepts the content of the record, when there is one to
    convert. *)
Definition parsed (ext : Externals) (d : dict) : Prop :=
  match dict_get d (u "content") with
  | Some (VStr (c :: t)) => exists contents, BeautifulSoup ext (c :: t) = Ok contents
  | _ => True
  end.

(** What [export_article] does once the name [name], the record [d'] and
    the document [doc] are there: the file is opened and written. *)
Definition written (fs : files) (name : pystr) (d' : dict) (doc : pystr)
  : files * result (dict * pystr) :=
  match open_for_writing name with
  | Raise e => (fs, Raise e)
  | Ok _ =>
      if utf8_encodable doc then (dict_set fs name doc, Ok (d', name))
      else (dict_set fs name [], Raise UnicodeEncodeError)
  end.

(** The number that a string of digits denotes. *)
Definition value_of (s : pystr) : nat :=
  fold_left (fun a c => 10 * a + (N.to_nat c - 48)) s 0.

(** A record without a title. *)
Definition untitled_record : dict := empty_content.

(** ** The whole run

    The paths of the lines that report a saved article. *)
Definition saved_paths (ls : list Program.line) : list pystr :=
  flat_map (fun l => match l with
                     | Program.Saved _ p => [p]
                     | _ => []
                     end) ls.

(** The tag lines among the lines. *)
Definition tag_lines (ls : list Program.line) : list pystr :=
  flat_map (fun l => match l with
                     | Program.TagLine t => [t]
                     | _ => []
                     end) ls.

(** What a part of a run leaves behind, from the world [w] to the world
    [w'] with the new lines [new]: lines are only added, no name of a file
    is lost, every path reported as saved names a file that exists, and
    there are at most as many new files as paths reported and [extra]
    more. *)
Definition grows (path_of : pystr -> pystr) (w : Program.world)
    (new : list Program.line) (extra : nat) (w' : Program.world) : Prop :=
  Program.stdout w' = Program.stdout w ++ new /\
  (forall name, dict_mem (Program.disk w) name = true ->
                dict_mem (Program.disk w') name = true) /\
  (forall p, In p (saved_paths new) ->
     exists name, p = path_of name /\ dict_mem (Program.disk w') name = true) /\
  length (Program.disk w') <= length (Program.disk w) + length (saved_paths new) + extra.

(** The one file that a failed write may leave behind. *)
Definition slack {A} (o : Program.outcome A) : nat :=
  match o with
  | Program.Raised _ => 1
  | Program.Returned _ => 0
  end.

(** A feed with two items, the second without a title, and a feed
    without items. *)
Definition two_item_feed : ET.Element :=
  ET.mkElement (u "rss") [] None
    [ET.mkElement (u "channel") [] None
       [ET.mkElement (u "title") [] (Some (u "Blog")) [];
        ET.mkElement (u "item") [] None
          [ET.mkElement (u "title") [] (Some (u "Hello")) []];
        ET.mkElement (u "item") [] None
          [ET.mkElement (u "link") [] (Some (u "http://example.org/2")) []]]].

Definition empty_feed : ET.Element :=
  ET.mkElement (u "rss") [] None
    [ET.mkElement (u "channel") [] None
       [ET.mkElement (u "title") [] (Some (u "Blog")) []]].

(** A directory that can be made, and paths written with a slash. *)
Definition join_path (output_dir filename : pystr) : pystr :=
  output_dir ++ u "/" ++ filename.

(** A part of a run that writes no file and reports nothing as saved, and
    a part whose outcome, when it is a list of paths, is the list of the
    paths it reported. *)
Definition quiet {A} (m : Program.M A) : Prop :=
  forall w, exists ls,
    saved_paths ls = [] /\
    fst (m w) = Program.mkWorld (Program.stdout w ++ ls) (Program.disk w).

Definition accounts (path_of : pystr -> pystr) (m : Program.M (list pystr)) : Prop :=
  forall w, exists new,
    grows path_of w new (slack (snd (m w))) (fst (m w)) /\
    forall paths, snd (m w) = Program.Returned paths -> paths = saved_paths new.

(** The record can be exported under the index: the parser accepts its
    content, the file can be opened, and the document can be encoded. *)
Definition writable (ext : Externals) (d : dict) (index : nat) : Prop :=
  parsed ext d /\
  open_for_writing (file_name ext d index) = Ok tt /\
  forall name d' doc,
    prepare_article ext d index = Ok (name, d', doc) -> utf8_encodable doc = true.

(** The order of [sorted]: by code points, a proper prefix first. *)
Definition str_lt (a b : pystr) : Prop := Program.str_ltb a b = true.

(** The lines of the warning. *)
Definition warning_lines : list Program.line :=
  [Program.NoArticlesWarning; Program.CheckTagHint; Program.CheckStructureHint;
   Program.AllTagsHeading].

(** A title of a hundred three-byte characters, and a feed with one item
    of this title. *)
Definition long_title : pystr := replicate 100 12354%N.

Definition long_title_feed : ET.Element :=
  ET.mkElement (u "rss") [] None
    [ET.mkElement (u "item") [] None
       [ET.mkElement (u "title") [] (Some long_title) []]].

(** ** Markup Converter: documents made of headings and paragraphs

    A block is a heading or a paragraph around one text: its name, its
    attributes and the text.  [render] is the line that the converter makes
    of it, [convert] the block once it has been converted. *)
Definition block := (pystr * list (pystr * pystr) * pystr)%type.

Definition block_node (b : block) : node :=
  Tag (fst (fst b)) (snd (fst b)) [NavigableString true (snd b)].

Definition cell_of (b : block) : cell :=
  mkCell (fst (fst b)) (snd (fst b)) [IStr true (snd b)].

Definition block_names : list pystr :=
  [u "h1"; u "h2"; u "h3"; u "h4"; u "h5"; u "h6"; u "p"].

Definition prefix (nm : pystr) : pystr :=
  match dict_get headings nm with
  | Some marks => marks ++ u " "
  | None => []
  end.

Definition render (b : block) : pystr := prefix (fst (fst b)) ++ snd b.

Definition convert (b : block) : block := (fst b, render b ++ nl2).

(** A line of text: not empty, no newline in it, no whitespace at either
    end. *)
Definition clean_line (t : pystr) : bool :=
  match t with
  | [] => false
  | c :: _ => negb (isspace c) && negb (isspace (List.last t c))
              && forallb (fun x => negb (isnl x)) t
  end.

Definition is_block (b : block) : bool :=
  mem (fst (fst b)) block_names && clean_line (snd b).

(** A heading with an attribute and two paragraphs. *)
Definition news : pystr :=
  u "<h2 class=" ++ [c_dquote] ++ u "top" ++ [c_dquote]
  ++ u ">News</h2><p>First line</p><p>Second line</p>".

(** What [clean_line] says of a line, spelled out. *)
Definition clean (r : pystr) : Prop :=
  (exists c r', r = c :: r' /\ isspace c = false) /\
  (exists a x, r = a ++ [x] /\ isspace x = false) /\
  Forall (fun c => isnl c = false) r.

(** ** Markup Converter: an element around strings and inline elements

    A part of a paragraph or of a list: a string (a comment is a string
    that is no text), or an element around one string. *)
Inductive part :=
| PText (in_text : bool) (s : pystr)
| PElem (name : pystr) (attributes : list (pystr * pystr)) (in_text : bool)
        (text : pystr).

Definition part_node (p : part) : node :=
  match p with
  | PText v s => NavigableString v s
  | PElem nm at_ v t => Tag nm at_ [NavigableString v t]
  end.

(** Strings, links, and the elements that [_process_element] leaves alone:
    emphasis, spans, code, list items. *)
Definition inline (p : part) : bool :=
  match p with
  | PText _ _ => true
  | PElem nm _ _ _ => str_eqb nm (u "a") || negb (mem nm handled)
  end.

(** A link as Markdown; a link without text shows its target. *)
Definition link_markdown (attributes : list (pystr * pystr)) (text : pystr) : pystr :=
  let href := match dict_get attributes (u "href") with
              | Some v => v
              | None => []
              end in
  u "[" ++ match text with [] => href | _ => text end ++ u "](" ++ href ++ u ")".

(** What [get_text] shows of a string. *)
Definition shown (in_text : bool) (s : pystr) : pystr := if in_text then s else [].

(** What a part adds to the text of a paragraph. *)
Definition part_text (p : part) : pystr :=
  match p with
  | PText _ s => strip s
  | PElem nm at_ v t => if str_eqb nm (u "a") then link_markdown at_ t else shown v t
  end.

(** The texts of the list items among the parts. *)
Fixpoint item_texts (ps : list part) : list pystr :=
  match ps with
  | [] => []
  | PText _ _ :: r => item_texts r
  | PElem nm _ v t :: r =>
      if str_eqb nm (u "li") then strip (shown v t) :: item_texts r else item_texts r
  end.

(** The lines of a list: a dash for [ul], the number from 1 on for [ol]. *)
Definition list_lines (nm : pystr) (texts : list pystr) : list pystr :=
  if str_eqb nm (u "ul") then map (fun t => u "- " ++ t) texts
  else map (fun it : nat * pystr => decimal (fst it) ++ u ". " ++ snd it)
           (enumerate1 texts).

(** The contents of the element around the parts in the heap, the elements
    among them from [base] on, and their cells. *)
Fixpoint part_items (base : nat) (ps : list part) : list item :=
  match ps with
  | [] => []
  | PText v s :: r => IStr v s :: part_items base r
  | PElem _ _ _ _ :: r => IRef base :: part_items (S base) r
  end.

Fixpoint elem_cells (ps : list part) : list cell :=
  match ps with
  | [] => []
  | PText _ _ :: r => elem_cells r
  | PElem nm at_ v t :: r => mkCell nm at_ [IStr v t] :: elem_cells r
  end.

Definition is_inline (c : cell) : Prop :=
  (name c = u "a" \/ unhandled c = true) /\ exists v t, contents c = [IStr v t].

(** A link after [_process_element], and any inline element after it. *)
Definition relink (c : cell) : cell :=
  mkCell (name c) (attrs c)
         [IStr true (link_markdown (attrs c)
                       match contents c with
                       | [IStr _ t] => t
                       | _ => []
                       end)].

Definition processed (c : cell) : cell :=
  if str_eqb (name c) (u "a") then relink c else c.

(** The step of the loop over the children of a paragraph. *)
Definition paragraph_step (f : nat) (st : heap * list pystr) (child : item)
  : result (heap * list pystr) :=
  match child with
  | IStr _ x => Ok (fst st, snd st ++ [strip x])
  | IRef j =>
      h' <- _process_element f (fst st) j ;;
      t <- get_text f h' j [] ;;
      Ok (h', snd st ++ [t])
  end.

(** A sentence with emphasis and a link in it, a paragraph that is one
    link, and a numbered list. *)
Definition sentence : pystr :=
  u "<p>Read <em>all</em> of <a href=" ++ [c_dquote] ++ u "https://example.org/x"
  ++ [c_dquote] ++ u ">the notes</a>, please.</p>".

Definition only_link : pystr :=
  u "<p><a href=" ++ [c_dquote] ++ u "https://example.org/x" ++ [c_dquote]
  ++ u ">the notes</a></p>".

Definition steps : pystr :=
  u "<ol>" ++ [c_nl] ++ u "<li> mix </li>" ++ [c_nl] ++ u "<b>then</b><li>bake</li>"
  ++ [c_nl] ++ u "</ol>".

(** ** Markup Converter: figures *)

(** A figure around an image and a caption, and one around a caption
    only. *)
Definition figure (fa ia ca : list (pystr * pystr)) (in_text : bool) (caption : pystr)
  : node :=
  Tag (u "figure") fa
      [Tag (u "img") ia []; Tag (u "figcaption") ca [NavigableString in_text caption]].

Definition caption_only (fa ca : list (pystr * pystr)) (in_text : bool)
    (caption : pystr) : node :=
  Tag (u "figure") fa [Tag (u "figcaption") ca [NavigableString in_text caption]].

(** The image as Markdown. *)
Definition image_src (ia : list (pystr * pystr)) : pystr :=
  match dict_get ia (u "src") with
  | Some v => v
  | None => []
  end.

Definition image_markdown (ia : list (pystr * pystr)) (caption : pystr) : pystr :=
  u "![" ++ caption ++ u "](" ++ image_src ia ++ u ")".

Definition photo : pystr :=
  u "<figure><img src=" ++ [c_dquote] ++ u "a.png" ++ [c_dquote] ++ u " alt="
  ++ [c_dquote] ++ u "A cat" ++ [c_dquote]
  ++ u "><figcaption>My cat</figcaption></figure>".

Definition bare_caption : pystr :=
  u "<figure><figcaption>My cat</figcaption></figure>".

(** * Properties *)


#[local] Arguments N.eqb : simpl never.
#[local] Arguments N.leb : simpl never.

Lemma str_eqb_eq (a b : pystr) : str_eqb a b = true <-> a = b.
Proof. unfold str_eqb. apply bool_decide_eq_true. Qed.

Lemma str_eqb_refl (a : pystr) : str_eqb a a = true.
Proof. by apply str_eqb_eq. Qed.

Lemma str_eqb_neq (a b : pystr) : str_eqb a b = false <-> a <> b.
Proof. unfold str_eqb. apply bool_decide_eq_false. Qed.

Lemma has_char_In (c : N) (s : pystr) : has_char c s = true <-> In c s.
Proof.
  unfold has_char. rewrite existsb_exists. split.
  - intros (x & Hx & Heq). apply N.eqb_eq in Heq. by subst.
  - intros H. exists c. split; [done | apply N.eqb_refl].
Qed.

(** ** Substitution *)

(** Every character of the result of a substitution comes from the
    replacement or is a character of the subject at which no non-empty
    match starts. *)
Lemma sub_from_Forall (P : N -> Prop) (r : regex) (repl : pystr) :
  Forall P repl ->
  forall (s : pystr) (skip : nat),
    (forall pre c post, s = pre ++ c :: post ->
       (forall n, match_here r (c :: post) <> Some (S n)) -> P c) ->
    Forall P (sub_from r repl skip s).
Proof.
  intros Hrepl s. induction s as [|c s IH]; intros skip Hkeep; simpl.
  - destruct skip; [destruct (match_here r []) |]; auto.
  - assert (Hs : forall pre c0 post, s = pre ++ c0 :: post ->
               (forall n, match_here r (c0 :: post) <> Some (S n)) -> P c0).
    { intros pre c0 post -> Hn. apply (Hkeep (c :: pre) c0 post); done. }
    destruct skip as [|k]; [| by apply IH].
    destruct (match_here r (c :: s)) as [[|n]|] eqn:Hm.
    + apply Forall_app. split; [done |]. constructor; [| by apply IH].
      apply (Hkeep [] c s); [done |]. intros n. rewrite Hm. discriminate.
    + apply Forall_app. split; [done | by apply IH].
    + constructor; [| by apply IH].
      apply (Hkeep [] c s); [done |]. intros n. rewrite Hm. discriminate.
Qed.

(** A substitution keeps every property that its subject and its
    replacement share. *)
Lemma re_sub_Forall (P : N -> Prop) (r : regex) (repl s : pystr) :
  Forall P repl -> Forall P s -> Forall P (re_sub r repl s).
Proof.
  intros Hrepl Hs. apply sub_from_Forall; [done |].
  intros pre c post -> _. rewrite Forall_app in Hs. destruct Hs as [_ Hs].
  by inversion Hs.
Qed.

(** A substitution for one character class leaves no character of the class
    behind, unless the replacement brings one. *)
Lemma re_sub_class (p : N -> bool) (repl s : pystr) :
  Forall (fun c => p c = false) repl ->
  Forall (fun c => p c = false) (re_sub [Class p One] repl s).
Proof.
  intros Hrepl. apply sub_from_Forall; [done |].
  intros pre c post _ Hn. simpl in Hn. destruct (p c); [| done].
  exfalso. by apply (Hn 0).
Qed.

(** ** Filename Sanitizer *)

(** C7. For every input string the sanitized file name has at most 100
    characters, holds none of the characters < > : double-quote / \ | ? *,
    and is a function of the input alone: equal inputs give equal names. *)
Theorem sanitize_filename_safe (ext : Externals) (filename : pystr) :
  length (_sanitize_filename ext filename) <= 100 /\
  (forall c, In c forbidden_chars -> ~ In c (_sanitize_filename ext filename)) /\
  (forall filename', filename' = filename ->
     _sanitize_filename ext filename' = _sanitize_filename ext filename).
Proof.
  split; [| split].
  - unfold _sanitize_filename. rewrite length_take. lia.
  - assert (H : Forall (fun c => forbidden c = false) (_sanitize_filename ext filename)).
    { unfold _sanitize_filename. apply Forall_take.
      apply re_sub_Forall; [vm_compute; by repeat constructor |].
      apply re_sub_class. vm_compute. by repeat constructor. }
    intros c Hc Hin. rewrite List.Forall_forall in H. apply H in Hin.
    apply has_char_In in Hc. unfold forbidden, has_char in *.
    rewrite existsb_exists in Hc. destruct Hc as (x & Hx & Heq).
    apply N.eqb_eq in Heq. subst x.
    assert (existsb (N.eqb c) forbidden_chars = true); [| congruence].
    apply existsb_exists. exists c. split; [done | apply N.eqb_refl].
  - by intros ? ->.
Qed.

Lemma sanitize_filename_safe_witness :
  length (_sanitize_filename no_externals (u "a/b: c?")) <= 100 /\
  ~ In (ch "/") (_sanitize_filename no_externals (u "a/b: c?")) /\
  _sanitize_filename no_externals (u "a/b: c?") = u "a_b__c_".
Proof.
  destruct (sanitize_filename_safe no_externals (u "a/b: c?")) as (Hlen & Hchars & Hfun).
  split; [exact Hlen |]. split.
  - apply Hchars. vm_compute. tauto.
  - reflexivity.
Defined.

(** ** Document Writer: values *)

(** C9. A value that holds a double quote is written between double quotes
    with its own quotes left as they are: the header line is the key, a
    colon and a space, a quote, the value verbatim, and a closing quote. *)
Theorem safe_value_keeps_quotes (key value_str : pystr) :
  In c_dquote value_str ->
  safe_value (VStr value_str) = Ok ([c_dquote] ++ value_str ++ [c_dquote]) /\
  header_line key (VStr value_str)
  = Ok (key ++ u ": " ++ [c_dquote] ++ value_str ++ [c_dquote]).
Proof.
  intros Hq. apply has_char_In in Hq.
  assert (Hs : safe_value (VStr value_str) = Ok ([c_dquote] ++ value_str ++ [c_dquote])).
  { unfold safe_value. destruct value_str as [|c t]; [done |].
    rewrite Hq. by rewrite !orb_true_r. }
  split; [done |]. unfold header_line. by rewrite Hs.
Qed.

Lemma safe_value_keeps_quotes_witness :
  In c_dquote (u "say " ++ [c_dquote] ++ u "hi" ++ [c_dquote]) /\
  header_line (u "title") (VStr (u "say " ++ [c_dquote] ++ u "hi" ++ [c_dquote]))
  = Ok (u "title: " ++ [c_dquote] ++ u "say " ++ [c_dquote] ++ u "hi" ++ [c_dquote; c_dquote]).
Proof.
  split; [vm_compute; tauto |].
  apply (safe_value_keeps_quotes (u "title")). vm_compute. tauto.
Defined.

(** ** Round trip *)

(** C6. The record with title [Hello: World], post_id [1] and content
    [<h1>Title</h1><p>Body text</p>] is written to [Hello__World.md]; the
    header of the file holds the line [title: "Hello: World"] and its body
    is [# Title], a blank line, [Body text]. *)
Theorem export_hello_world (ext : Externals) (fs : files) (index : nat) :
  exists (doc : pystr) (record : dict),
    export_article ext fs hello_record index
    = (dict_set fs (u "Hello__World.md") doc, Ok (record, u "Hello__World.md")) /\
    doc = join [c_nl] ([u "---"] ++ hello_header ++ [u "---"; []; hello_body]) /\
    In (u "title: " ++ [c_dquote] ++ u "Hello: World" ++ [c_dquote]) hello_header /\
    html_to_markdown ext (u "<h1>Title</h1><p>Body text</p>") = Ok hello_body.
Proof.
  eexists. eexists. split; [| split; [reflexivity | split]].
  - vm_compute. reflexivity.
  - left. reflexivity.
  - vm_compute. reflexivity.
Qed.

(** ** Document Writer: the header *)

(** C5 (the code does not do this). The writer goes through [header_fields],
    which lacks [creator]: the author of a record is in no line of the
    document. *)
Theorem format_drops_creator :
  In (u "creator") XMLParser.canonical_fields /\
  ~ In (u "creator") header_fields /\
  exists doc, _format_as_markdown alice_record = Ok doc /\
    contains (u "creator") doc = false /\ contains (u "alice") doc = false.
Proof.
  split; [vm_compute; tauto |]. split.
  - unfold header_fields. intros H.
    repeat (destruct H as [H | H]; [by vm_compute in H |]). done.
  - eexists. split; [vm_compute; reflexivity |]. split; by vm_compute.
Qed.

(** ** Field Resolver *)

Lemma take_while_all (p : N -> bool) (s : pystr) :
  forallb p s = true -> take_while p s = s.
Proof.
  induction s as [|c s IH]; simpl; [done |].
  intros [Hc Hs]%andb_true_iff. rewrite Hc. by rewrite IH.
Qed.

Lemma take_while_app (p : N -> bool) (a b : pystr) :
  forallb p a = true -> take_while p (a ++ b) = a ++ take_while p b.
Proof.
  induction a as [|c a IH]; simpl; [done |].
  intros [Hc Ha]%andb_true_iff. rewrite Hc. by rewrite IH.
Qed.

Lemma path_free_not (c k : N) :
  path_free c = true ->
  In k (c_dquote :: u "/[]()@!=*'{}:") -> (k =? c)%N = false /\ (c =? k)%N = false.
Proof.
  unfold path_free. intros [H _]%andb_true_iff Hk.
  apply negb_true_iff in H.
  assert (c <> k).
  { intros ->. apply not_true_iff_false in H. apply H.
    apply existsb_exists. exists k. split; [done | apply N.eqb_refl]. }
  split; apply N.eqb_neq; congruence.
Qed.

Lemma path_free_tag_char (c : N) : path_free c = true -> ElementPath.tag_char c = true.
Proof.
  intros H. unfold ElementPath.tag_char.
  assert (Hs : isspace c = false).
  { unfold path_free in H. apply andb_true_iff in H as [_ H]. by apply negb_true_iff. }
  rewrite Hs. rewrite andb_true_r. apply negb_true_iff.
  apply not_true_iff_false. intros (k & Hk & Heq)%existsb_exists.
  apply N.eqb_eq in Heq. subst k.
  assert (Hin : In c (c_dquote :: u "/[]()@!=*'{}:")).
  { vm_compute in Hk. vm_compute. tauto. }
  destruct (path_free_not c c H Hin) as [Hf _]. by rewrite N.eqb_refl in Hf.
Qed.

Lemma forallb_tag_char (v : pystr) :
  forallb path_free v = true -> forallb ElementPath.tag_char v = true.
Proof.
  rewrite !forallb_forall. intros H c Hc. apply path_free_tag_char. by apply H.
Qed.

Lemma findall_from_skip (s : pystr) (n : nat) :
  length s <= n -> ElementPath.findall_from n s = [].
Proof.
  revert n. induction s as [|c s IH]; intros n Hn; simpl; [done |].
  simpl in Hn. destruct n as [|n]; [lia |]. apply IH. lia.
Qed.

(** Replaces the string and character literals of the goal by their code
    points. *)
Ltac norm_lits :=
  repeat match goal with
  | |- context [u ?s] => let x := eval vm_compute in (u s) in change (u s) with x
  | |- context [ch ?a] => let x := eval vm_compute in (ch a) in change (ch a) with x
  | |- context [c_dquote] => change c_dquote with 34%N
  | |- context [c_nl] => change c_nl with 10%N
  | |- context [c_space] => change c_space with 32%N
  end.

(** Rewrites the comparisons of a path-free character with the characters
    of the path syntax. *)
Ltac path_free_cmp Hc :=
  repeat match goal with
  | |- context [(?k =? ?c)%N] =>
      is_var c;
      let E := fresh in
      destruct (path_free_not c k Hc ltac:(vm_compute; tauto)) as [E _];
      rewrite E; clear E
  | |- context [(?c =? ?k)%N] =>
      is_var c;
      let E := fresh in
      destruct (path_free_not c k Hc ltac:(vm_compute; tauto)) as [_ E];
      rewrite E; clear E
  end.

(** A tag name is one token of the second group. *)
Lemma token_at_tag_name (v : pystr) :
  tag_name v = true ->
  ElementPath.token_at v = Some (([], v), length v).
Proof.
  destruct v as [|c r]; [done |]. intros [Hdot Hall]%andb_true_iff.
  apply negb_true_iff in Hdot.
  assert (Hd1 : (c =? 46)%N = false) by exact Hdot.
  assert (Hd2 : (46 =? c)%N = false) by (by rewrite N.eqb_sym).
  assert (Hc : path_free c = true) by (simpl in Hall; by apply andb_true_iff in Hall as [? _]).
  pose proof (forallb_tag_char _ Hall) as Htc.
  unfold ElementPath.token_at.
  assert (Hq1 : ElementPath.quoted (ch "'") (c :: r) = None).
  { unfold ElementPath.quoted. norm_lits. path_free_cmp Hc. done. }
  assert (Hq2 : ElementPath.quoted c_dquote (c :: r) = None).
  { unfold ElementPath.quoted. norm_lits. path_free_cmp Hc. done. }
  rewrite Hq1, Hq2.
  assert (Hsw : startswith (u "::") (c :: r) = false /\ startswith (u "//") (c :: r) = false
                /\ startswith (u "/") (c :: r) = false /\ startswith (u "..") (c :: r) = false
                /\ startswith (u "()") (c :: r) = false /\ startswith (u "!=") (c :: r) = false).
  { norm_lits. repeat split; cbn; rewrite ?Hd2; path_free_cmp Hc; done. }
  destruct Hsw as (-> & -> & -> & -> & -> & ->).
  assert (Hex : existsb (N.eqb c) (u "/.*:[]()@=") = false).
  { norm_lits. cbn. rewrite Hd1. path_free_cmp Hc. done. }
  rewrite Hex.
  assert (Htt : ElementPath.tag_token (c :: r) = Some (length (c :: r))).
  { unfold ElementPath.tag_token. norm_lits. path_free_cmp Hc.
    rewrite (take_while_all _ _ Htc). done. }
  rewrite Htt. by rewrite firstn_all.
Qed.

Lemma tag_name_last (v : pystr) :
  tag_name v = true -> exists v0 x, v = v0 ++ [x] /\ path_free x = true.
Proof.
  destruct v as [|c r]; [done |]. intros [_ Hall]%andb_true_iff.
  destruct (exists_last (l := c :: r)) as (v0 & x & E); [done |].
  exists v0, x. split; [done |]. rewrite E in Hall.
  rewrite forallb_app in Hall. apply andb_true_iff in Hall as [_ Hx].
  simpl in Hx. by rewrite andb_true_r in Hx.
Qed.

Lemma endswith_last (y x : N) (s : pystr) :
  endswith [y] (s ++ [x]) = (y =? x)%N.
Proof.
  unfold endswith. rewrite rev_unit. simpl. by rewrite andb_true_r.
Qed.

Lemma endswith2_last (y1 y2 x : N) (s : pystr) :
  (y2 =? x)%N = false -> endswith [y1; y2] (s ++ [x]) = false.
Proof.
  intros H. unfold endswith. rewrite rev_unit. simpl. by rewrite H.
Qed.

Lemma tag_name_no_colon (v : pystr) :
  forallb path_free v = true -> has_char (ch ":") v = false.
Proof.
  intros H. apply not_true_iff_false. intros Hin%has_char_In.
  rewrite forallb_forall in H. specialize (H _ Hin).
  destruct (path_free_not _ (ch ":") H ltac:(vm_compute; tauto)) as [E _].
  by rewrite N.eqb_refl in E.
Qed.

(** The token stream of a tag name. *)
Lemma xpath_tokenizer_tag_name (v : pystr) :
  tag_name v = true -> ElementPath.xpath_tokenizer v = [Ok ([], v)].
Proof.
  intros Hv. unfold ElementPath.xpath_tokenizer.
  assert (Hf : ElementPath.findall_from 0 v = [([], v)]).
  { pose proof (token_at_tag_name v Hv) as Ht.
    destruct v as [|c r]; [done |]. simpl ElementPath.findall_from.
    rewrite Ht. simpl. by rewrite findall_from_skip. }
  rewrite Hf. destruct v as [|c r]; [done |].
  apply andb_true_iff in Hv as [_ Hall]. cbn [map].
  rewrite (tag_name_no_colon _ Hall). by rewrite andb_false_r.
Qed.

Lemma tag_test_tag_name (v t : pystr) :
  tag_name v = true -> ElementPath.tag_test v t = str_eqb t v.
Proof.
  intros Hv. destruct (tag_name_last v Hv) as (v0 & x & -> & Hx).
  unfold ElementPath.tag_test, ElementPath._is_wildcard_tag.
  assert (H1 : str_eqb (take 3 (v0 ++ [x])) (u "{*}") = false).
  { apply str_eqb_neq. intros E.
    assert (Hh : head (v0 ++ [x]) = Some (ch "{")).
    { destruct (v0 ++ [x]) as [|a l]; [done |]. simpl in E. by injection E as -> _. }
    destruct v0 as [|c r]; simpl in Hh, Hv; injection Hh as ->; done. }
  assert (H2 : endswith (u "}*") (v0 ++ [x]) = false).
  { norm_lits. apply endswith2_last. by path_free_cmp Hx. }
  assert (H3 : startswith (u "{}") (v0 ++ [x]) = false).
  { destruct v0 as [|c r]; norm_lits; simpl.
    - by path_free_cmp Hx.
    - simpl in Hv. apply andb_true_iff in Hv as [_ Hall].
      apply andb_true_iff in Hall as [Hc _]. by path_free_cmp Hc. }
  by rewrite H1, H2, H3.
Qed.

Lemma filter_ext_eq {A} (f g : A -> bool) (l : list A) :
  (forall x, f x = g x) -> List.filter f l = List.filter g l.
Proof. intros H. induction l as [|a l IH]; simpl; [done |]. by rewrite H, IH. Qed.

(** [find] with a tag name looks at the immediate children only. *)
Lemma find_tag_name (e : ET.Element) (v : pystr) :
  tag_name v = true ->
  ET_find.find e v
  = Ok (head (List.filter (fun c => str_eqb (ET.tag c) v) (ET.children e))).
Proof.
  intros Hv. unfold ET_find.find. destruct (ET_find.checkpath v); [| done].
  unfold ElementPath.find, ElementPath.iterfind.
  destruct (tag_name_last v Hv) as (v0 & x & E & Hx).
  assert (H1 : endswith (u "/") v = false).
  { rewrite E. norm_lits. rewrite endswith_last. by path_free_cmp Hx. }
  assert (H2 : startswith (u "/") v = false).
  { destruct v as [|c r]; [done |]. simpl in Hv.
    apply andb_true_iff in Hv as [_ Hall]. apply andb_true_iff in Hall as [Hc _].
    norm_lits. simpl. by path_free_cmp Hc. }
  rewrite H1, H2, (xpath_tokenizer_tag_name v Hv). simpl.
  rewrite app_nil_r. do 2 f_equal. apply filter_ext_eq.
  intros c. by apply tag_test_tag_name.
Qed.

Lemma tag_token_braced (ns rest : pystr) :
  ns <> [] -> forallb (fun x => negb (x =? ch "}")%N) ns = true ->
  rest <> [] -> forallb ElementPath.tag_char rest = true ->
  ElementPath.tag_token (ch "{" :: ns ++ ch "}" :: rest)
  = Some (length (ch "{" :: ns ++ ch "}" :: rest)).
Proof.
  intros Hns Hnsall Hrest Hall. unfold ElementPath.tag_token.
  rewrite N.eqb_refl.
  rewrite (take_while_app _ ns (ch "}" :: rest) Hnsall).
  assert (E : take_while (fun x => negb (x =? ch "}")%N) (ch "}" :: rest) = [])
    by reflexivity.
  rewrite E, app_nil_r.
  destruct ns as [|a ns]; [done |]. rewrite drop_app_length.
  rewrite (take_while_all _ _ Hall).
  destruct rest as [|b rest]; [done |].
  simpl. rewrite !length_app. simpl. do 2 f_equal. lia.
Qed.

Lemma tag_token_literal (lit v : pystr) :
  literal_prefix lit -> tag_name v = true ->
  ElementPath.tag_token (lit ++ v) = Some (length (lit ++ v)).
Proof.
  intros Hlit Hv.
  assert (Hall : forallb ElementPath.tag_char v = true).
  { destruct v; [done |]. apply andb_true_iff in Hv as [_ H]. by apply forallb_tag_char. }
  destruct Hlit as [-> | ->].
  - change (u "{{{*}}}:" ++ v) with (ch "{" :: u "{{*" ++ ch "}" :: (u "}}:" ++ v)).
    apply tag_token_braced; try done; rewrite forallb_app; by rewrite Hall.
  - change (u "{{{*}}}" ++ v) with (ch "{" :: u "{{*" ++ ch "}" :: (u "}}" ++ v)).
    apply tag_token_braced; try done; rewrite forallb_app; by rewrite Hall.
Qed.

Lemma token_at_literal (lit v : pystr) :
  literal_prefix lit -> tag_name v = true ->
  ElementPath.token_at (lit ++ v) = Some (([], lit ++ v), length (lit ++ v)).
Proof.
  intros Hlit Hv. pose proof (tag_token_literal lit v Hlit Hv) as Htt.
  unfold ElementPath.token_at. rewrite Htt.
  rewrite firstn_all.
  destruct Hlit as [-> | ->]; reflexivity.
Qed.

Lemma findall_dot_slash_slash (s : pystr) :
  ElementPath.findall_from 0 (u ".//" ++ s)
  = (u ".", []) :: (u "//", []) :: ElementPath.findall_from 0 s.
Proof. reflexivity. Qed.

Lemma findall_literal (lit v : pystr) :
  literal_prefix lit -> tag_name v = true ->
  ElementPath.findall_from 0 (lit ++ v) = [([], lit ++ v)].
Proof.
  intros Hlit Hv. pose proof (token_at_literal lit v Hlit Hv) as Ht.
  destruct (lit ++ v) as [|c r] eqn:E.
  { destruct Hlit as [-> | ->]; discriminate. }
  simpl ElementPath.findall_from. rewrite Ht. simpl.
  by rewrite findall_from_skip.
Qed.

Lemma tag_test_literal (lit v t : pystr) :
  literal_prefix lit -> tag_name v = true ->
  (if str_eqb (lit ++ v) (u "*") then true else ElementPath.tag_test (lit ++ v) t)
  = str_eqb t (lit ++ v).
Proof.
  intros Hlit Hv. destruct (tag_name_last v Hv) as (v0 & x & -> & Hx).
  assert (H0 : str_eqb (lit ++ v0 ++ [x]) (u "*") = false).
  { apply str_eqb_neq. destruct Hlit as [-> | ->]; discriminate. }
  assert (H1 : str_eqb (take 3 (lit ++ v0 ++ [x])) (u "{*}") = false).
  { apply str_eqb_neq. destruct Hlit as [-> | ->]; discriminate. }
  assert (H2 : endswith (u "}*") (lit ++ v0 ++ [x]) = false).
  { rewrite app_assoc. norm_lits. apply endswith2_last. by path_free_cmp Hx. }
  assert (H3 : startswith (u "{}") (lit ++ v0 ++ [x]) = false).
  { destruct Hlit as [-> | ->]; reflexivity. }
  unfold ElementPath.tag_test, ElementPath._is_wildcard_tag.
  by rewrite H0, H1, H2, H3.
Qed.

(** [find] with one of the brace patterns looks for a descendant whose tag
    is the pattern itself, letter by letter. *)
Lemma find_literal (e : ET.Element) (lit v : pystr) :
  literal_prefix lit -> tag_name v = true ->
  ET_find.find e (u ".//" ++ lit ++ v)
  = Ok (head (List.filter (fun c => str_eqb (ET.tag c) (lit ++ v)) (ET.descendants e))).
Proof.
  intros Hlit Hv. unfold ET_find.find.
  change (ET_find.checkpath (u ".//" ++ lit ++ v)) with true. cbv iota.
  unfold ElementPath.find, ElementPath.iterfind.
  destruct (tag_name_last v Hv) as (v0 & x & E & Hx).
  assert (H1 : endswith (u "/") (u ".//" ++ lit ++ v) = false).
  { rewrite E, !app_assoc. norm_lits. rewrite endswith_last. by path_free_cmp Hx. }
  rewrite H1.
  change (startswith (u "/") (u ".//" ++ lit ++ v)) with false. cbv iota.
  unfold ElementPath.xpath_tokenizer.
  rewrite findall_dot_slash_slash, (findall_literal lit v Hlit Hv).
  assert (Hc : ElementPath.compile ElementPath.AtOp
                 (map (fun t : ElementPath.token =>
                         let '(_, tg) := t in
                         match tg with
                         | c :: _ =>
                             if negb (c =? ch "{")%N && has_char (ch ":") tg
                             then Raise SyntaxError else Ok t
                         | [] => Ok t
                         end)
                      [(u ".", []); (u "//", []); ([], lit ++ v)])
               = Ok [ElementPath.SelSelf; ElementPath.SelDescendant (lit ++ v)]).
  { destruct Hlit as [-> | ->]; reflexivity. }
  rewrite Hc. simpl. rewrite app_nil_r. do 2 f_equal.
  apply filter_ext_eq. intros c. by apply tag_test_literal.
Qed.


(** One round of the loop of the resolver, for a variant that is a tag
    name. *)
Lemma find_element_step (e : ET.Element) (v : pystr) (rest : list pystr) :
  tag_name v = true ->
  _find_element_by_tag_variants e (v :: rest)
  = or_else (first_child e v)
      (or_else (first_descendant e (u "{{{*}}}:" ++ v))
         (or_else (first_descendant e (u "{{{*}}}" ++ v))
            (_find_element_by_tag_variants e rest))).
Proof.
  intros Hv. cbn [_find_element_by_tag_variants].
  rewrite (find_tag_name e v Hv).
  change (u ".//{{{*}}}:" ++ v) with (u ".//" ++ u "{{{*}}}:" ++ v).
  change (u ".//{{{*}}}" ++ v) with (u ".//" ++ u "{{{*}}}" ++ v).
  rewrite (find_literal e (u "{{{*}}}:") v (or_introl eq_refl) Hv).
  rewrite (find_literal e (u "{{{*}}}") v (or_intror eq_refl) Hv).
  unfold first_child, first_descendant, or_else. cbn [bind].
  destruct (head (List.filter _ (ET.children e))); [done |]. cbn [bind].
  destruct (head (List.filter _ (ET.descendants e))); [done |]. cbn [bind].
  by destruct (head (List.filter _ (ET.descendants e))).
Qed.

Lemma head_filter_None {A} (p : A -> bool) (l : list A) :
  (forall x, In x l -> p x = false) -> head (List.filter p l) = None.
Proof.
  induction l as [|a l IH]; intros H; simpl; [done |].
  rewrite (H a (or_introl eq_refl)). apply IH. intros x Hx. apply H. by right.
Qed.

Lemma head_filter_Some {A} (p : A -> bool) (l : list A) (x : A) :
  head (List.filter p l) = Some x -> In x l /\ p x = true.
Proof.
  induction l as [|a l IH]; simpl; [done |].
  destruct (p a) eqn:Ha; simpl.
  - intros [= ->]. split; [by left | done].
  - intros H. destruct (IH H). split; [by right | done].
Qed.

Lemma iter_self (e : ET.Element) : In e (ET.iter e).
Proof. destruct e. simpl. by left. Qed.

Lemma children_descendants (e c : ET.Element) :
  In c (ET.children e) -> In c (ET.descendants e).
Proof.
  intros H. unfold ET.descendants. apply in_flat_map. exists c.
  split; [done | apply iter_self].
Qed.

Lemma strip_prefix_app (p s : pystr) : strip_prefix p (p ++ s) = Some s.
Proof.
  induction p as [|a p IH]; simpl; [by destruct s |]. by rewrite N.eqb_refl.
Qed.

Lemma qualified_literal (lit v : pystr) :
  literal_prefix lit -> qualified v (lit ++ v) = true.
Proof.
  intros Hlit. unfold qualified. rewrite rev_app_distr, strip_prefix_app.
  destruct Hlit as [-> | ->]; reflexivity.
Qed.

(** C8 as stated fails: the resolver does not return for every list of
    variants.  A variant in the syntax of paths makes the lookup raise,
    although no descendant of the node matches it: a leading slash, a
    prefix with a colon behind a slash, a namespace with a port and a
    path. *)
Lemma find_text_raises_on_path_syntax :
  (forall v d,
     In v [u "/a"; u "a/b:c"; u "{http://example.org:8080/ns}title"] ->
     In d (ET.descendants untitled_item) -> matches v (ET.tag d) = false) /\
  _find_text_by_tag_variants untitled_item [u "/a"] = Raise SyntaxError /\
  _find_text_by_tag_variants untitled_item [u "a/b:c"] = Raise SyntaxError /\
  _find_text_by_tag_variants untitled_item [u "{http://example.org:8080/ns}title"]
  = Raise SyntaxError.
Proof.
  split; [| by vm_compute].
  intros v d Hv Hd. vm_compute in Hv, Hd.
  destruct Hv as [<- | [<- | [<- | []]]]; destruct Hd as [<- | [<- | []]]; reflexivity.
Qed.

(** C8, amended. When every variant is a tag name (not empty, no leading
    dot, no whitespace and none of the characters of the path syntax) and
    no descendant of the node matches any of the variants, bare or
    qualified, the resolver returns the empty string and raises nothing. *)
Theorem find_text_absent (element : ET.Element) (tag_variants : list pystr) :
  Forall (fun v => tag_name v = true) tag_variants ->
  (forall v d, In v tag_variants -> In d (ET.descendants element) ->
     matches v (ET.tag d) = false) ->
  _find_text_by_tag_variants element tag_variants = Ok [].
Proof.
  intros Hnames Hnone.
  assert (H : _find_element_by_tag_variants element tag_variants = Ok None).
  { induction tag_variants as [|v rest IH]; [done |].
    inversion Hnames as [|? ? Hv Hrest]; subst.
    rewrite (find_element_step element v rest Hv).
    assert (Hm : forall d, In d (ET.descendants element) -> matches v (ET.tag d) = false).
    { intros d Hd. apply Hnone; [by left | done]. }
    unfold first_child, first_descendant.
    rewrite head_filter_None.
    2:{ intros c Hc. apply children_descendants, Hm in Hc.
        unfold matches in Hc. by apply orb_false_iff in Hc as [? _]. }
    rewrite head_filter_None.
    2:{ intros d Hd. apply str_eqb_neq. intros E. apply Hm in Hd.
        unfold matches in Hd. apply orb_false_iff in Hd as [_ Hq].
        rewrite E, qualified_literal in Hq; [done | by left]. }
    rewrite head_filter_None.
    2:{ intros d Hd. apply str_eqb_neq. intros E. apply Hm in Hd.
        unfold matches in Hd. apply orb_false_iff in Hd as [_ Hq].
        rewrite E, qualified_literal in Hq; [done | by right]. }
    simpl. apply IH; [done |]. intros w d Hw Hd. apply Hnone; [by right | done]. }
  unfold _find_text_by_tag_variants. by rewrite H.
Qed.

Lemma find_text_absent_witness :
  _find_text_by_tag_variants untitled_item [u "title"; u "guid"] = Ok [].
Proof.
  apply find_text_absent.
  - repeat constructor.
  - intros v d Hv Hd. vm_compute in Hv, Hd.
    destruct Hv as [<- | [<- | []]]; destruct Hd as [<- | [<- | []]]; reflexivity.
Defined.

(** C1 (the code does not do this). The exact lookup [find(variant)] only
    sees the immediate children, and the two patterns meant for any
    namespace are built as plain strings, so that they look for a tag that
    begins with three opening braces.  A descendant tagged [title] below
    the immediate children is therefore not found, and neither is a child
    tagged [title] in a namespace: the resolver returns the empty string
    for both. *)
Lemma find_text_misses_nested_and_namespaced :
  (exists d, In d (ET.descendants nested_title_item) /\
     ET.tag d = u "title" /\ ET.text d = Some (u "T")) /\
  _find_text_by_tag_variants nested_title_item [u "title"] = Ok [] /\
  (exists d, In d (ET.descendants namespaced_title_item) /\
     _cleanup_tag_name (ET.tag d) = u "title" /\ ET.text d = Some (u "T")) /\
  _find_text_by_tag_variants namespaced_title_item [u "title"] = Ok [].
Proof.
  split; [| split; [| split]].
  - eexists. split; [right; left; reflexivity | by split].
  - by vm_compute.
  - eexists. split; [left; reflexivity | by split].
  - by vm_compute.
Qed.

(** ** Dictionaries *)

Section DictFacts.
Context {V : Type}.
Implicit Types (d : list (pystr * V)) (k : pystr) (v : V).

Lemma dict_get_set_eq d k v : dict_get (dict_set d k v) k = Some v.
Proof.
  induction d as [|[k' v'] d IH]; simpl.
  - by rewrite str_eqb_refl.
  - destruct (str_eqb k' k) eqn:E; simpl; rewrite E; [done | apply IH].
Qed.

Lemma dict_get_set_ne d k k' v :
  k <> k' -> dict_get (dict_set d k v) k' = dict_get d k'.
Proof.
  intros Hne. induction d as [|[k0 v0] d IH]; simpl.
  - apply str_eqb_neq in Hne. by rewrite Hne.
  - destruct (str_eqb k0 k) eqn:E; simpl.
    + apply str_eqb_eq in E. subst k0. apply str_eqb_neq in Hne. by rewrite Hne.
    + by rewrite IH.
Qed.

Lemma dict_mem_keys d k : dict_mem d k = true <-> In k (keys d).
Proof.
  unfold dict_mem. induction d as [|[k0 v0] d IH]; simpl; [done |].
  destruct (str_eqb k0 k) eqn:E.
  - apply str_eqb_eq in E. subst. tauto.
  - apply str_eqb_neq in E. rewrite IH. split; [tauto | intros [? | ?]; done].
Qed.

Lemma dict_get_None_keys d k : dict_get d k = None <-> ~ In k (keys d).
Proof.
  rewrite <- dict_mem_keys. unfold dict_mem. by destruct (dict_get d k).
Qed.

Lemma keys_set_present d k v : In k (keys d) -> keys (dict_set d k v) = keys d.
Proof.
  induction d as [|[k0 v0] d IH]; simpl; [done |].
  destruct (str_eqb k0 k) eqn:E; simpl; [done |].
  apply str_eqb_neq in E. intros [? | H]; [done |]. by rewrite IH.
Qed.

Lemma keys_set_absent d k v : ~ In k (keys d) -> keys (dict_set d k v) = keys d ++ [k].
Proof.
  induction d as [|[k0 v0] d IH]; simpl; [done |].
  intros H. destruct (str_eqb k0 k) eqn:E.
  - apply str_eqb_eq in E. tauto.
  - simpl. rewrite IH; [done | tauto].
Qed.

Lemma NoDup_keys_set d k v :
  List.NoDup (keys d) -> List.NoDup (keys (dict_set d k v)).
Proof.
  intros H. destruct (dict_mem d k) eqn:E.
  - apply dict_mem_keys in E. by rewrite keys_set_present.
  - assert (Hn : ~ In k (keys d)).
    { intros Hin%dict_mem_keys. congruence. }
    rewrite keys_set_absent by done.
    apply List.NoDup_app; [done | repeat constructor; by intros [] |].
    intros x Hx [<- | []]. done.
Qed.

End DictFacts.

(** ** Record Extractor *)

Lemma last_filter_snoc {A} (p : A -> bool) (l : list A) (a : A) :
  list.last (List.filter p (l ++ [a]))
  = if p a then Some a else list.last (List.filter p l).
Proof.
  rewrite filter_app. simpl. destruct (p a).
  - by rewrite last_snoc.
  - by rewrite app_nil_r.
Qed.

Lemma collect_wp_elements_spec (article : ET.Element) (k : pystr) :
  dict_get (collect_wp_elements article) k = last_flagged article k.
Proof.
  unfold collect_wp_elements, last_flagged.
  induction (ET.children article) as [|c l IH] using rev_ind; [done |].
  rewrite fold_left_app, last_filter_snoc. simpl. unfold flagged_as at 1.
  destruct (wp_flagged c); simpl; [| done].
  destruct (str_eqb (_cleanup_tag_name (ET.tag c)) k) eqn:E.
  - apply str_eqb_eq in E. subst k. by rewrite dict_get_set_eq.
  - apply str_eqb_neq in E. by rewrite dict_get_set_ne.
Qed.

Lemma collect_wp_elements_NoDup (article : ET.Element) :
  List.NoDup (keys (collect_wp_elements article)).
Proof.
  unfold collect_wp_elements.
  induction (ET.children article) as [|c l IH] using rev_ind; [constructor |].
  rewrite fold_left_app. simpl. destruct (wp_flagged c); [| done].
  by apply NoDup_keys_set.
Qed.

Lemma find_fixed (e : ET.Element) (path tg : pystr) :
  ET_find.checkpath path = true ->
  endswith (u "/") path = false -> startswith (u "/") path = false ->
  ElementPath.compile ElementPath.AtOp (ElementPath.xpath_tokenizer path)
  = Ok [ElementPath.SelSelf; ElementPath.SelDescendant tg] ->
  (forall t, (if str_eqb tg (u "*") then true else ElementPath.tag_test tg t)
             = str_eqb t tg) ->
  ET_find.find e path = Ok (first_descendant e tg).
Proof.
  intros H1 H2 H3 H4 H5. unfold ET_find.find. rewrite H1.
  unfold ElementPath.find, ElementPath.iterfind. rewrite H2, H3, H4. simpl.
  rewrite app_nil_r. unfold first_descendant. do 2 f_equal.
  by apply filter_ext_eq.
Qed.

Lemma find_dc_creator (e : ET.Element) :
  ET_find.find e dc_creator = Ok (first_descendant e dc_creator_tag).
Proof. apply find_fixed; by vm_compute. Qed.

Lemma find_content_encoded (e : ET.Element) :
  ET_find.find e content_encoded = Ok (first_descendant e content_encoded_tag).
Proof. apply find_fixed; by vm_compute. Qed.

Lemma find_text_single (e : ET.Element) (v : pystr) :
  tag_name v = true -> _find_text_by_tag_variants e [v] = Ok (opt_text (found e v)).
Proof.
  intros Hv. unfold _find_text_by_tag_variants.
  rewrite (find_element_step e v [] Hv). unfold found, or_else, opt_text.
  destruct (first_child e v) as [x|];
    [cbn [bind]; by destruct (text_of (Some x)) |].
  destruct (first_descendant e (u "{{{*}}}:" ++ v)) as [x|];
    [cbn [bind]; by destruct (text_of (Some x)) |].
  destruct (first_descendant e (u "{{{*}}}" ++ v)) as [x|];
    [cbn [bind]; by destruct (text_of (Some x)) | done].
Qed.

Lemma found_None (e : ET.Element) (v : pystr) :
  (forall d, In d (ET.descendants e) -> matches v (ET.tag d) = false) ->
  found e v = None.
Proof.
  intros Hm. unfold found, first_child, first_descendant.
  rewrite head_filter_None.
  2:{ intros c Hc. apply children_descendants, Hm in Hc.
      unfold matches in Hc. by apply orb_false_iff in Hc as [? _]. }
  rewrite head_filter_None.
  2:{ intros d Hd. apply str_eqb_neq. intros E. apply Hm in Hd.
      unfold matches in Hd. apply orb_false_iff in Hd as [_ Hq].
      rewrite E, qualified_literal in Hq; [done | by left]. }
  apply head_filter_None.
  intros d Hd. apply str_eqb_neq. intros E. apply Hm in Hd.
  unfold matches in Hd. apply orb_false_iff in Hd as [_ Hq].
  rewrite E, qualified_literal in Hq; [done | by right].
Qed.

Lemma extract_unfold (a : ET.Element) :
  extract_article_content a = for_each merge_wp (collect_wp_elements a) (base_content a).
Proof.
  unfold extract_article_content.
  rewrite !find_text_single by reflexivity. cbn [bind].
  rewrite find_dc_creator. cbn [bind]. rewrite find_content_encoded. cbn [bind].
  reflexivity.
Qed.

Lemma base_of_keys t l g cr co : keys (base_of t l g cr co) = keys empty_content.
Proof. destruct cr, co; reflexivity. Qed.

Lemma base_of_other t l g cr co :
  dict_get (base_of t l g cr co) other_metadata = Some (VDict []).
Proof. destruct cr, co; reflexivity. Qed.

Lemma base_of_canonical t l g cr co f :
  In f canonical_fields ->
  dict_get (base_of t l g cr co) f = Some (VStr (base_value t l g cr co f)).
Proof.
  intros Hf. unfold canonical_fields in Hf.
  repeat (destruct Hf as [<- | Hf]; [destruct cr, co; reflexivity |]).
  destruct Hf.
Qed.

Lemma other_not_canonical : ~ In other_metadata canonical_fields.
Proof.
  unfold canonical_fields. intros H.
  repeat (destruct H as [H | H]; [discriminate H |]). destruct H.
Qed.

Lemma keys_empty_content (k : pystr) :
  In k (keys empty_content) <-> In k canonical_fields \/ k = other_metadata.
Proof.
  change (keys empty_content) with (canonical_fields ++ [other_metadata]).
  rewrite in_app_iff. simpl. intuition.
Qed.

Lemma merge_wp_shaped (d d' : dict) (k v : pystr) :
  shaped d -> merge_wp d (k, v) = Ok d' -> shaped d'.
Proof.
  intros [Hk Hc]. unfold merge_wp. destruct (dict_mem d k) eqn:E.
  - intros [= <-]. apply dict_mem_keys in E. split.
    + by rewrite keys_set_present.
    + intros f Hf. destruct (decide (k = f)) as [-> | Hne].
      * eexists. apply dict_get_set_eq.
      * rewrite dict_get_set_ne by done. by apply Hc.
  - unfold getitem. destruct (dict_get d (u "other_metadata")) as [om|] eqn:Eo; [| done].
    simpl. destruct om as [| |m]; try done. intros [= <-]. split.
    + rewrite keys_set_present; [done |]. rewrite Hk.
      apply keys_empty_content. by right.
    + intros f Hf. rewrite dict_get_set_ne; [by apply Hc |].
      intros <-. by apply other_not_canonical.
Qed.

Lemma merge_wp_other_keys (d d' : dict) (k v f : pystr) :
  merge_wp d (k, v) = Ok d' -> f <> k -> f <> other_metadata ->
  dict_get d' f = dict_get d f.
Proof.
  unfold merge_wp. destruct (dict_mem d k).
  - intros [= <-] Hk _. by apply dict_get_set_ne.
  - unfold getitem. destruct (dict_get d (u "other_metadata")) as [om|]; [| done].
    simpl. destruct om as [| |m]; try done. intros [= <-] _ Ho.
    apply dict_get_set_ne. unfold other_metadata in Ho. congruence.
Qed.

Lemma merge_all_shaped (l : list (pystr * pystr)) (d r : dict) :
  shaped d -> for_each merge_wp l d = Ok r ->
  shaped r /\
  forall f, In f canonical_fields -> ~ In f (keys l) -> dict_get r f = dict_get d f.
Proof.
  revert d. induction l as [|[k v] l IH]; intros d Hd; cbn [for_each].
  - intros [= <-]. by split.
  - destruct (merge_wp d (k, v)) as [d1|] eqn:E; [| done]. cbn [bind]. intros Hr.
    destruct (IH d1 (merge_wp_shaped _ _ _ _ Hd E) Hr) as [Hs Hget].
    split; [done |]. intros f Hf Hnot. cbn [keys map fst] in Hnot.
    rewrite Hget; [| done | intros ?; apply Hnot; by right].
    apply (merge_wp_other_keys _ _ _ _ _ E).
    + intros ->. apply Hnot. by left.
    + intros ->. by apply other_not_canonical.
Qed.

Lemma canonical_dec (k : pystr) : {In k canonical_fields} + {~ In k canonical_fields}.
Proof. apply in_dec. intros a b. apply (decide (a = b)). Qed.

Lemma merge_all_untouched (l : list (pystr * pystr)) (d r : dict) (f : pystr) :
  for_each merge_wp l d = Ok r -> ~ In f (keys l) -> f <> other_metadata ->
  dict_get r f = dict_get d f.
Proof.
  revert d. induction l as [|[k v] l IH]; intros d Hr Hf Ho.
  - by injection Hr as <-.
  - cbn [for_each] in Hr. destruct (merge_wp d (k, v)) as [d1|] eqn:E; [| done].
    cbn [bind] in Hr. cbn [keys map fst] in Hf.
    rewrite (IH d1 Hr); [| intros ?; apply Hf; by right | done].
    apply (merge_wp_other_keys _ _ _ _ _ E); [| done].
    intros ->. apply Hf. by left.
Qed.

(** The merge of a list without repeated keys and without the key
    [other_metadata] succeeds, writes the canonical keys into the record and
    the others into the map. *)
Lemma merge_all (l : list (pystr * pystr)) (d : dict) (m0 : list (pystr * pystr)) :
  List.NoDup (keys l) -> ~ In other_metadata (keys l) ->
  keys d = keys empty_content ->
  dict_get d other_metadata = Some (VDict m0) ->
  exists r m,
    for_each merge_wp l d = Ok r /\
    dict_get r other_metadata = Some (VDict m) /\
    (forall k v, In k canonical_fields -> dict_get l k = Some v ->
       dict_get r k = Some (VStr v)) /\
    (forall k, ~ In k canonical_fields ->
       dict_get m k = match dict_get l k with
                      | Some v => Some v
                      | None => dict_get m0 k
                      end).
Proof.
  revert d m0. induction l as [|[k0 v0] l IH]; intros d m0 Hnd Hno Hk Ho.
  - exists d, m0. by repeat split.
  - cbn [keys map fst] in Hnd, Hno. apply List.NoDup_cons_iff in Hnd as [Hk0 Hnd].
    assert (Hne : k0 <> other_metadata) by (intros ->; apply Hno; by left).
    assert (Hno' : ~ In other_metadata (keys l)) by (intros ?; apply Hno; by right).
    assert (Hl0 : dict_get l k0 = None) by (by apply dict_get_None_keys).
    cbn [for_each]. unfold merge_wp at 1.
    destruct (canonical_dec k0) as [Hc | Hc].
    + assert (Hm : dict_mem d k0 = true).
      { apply dict_mem_keys. rewrite Hk. apply keys_empty_content. by left. }
      rewrite Hm. cbn [bind].
      destruct (IH (dict_set d k0 (VStr v0)) m0) as (r & m & Hr & Hom & Hcan & Hoth);
        [done | done | | |].
      { rewrite keys_set_present; [done |]. by apply dict_mem_keys. }
      { by rewrite dict_get_set_ne. }
      exists r, m. split; [done |]. split; [done |]. split.
      * intros k v Hkc. cbn [dict_get].
        destruct (str_eqb k0 k) eqn:E; [| by apply Hcan].
        apply str_eqb_eq in E. subst k. intros [= <-].
        rewrite (merge_all_untouched _ _ _ k0 Hr Hk0 Hne). apply dict_get_set_eq.
      * intros k Hkn. rewrite (Hoth k Hkn). cbn [dict_get].
        destruct (str_eqb k0 k) eqn:E; [| done].
        apply str_eqb_eq in E. by subst.
    + assert (Hm : dict_mem d k0 = false).
      { apply not_true_iff_false. rewrite dict_mem_keys, Hk, keys_empty_content. tauto. }
      rewrite Hm. unfold getitem. fold other_metadata. rewrite Ho. cbn [bind].
      destruct (IH (dict_set d other_metadata (VDict (dict_set m0 k0 v0))) (dict_set m0 k0 v0))
        as (r & m & Hr & Hom & Hcan & Hoth); [done | done | | |].
      { rewrite keys_set_present; [done |]. rewrite Hk. apply keys_empty_content. by right. }
      { apply dict_get_set_eq. }
      exists r, m. split; [done |]. split; [done |]. split.
      * intros k v Hkc. cbn [dict_get].
        destruct (str_eqb k0 k) eqn:E; [| by apply Hcan].
        apply str_eqb_eq in E. by subst.
      * intros k Hkn. rewrite (Hoth k Hkn). cbn [dict_get].
        destruct (str_eqb k0 k) eqn:E.
        -- apply str_eqb_eq in E. subst k. rewrite Hl0. apply dict_get_set_eq.
        -- apply str_eqb_neq in E. destruct (dict_get l k); [done |].
           by apply dict_get_set_ne.
Qed.

Lemma absent_spec (f n : pystr) (article d : ET.Element) :
  absent f article = true -> In n (field_sources f) ->
  In d (ET.descendants article) -> matches n (ET.tag d) = false.
Proof.
  unfold absent. rewrite forallb_forall. intros H Hn Hd.
  specialize (H d Hd). apply negb_true_iff in H.
  apply not_true_iff_false. intros Hm. apply not_true_iff_false in H. apply H.
  apply existsb_exists. by exists n.
Qed.

Lemma split_without (c : N) (t : pystr) :
  has_char c t = false -> split c t = [t].
Proof.
  induction t as [|a t IH]; [done |].
  cbn [has_char existsb split]. intros [Ha Ht]%orb_false_iff.
  rewrite N.eqb_sym in Ha. rewrite Ha. unfold has_char in IH. by rewrite IH.
Qed.

Lemma split_with (c : N) (t : pystr) :
  has_char c t = true ->
  (exists pre, t = pre ++ c :: List.last (split c t) []) /\
  (exists w1 w2 ws, split c t = w1 :: w2 :: ws).
Proof.
  induction t as [|a t IH]; [done |].
  cbn [has_char existsb split]. rewrite (N.eqb_sym c a).
  destruct (a =? c)%N eqn:Ea.
  - intros _. apply N.eqb_eq in Ea. subst a.
    destruct (has_char c t) eqn:Ht.
    + destruct (IH eq_refl) as [[pre E] (w1 & w2 & ws & Es)]. rewrite Es. split.
      * exists (c :: pre). rewrite Es in E. by rewrite E at 1.
      * by eexists _, _, _.
    + rewrite (split_without c t Ht). split; [by exists [] | by eexists _, _, _].
  - cbn [orb]. intros Ht. destruct (IH Ht) as [[pre E] (w1 & w2 & ws & Es)].
    rewrite Es. split.
    + exists (a :: pre). rewrite Es in E. by rewrite E at 1.
    + by eexists _, _, _.
Qed.

(** A tag whose bare name is [f] matches [f]. *)
Lemma cleanup_matches (t f : pystr) :
  _cleanup_tag_name t = f -> matches f t = true.
Proof.
  unfold _cleanup_tag_name, matches. destruct (has_char (ch "}") t) eqn:Hc.
  - intros <-. destruct (split_with _ _ Hc) as [[pre E] _].
    apply orb_true_iff. right. unfold qualified.
    rewrite E at 2. rewrite rev_app_distr. cbn [rev]. rewrite <- app_assoc.
    by rewrite strip_prefix_app.
  - intros ->. by rewrite str_eqb_refl.
Qed.

Lemma last_In {A} (l : list A) (x : A) : list.last l = Some x -> In x l.
Proof.
  induction l as [|a l IH]; [done |]. destruct l as [|b l].
  - intros [= ->]. by left.
  - intros H. right. by apply IH.
Qed.

Lemma last_flagged_child (article : ET.Element) (k v : pystr) :
  last_flagged article k = Some v ->
  exists c, In c (ET.children article) /\ flagged_as k c = true /\ wp_value c = v.
Proof.
  unfold last_flagged.
  destruct (list.last (List.filter (flagged_as k) (ET.children article))) as [c|] eqn:E;
    [| done].
  intros [= <-]. apply last_In, filter_In in E. exists c. tauto.
Qed.

Lemma field_sources_self (f : pystr) : In f (field_sources f).
Proof.
  unfold field_sources. destruct (str_eqb f (u "content")) eqn:E; [| by left].
  apply str_eqb_eq in E. subst. by left.
Qed.

Lemma absent_not_collected (f : pystr) (article : ET.Element) :
  absent f article = true -> ~ In f (keys (collect_wp_elements article)).
Proof.
  intros Ha. apply dict_get_None_keys. rewrite collect_wp_elements_spec.
  destruct (last_flagged article f) as [v|] eqn:E; [| done].
  destruct (last_flagged_child _ _ _ E) as (c & Hc & Hf & _).
  unfold flagged_as in Hf. apply andb_true_iff in Hf as [_ Hn].
  apply str_eqb_eq, cleanup_matches in Hn.
  rewrite (absent_spec f f article c Ha (field_sources_self f)) in Hn; [done |].
  by apply children_descendants.
Qed.

Lemma absent_base_value (f : pystr) (article : ET.Element) :
  absent f article = true ->
  base_value (opt_text (found article (u "title"))) (opt_text (found article (u "link")))
             (opt_text (found article (u "guid")))
             (text_of (first_descendant article dc_creator_tag))
             (text_of (first_descendant article content_encoded_tag)) f = [].
Proof.
  intros Ha. unfold base_value.
  assert (Hself : forall v, f = v -> opt_text (found article v) = []).
  { intros v <-. rewrite found_None; [done |].
    intros d Hd. by apply (absent_spec f f article d Ha (field_sources_self f)). }
  assert (Hfixed : forall n tg, In n (field_sources f) -> matches n tg = true ->
            from_option strip [] (text_of (first_descendant article tg)) = []).
  { intros n tg Hn Hm. unfold first_descendant. rewrite head_filter_None; [done |].
    intros d Hd. apply str_eqb_neq. intros E.
    rewrite <- E, (absent_spec f n article d Ha Hn Hd) in Hm. done. }
  destruct (str_eqb f (u "title")) eqn:E1; [by apply Hself, str_eqb_eq |].
  destruct (str_eqb f (u "link")) eqn:E2; [by apply Hself, str_eqb_eq |].
  destruct (str_eqb f (u "guid")) eqn:E3; [by apply Hself, str_eqb_eq |].
  destruct (str_eqb f (u "creator")) eqn:E4.
  { apply str_eqb_eq in E4. subst f. apply (Hfixed (u "creator")); [by left | reflexivity]. }
  destruct (str_eqb f (u "content")) eqn:E5; [| done].
  apply str_eqb_eq in E5. subst f. apply (Hfixed (u "encoded")); [right; by left | reflexivity].
Qed.

Lemma base_content_shaped (article : ET.Element) : shaped (base_content article).
Proof.
  split; [apply base_of_keys |]. intros f Hf. eexists. by apply base_of_canonical.
Qed.

Lemma no_shadowing_key (article : ET.Element) :
  (forall c, In c (ET.children article) -> shadowing c = false) ->
  ~ In other_metadata (keys (collect_wp_elements article)).
Proof.
  intros Hs. apply dict_get_None_keys. rewrite collect_wp_elements_spec.
  destruct (last_flagged article other_metadata) as [v|] eqn:E; [| done].
  destruct (last_flagged_child _ _ _ E) as (c & Hc & Hf & _).
  unfold shadowing in Hs. by rewrite (Hs c Hc) in Hf.
Qed.

(** The extractor on a node without a shadowing child. *)
Lemma extract_total (article : ET.Element) :
  (forall c, In c (ET.children article) -> shadowing c = false) ->
  exists r m,
    extract_article_content article = Ok r /\
    dict_get r other_metadata = Some (VDict m) /\
    (forall k v, In k canonical_fields -> last_flagged article k = Some v ->
       dict_get r k = Some (VStr v)) /\
    (forall k, ~ In k canonical_fields -> dict_get m k = last_flagged article k).
Proof.
  intros Hs. rewrite extract_unfold.
  destruct (merge_all (collect_wp_elements article) (base_content article) [])
    as (r & m & Hr & Hom & Hcan & Hoth).
  - apply collect_wp_elements_NoDup.
  - by apply no_shadowing_key.
  - apply base_of_keys.
  - apply base_of_other.
  - exists r, m. split; [done |]. split; [done |]. split.
    + intros k v Hk Hv. apply Hcan; [done |]. by rewrite collect_wp_elements_spec.
    + intros k Hk. rewrite (Hoth k Hk), collect_wp_elements_spec.
      by destruct (last_flagged article k).
Qed.

(** C3. The extractor returns a record for every node without a shadowing
    child, and every record it returns has the keys of the initial
    dictionary: each canonical field is there and holds a string, the empty
    string when the field is absent from the node. *)
Theorem extract_canonical_fields (article : ET.Element) :
  ((forall c, In c (ET.children article) -> shadowing c = false) ->
   exists r, extract_article_content article = Ok r) /\
  (forall r, extract_article_content article = Ok r ->
     keys r = keys empty_content /\
     forall f, In f canonical_fields ->
       exists s, dict_get r f = Some (VStr s) /\
                 (absent f article = true -> s = [])).
Proof.
  split.
  - intros Hs. destruct (extract_total article Hs) as (r & _ & Hr & _). by exists r.
  - intros r Hr. rewrite extract_unfold in Hr.
    destruct (merge_all_shaped _ _ _ (base_content_shaped article) Hr) as [[Hk Hc] Hget].
    split; [done |]. intros f Hf. destruct (Hc f Hf) as [s Hs]. exists s.
    split; [done |]. intros Ha.
    rewrite (Hget f Hf (absent_not_collected f article Ha)) in Hs.
    unfold base_content in Hs. rewrite (base_of_canonical _ _ _ _ _ f Hf) in Hs.
    rewrite (absent_base_value f article Ha) in Hs. by injection Hs as <-.
Qed.

Lemma extract_canonical_fields_witness :
  exists r, extract_article_content plain_item = Ok r /\
            keys r = keys empty_content /\
            dict_get r (u "description") = Some (VStr []) /\
            dict_get r (u "post_date") = Some (VStr []).
Proof.
  destruct (extract_canonical_fields plain_item) as [Htotal Hrecord].
  destruct Htotal as [r Hr].
  { intros c Hc. vm_compute in Hc. destruct Hc as [<- | [<- | [<- | []]]]; reflexivity. }
  exists r. split; [done |]. destruct (Hrecord r Hr) as [Hk Hf]. split; [done |].
  split.
  - destruct (Hf (u "description")) as (s & Hs & He); [vm_compute; tauto |].
    by rewrite Hs, He.
  - destruct (Hf (u "post_date")) as (s & Hs & He); [vm_compute; tauto |].
    by rewrite Hs, He.
Defined.

(** C4 as stated fails: a namespaced child outside the WordPress namespace,
    with a bare name that is no canonical field, is not in
    [other_metadata]; and the text of one that is there has lost its
    surrounding blanks. *)
Lemma extract_skips_other_namespaces :
  exists r m,
    extract_article_content subject_item = Ok r /\
    dict_get r other_metadata = Some (VDict m) /\
    (exists c, In c (ET.children subject_item) /\
       has_char (ch "}") (ET.tag c) = true /\
       _cleanup_tag_name (ET.tag c) = u "subject" /\
       ~ In (u "subject") canonical_fields /\
       dict_get m (u "subject") = None) /\
    (exists c, In c (ET.children subject_item) /\
       _cleanup_tag_name (ET.tag c) = u "note" /\
       ET.text c = Some (u " draft ") /\
       dict_get m (u "note") = Some (u "draft")).
Proof.
  eexists. eexists. split; [vm_compute; reflexivity |]. split; [reflexivity |]. split.
  - eexists. split; [left; reflexivity |]. repeat split.
    intros H. unfold canonical_fields in H.
    repeat (destruct H as [H | H]; [discriminate H |]). destruct H.
  - eexists. split; [right; left; reflexivity |]. by repeat split.
Qed.

Lemma flagged_last_Some (article c : ET.Element) (k : pystr) :
  In c (ET.children article) -> flagged_as k c = true ->
  exists v, last_flagged article k = Some v.
Proof.
  intros Hc Hf. unfold last_flagged.
  assert (Hin : In c (List.filter (flagged_as k) (ET.children article))).
  { apply filter_In. by split. }
  destruct (List.filter (flagged_as k) (ET.children article)) as [|a l] using rev_ind;
    [done |].
  rewrite last_snoc. by eexists.
Qed.

Lemma merge_all_canonical (l : list (pystr * pystr)) :
  forall (d r : dict) (m0 m : list (pystr * pystr)) (k : pystr),
    ~ In other_metadata (keys l) ->
    keys d = keys empty_content ->
    dict_get d other_metadata = Some (VDict m0) ->
    for_each merge_wp l d = Ok r ->
    dict_get r other_metadata = Some (VDict m) ->
    In k canonical_fields -> dict_get m k = dict_get m0 k.
Proof.
  induction l as [|[k0 v0] l IH]; intros d r m0 m k Hno Hk Ho Hr Hom Hc.
  - injection Hr as <-. rewrite Ho in Hom. by injection Hom as <-.
  - cbn [keys map fst] in Hno.
    assert (Hne : k0 <> other_metadata) by (intros ->; apply Hno; by left).
    assert (Hno' : ~ In other_metadata (keys l)) by (intros ?; apply Hno; by right).
    cbn [for_each] in Hr. unfold merge_wp at 1 in Hr.
    destruct (dict_mem d k0) eqn:Hm; cbn [bind] in Hr.
    + apply (IH (dict_set d k0 (VStr v0)) r m0 m k); try done.
      * rewrite keys_set_present; [done |]. by apply dict_mem_keys.
      * by rewrite dict_get_set_ne.
    + unfold getitem in Hr. fold other_metadata in Hr. rewrite Ho in Hr.
      cbn [bind] in Hr.
      rewrite (IH (dict_set d other_metadata (VDict (dict_set m0 k0 v0))) r
                 (dict_set m0 k0 v0) m k Hno'); try done.
      * apply dict_get_set_ne. intros ->.
        apply not_true_iff_false in Hm. apply Hm.
        apply dict_mem_keys. rewrite Hk. apply keys_empty_content. by left.
      * rewrite keys_set_present; [done |]. rewrite Hk.
        apply keys_empty_content. by right.
      * apply dict_get_set_eq.
Qed.

(** C4, amended. On a node without a shadowing child the extractor returns
    a record.  Every immediate child whose tag mentions [wordpress.org] or
    an empty namespace contributes under its bare name [k] the stripped
    text [v] of the last such child with that bare name: in the canonical
    field [k] when [k] is one, in [other_metadata] otherwise.
    [other_metadata] holds nothing else: it has no entry under the name of
    a canonical field, and each of its entries is the bare name and the
    stripped text of such a child. *)
Theorem extract_merges_flagged_children (article : ET.Element) :
  (forall c, In c (ET.children article) -> shadowing c = false) ->
  exists r m,
    extract_article_content article = Ok r /\
    dict_get r other_metadata = Some (VDict m) /\
    (forall c, In c (ET.children article) -> wp_flagged c = true ->
       exists v, last_flagged article (_cleanup_tag_name (ET.tag c)) = Some v) /\
    (forall k v, In k canonical_fields -> last_flagged article k = Some v ->
       dict_get r k = Some (VStr v)) /\
    (forall k, ~ In k canonical_fields -> dict_get m k = last_flagged article k) /\
    (forall k, In k canonical_fields -> dict_get m k = None) /\
    (forall k v, dict_get m k = Some v ->
       exists c, In c (ET.children article) /\ wp_flagged c = true /\
                 _cleanup_tag_name (ET.tag c) = k /\ wp_value c = v).
Proof.
  intros Hs. destruct (extract_total article Hs) as (r & m & Hr & Hom & Hcan & Hoth).
  assert (Hnone : forall k, In k canonical_fields -> dict_get m k = None).
  { intros k Hk. rewrite extract_unfold in Hr.
    apply (merge_all_canonical (collect_wp_elements article) (base_content article)
             r [] m k); try done.
    - by apply no_shadowing_key.
    - apply base_of_keys.
    - apply base_of_other. }
  exists r, m. split; [done |]. split; [done |]. split; [| split; [done |]].
  { intros c Hc Hf. apply (flagged_last_Some article c); [done |].
    unfold flagged_as. by rewrite Hf, str_eqb_refl. }
  split; [done |]. split; [done |].
  intros k v Hv. destruct (canonical_dec k) as [Hk | Hk].
  - by rewrite (Hnone k Hk) in Hv.
  - rewrite (Hoth k Hk) in Hv.
    destruct (last_flagged_child article k v Hv) as (c & Hc & Hf & Hw).
    unfold flagged_as in Hf. apply andb_true_iff in Hf as [Hf Hn].
    apply str_eqb_eq in Hn. by exists c.
Qed.

Lemma extract_merges_flagged_children_witness :
  exists r m,
    extract_article_content wp_item = Ok r /\
    dict_get r other_metadata = Some (VDict m) /\
    dict_get r (u "status") = Some (VStr (u "publish")) /\
    dict_get m (u "note") = Some (u "second") /\
    dict_get m (u "status") = None.
Proof.
  destruct (extract_merges_flagged_children wp_item)
    as (r & m & Hr & Hom & _ & Hcan & Hoth & Hnone & _).
  { intros c Hc. vm_compute in Hc. destruct Hc as [<- | [<- | [<- | []]]]; reflexivity. }
  exists r, m. split; [done |]. split; [done |]. split; [| split].
  - apply Hcan; [vm_compute; tauto | reflexivity].
  - rewrite Hoth; [reflexivity |]. intros H. unfold canonical_fields in H.
    repeat (destruct H as [H | H]; [discriminate H |]). destruct H.
  - apply Hnone. vm_compute. tauto.
Defined.

(** ** The matcher *)

Lemma backtrack_unfold (f : pystr -> option nat) (s : pystr) (n lo : nat) :
  backtrack f s n lo
  = match f (drop n s) with
    | Some m => if lo <=? n then Some (n + m) else None
    | None =>
        match n with
        | 0 => None
        | S n' => if lo <=? n' then backtrack f s n' lo else None
        end
    end.
Proof. by destruct n. Qed.

(** Greedy repetition seen from the front of the subject: take the first
    character and go on, or else stop here. *)
Lemma backtrack_cons (f : pystr -> option nat) (c : N) (s : pystr) (n lo : nat) :
  backtrack f (c :: s) (S n) lo
  = match backtrack f s n (pred lo) with
    | Some k => Some (S k)
    | None => match lo with 0 => f (c :: s) | S _ => None end
    end.
Proof.
  induction n as [|n IH].
  - rewrite (backtrack_unfold f (c :: s)), (backtrack_unfold f s). cbn [drop].
    destruct (f (drop 0 s)) as [m|].
    + destruct lo as [|[|lo]]; reflexivity.
    + destruct lo as [|lo]; [| reflexivity].
      rewrite backtrack_unfold. cbn [drop]. by destruct (f (c :: s)).
  - rewrite (backtrack_unfold f (c :: s)), (backtrack_unfold f s (S n)). cbn [drop].
    destruct (f (drop (S n) s)) as [m|].
    + destruct lo as [|lo]; [reflexivity |]. cbn [pred].
      change (S lo <=? S (S n)) with (lo <=? S n). by destruct (lo <=? S n).
    + destruct lo as [|lo]; [exact IH |]. cbn [pred].
      change (S lo <=? S n) with (lo <=? n). destruct (lo <=? n); [exact IH | done].
Qed.

Lemma star_nil (p : N -> bool) (f : pystr -> option nat) (lo : nat) :
  backtrack f [] (length (take_while p [])) lo
  = match lo with 0 => f [] | S _ => None end.
Proof. rewrite backtrack_unfold. cbn. destruct (f []); by destruct lo. Qed.

Lemma star_stop (p : N -> bool) (f : pystr -> option nat) (lo : nat) (c : N) (s : pystr) :
  p c = false ->
  backtrack f (c :: s) (length (take_while p (c :: s))) lo
  = match lo with 0 => f (c :: s) | S _ => None end.
Proof.
  intros Hc. cbn [take_while]. rewrite Hc. rewrite backtrack_unfold. cbn.
  destruct (f (c :: s)); by destruct lo.
Qed.

Lemma star_step (p : N -> bool) (f : pystr -> option nat) (lo : nat) (c : N) (s : pystr) :
  p c = true ->
  backtrack f (c :: s) (length (take_while p (c :: s))) lo
  = match backtrack f s (length (take_while p s)) (pred lo) with
    | Some k => Some (S k)
    | None => match lo with 0 => f (c :: s) | S _ => None end
    end.
Proof.
  intros Hc. cbn [take_while]. rewrite Hc. cbn [length]. apply backtrack_cons.
Qed.

Lemma backtrack_le (f : pystr -> option nat) (s : pystr) (n lo k : nat) :
  (forall t m, f t = Some m -> m <= length t) -> n <= length s ->
  backtrack f s n lo = Some k -> k <= length s.
Proof.
  intros Hf. induction n as [|n IH]; intros Hn; rewrite backtrack_unfold.
  - destruct (f (drop 0 s)) as [m|] eqn:E; [| done].
    destruct (lo <=? 0); [| done]. intros [= <-]. apply Hf in E.
    by rewrite drop_0 in E.
  - destruct (f (drop (S n) s)) as [m|] eqn:E.
    + destruct (lo <=? S n); [| done]. intros [= <-]. apply Hf in E.
      rewrite length_drop in E. lia.
    + destruct (lo <=? n); [| done]. apply IH. lia.
Qed.

Lemma take_while_length (p : N -> bool) (s : pystr) :
  length (take_while p s) <= length s.
Proof. induction s as [|c s IH]; simpl; [lia |]. destruct (p c); simpl; lia. Qed.

(** A match is a prefix of the subject. *)
Lemma match_here_le (r : regex) (s : pystr) (k : nat) :
  match_here r s = Some k -> k <= length s.
Proof.
  revert s k. induction r as [|a r IH]; intros s k; cbn [match_here].
  - intros [= <-]. lia.
  - destruct a as [p [| |]|].
    + destruct s as [|c s]; [done |]. destruct (p c); [| done].
      destruct (match_here r s) as [m|] eqn:E; [| done]. intros [= <-].
      apply IH in E. simpl. lia.
    + apply backtrack_le; [exact IH | apply take_while_length].
    + apply backtrack_le; [exact IH | apply take_while_length].
    + destruct (at_eol s); [apply IH | done].
Qed.

Lemma sub_from_skip (r : regex) (repl s : pystr) (k : nat) :
  k <= length s -> sub_from r repl k s = sub_from r repl 0 (drop k s).
Proof.
  revert k. induction s as [|c s IH]; intros [|k] Hk; try done.
  - simpl in Hk. lia.
  - cbn [sub_from drop]. apply IH. simpl in Hk. lia.
Qed.

(** One step of a substitution. *)
Lemma re_sub_cons (r : regex) (repl : pystr) (c : N) (s : pystr) :
  re_sub r repl (c :: s)
  = match match_here r (c :: s) with
    | Some (S n) => repl ++ re_sub r repl (drop n s)
    | Some 0 => repl ++ c :: re_sub r repl s
    | None => c :: re_sub r repl s
    end.
Proof.
  unfold re_sub. cbn [sub_from].
  destruct (match_here r (c :: s)) as [[|n]|] eqn:E; try done.
  rewrite sub_from_skip; [done |]. apply match_here_le in E. simpl in E. lia.
Qed.

(** *** Blank lines *)

Lemma isnl_isspace (c : N) : isnl c = true -> isspace c = true.
Proof. unfold isnl. intros H%N.eqb_eq. by subst. Qed.

Lemma match_star (p : N -> bool) (r : regex) (s : pystr) :
  match_here (Class p Star :: r) s
  = backtrack (match_here r) s (length (take_while p s)) 0.
Proof. reflexivity. Qed.

Lemma match_plus (p : N -> bool) (r : regex) (s : pystr) :
  match_here (Class p Plus :: r) s
  = backtrack (match_here r) s (length (take_while p s)) 1.
Proof. reflexivity. Qed.

Lemma match_nl_plus (t : pystr) :
  match_here [Class (N.eqb c_nl) Plus] t
  = match t with
    | c :: t' => if isnl c then Some (S (length (take_while isnl t'))) else None
    | [] => None
    end.
Proof.
  rewrite match_plus. destruct t as [|c t]; [by rewrite star_nil |].
  fold isnl. destruct (isnl c) eqn:Hc.
  - rewrite star_step by done. cbn [pred]. rewrite backtrack_unfold. cbn.
    by rewrite Nat.add_0_r.
  - by rewrite star_stop.
Qed.

Lemma ws_nl_facts (t : pystr) :
  match match_here ws_nl t with
  | Some k => 1 <= lead_nl t /\ lead_nl (drop k t) = 0 /\ k <= length t
  | None => lead_nl t = 0
  end.
Proof.
  unfold ws_nl. rewrite match_star.
  induction t as [|c t IH].
  - rewrite star_nil, match_nl_plus. done.
  - destruct (isspace c) eqn:Hs.
    + rewrite star_step by done. cbn [pred].
      destruct (backtrack _ t _ 0) as [k|].
      * destruct IH as (H1 & H2 & H3). cbn [lead_nl drop length]. rewrite Hs.
        split; [lia |]. split; [done | lia].
      * rewrite match_nl_plus. cbn [lead_nl]. rewrite Hs.
        destruct (isnl c) eqn:Hc.
        -- assert (Ht : take_while isnl t = []).
           { destruct t as [|d t]; [done |]. cbn [take_while].
             destruct (isnl d) eqn:Hd; [| done]. cbn [lead_nl] in IH.
             rewrite (isnl_isspace d Hd), Hd in IH. done. }
           rewrite Ht. cbn [length drop]. rewrite drop_0. split; [lia |].
           split; [done | lia].
        -- by rewrite IH.
    + rewrite star_stop by done. rewrite match_nl_plus.
      destruct (isnl c) eqn:Hc; [by rewrite (isnl_isspace c Hc) in Hs |].
      cbn [lead_nl]. by rewrite Hs.
Qed.

Lemma nl_ws_nl_eq (t : pystr) :
  match_here nl_ws_nl t
  = match t with
    | c :: t' => if isnl c then S <$> match_here ws_nl t' else None
    | [] => None
    end.
Proof. by destruct t. Qed.

Lemma ws_nl_ws_nl_facts (t : pystr) :
  match match_here ws_nl_ws_nl t with
  | Some k => 2 <= lead_nl t /\ lead_nl (drop k t) = 0 /\ k <= length t
  | None => lead_nl t <= 1
  end.
Proof.
  unfold ws_nl_ws_nl. rewrite match_star.
  induction t as [|c t IH].
  - rewrite star_nil. cbn. lia.
  - destruct (isspace c) eqn:Hs.
    + rewrite star_step by done. cbn [pred].
      destruct (backtrack _ t _ 0) as [k|].
      * destruct IH as (H1 & H2 & H3). cbn [lead_nl drop length]. rewrite Hs.
        split; [lia |]. split; [done | lia].
      * rewrite nl_ws_nl_eq. cbn [lead_nl]. rewrite Hs.
        destruct (isnl c) eqn:Hc; [| lia].
        pose proof (ws_nl_facts t) as Hw.
        destruct (match_here ws_nl t) as [k|]; cbn [fmap option_fmap option_map].
        -- destruct Hw as (H1 & H2 & H3). cbn [drop length].
           split; [lia |]. split; [done | lia].
        -- lia.
    + rewrite star_stop by done. rewrite nl_ws_nl_eq.
      destruct (isnl c) eqn:Hc; [by rewrite (isnl_isspace c Hc) in Hs |].
      cbn [lead_nl]. rewrite Hs. lia.
Qed.

Lemma blank_lines_facts (s : pystr) :
  match match_here blank_lines s with
  | Some k => 1 <= k /\ k <= length s /\ 2 <= lead_nl s /\ lead_nl (drop k s) = 0
  | None => forall c t, s = c :: t -> isnl c = true -> lead_nl s <= 2
  end.
Proof.
  assert (E : match_here blank_lines s
              = match s with
                | c :: t => if isnl c then S <$> match_here ws_nl_ws_nl t else None
                | [] => None
                end) by (by destruct s).
  rewrite E. clear E. destruct s as [|c t]; [done |].
  destruct (isnl c) eqn:Hc; [| by intros ? ? [= <- <-]; congruence].
  pose proof (ws_nl_ws_nl_facts t) as Hw.
  destruct (match_here ws_nl_ws_nl t) as [k|]; cbn [fmap option_fmap option_map].
  - destruct Hw as (H1 & H2 & H3). cbn [drop length lead_nl].
    rewrite (isnl_isspace c Hc). repeat split; try lia; done.
  - intros ? ? [= <- <-] _. cbn [lead_nl]. rewrite (isnl_isspace c Hc), Hc. lia.
Qed.


(** After the first substitution no run of whitespace holds three
    newlines. *)
Lemma blank_lines_ok (m : nat) :
  forall (s : pystr) (n : nat),
    length s <= m -> n + Nat.min (lead_nl s) 2 <= 2 ->
    blank_ok n (re_sub blank_lines nl2 s) = true.
Proof.
  induction m as [|m IH]; intros s n Hlen Hn.
  - destruct s; [done | simpl in Hlen; lia].
  - destruct s as [|c t]; [done |]. rewrite re_sub_cons.
    pose proof (blank_lines_facts (c :: t)) as Hf.
    destruct (match_here blank_lines (c :: t)) as [k|].
    + destruct Hf as (H1 & H2 & H3 & H4). destruct k as [|k]; [lia |].
      assert (n = 0) by lia. subst n. cbn [drop] in H4.
      change (blank_ok 0 (nl2 ++ re_sub blank_lines nl2 (drop k t)))
        with (blank_ok 2 (re_sub blank_lines nl2 (drop k t))).
      apply IH; [| lia]. rewrite length_drop. simpl in Hlen. lia.
    + cbn [blank_ok]. cbn [lead_nl] in Hn. simpl in Hlen.
      destruct (isnl c) eqn:Hc.
      * specialize (Hf c t eq_refl Hc). cbn [lead_nl] in Hf.
        rewrite (isnl_isspace c Hc) in Hn. rewrite (isnl_isspace c Hc), Hc in Hf.
        apply andb_true_iff. split; [apply Nat.ltb_lt; lia |].
        apply IH; lia.
      * destruct (isspace c); apply IH; lia.
Qed.

(** *** Trailing spaces *)

Lemma match_eol (s : pystr) :
  match_here [Eol] s = if at_eol s then Some 0 else None.
Proof. reflexivity. Qed.

Lemma isp_not_eol (c : N) (t : pystr) : isp c = true -> at_eol (c :: t) = false.
Proof. unfold isp. intros H%N.eqb_eq. by subst. Qed.

Lemma spaces_eol_cons (c : N) (t : pystr) :
  match_here spaces_eol (c :: t)
  = if isp c then S <$> match_here spaces_eol t
    else if at_eol (c :: t) then Some 0 else None.
Proof.
  unfold spaces_eol. rewrite !match_star. fold isp. destruct (isp c) eqn:Hc.
  - rewrite star_step by done. cbn [pred].
    destruct (backtrack _ t _ 0); [done |].
    by rewrite match_eol, (isp_not_eol c t Hc).
  - rewrite star_stop by done. apply match_eol.
Qed.

Lemma trailing_spaces_cons (c : N) (t : pystr) :
  match_here trailing_spaces (c :: t)
  = if isp c then S <$> match_here spaces_eol t else None.
Proof.
  unfold trailing_spaces. rewrite match_plus. fold isp. destruct (isp c) eqn:Hc.
  - rewrite star_step by done. cbn [pred]. unfold spaces_eol. rewrite match_star.
    by destruct (backtrack _ t _ 0).
  - by rewrite star_stop.
Qed.

Lemma spaces_eol_taken (t : pystr) (k : nat) :
  match_here spaces_eol t = Some k -> Forall (fun c => isp c = true) (take k t).
Proof.
  revert k. induction t as [|c t IH]; intros k.
  - intros _. by destruct k.
  - rewrite spaces_eol_cons. destruct (isp c) eqn:Hc.
    + destruct (match_here spaces_eol t) as [j|]; [| done]. intros [= <-].
      cbn [take]. constructor; [done | by apply IH].
    + destruct (at_eol (c :: t)); [| done]. intros [= <-]. constructor.
Qed.

Lemma trailing_spaces_taken (s : pystr) (k : nat) :
  match_here trailing_spaces s = Some k ->
  1 <= k /\ Forall (fun c => isp c = true) (take k s).
Proof.
  destruct s as [|c t]; [done |]. rewrite trailing_spaces_cons.
  destruct (isp c) eqn:Hc; [| done].
  destruct (match_here spaces_eol t) as [j|] eqn:E; [| done]. intros [= <-].
  split; [lia |]. cbn [take]. constructor; [done | by apply spaces_eol_taken].
Qed.

(** A space that stays is not followed by the end of a line. *)
Lemma kept_space_not_eol (t : pystr) :
  match_here spaces_eol t = None ->
  at_eol (re_sub trailing_spaces [] t) = false.
Proof.
  destruct t as [|d t]; [done |]. rewrite spaces_eol_cons, re_sub_cons.
  rewrite trailing_spaces_cons. destruct (isp d) eqn:Hd.
  - destruct (match_here spaces_eol t); [done |]. intros _. by apply isp_not_eol.
  - by destruct (at_eol (d :: t)) eqn:E.
Qed.

Lemma trailing_spaces_ok (m : nat) :
  forall s : pystr, length s <= m ->
    line_ends_with isp (re_sub trailing_spaces [] s) = false.
Proof.
  induction m as [|m IH]; intros s Hlen.
  - destruct s; [done | simpl in Hlen; lia].
  - destruct s as [|c t]; [done |]. rewrite re_sub_cons. simpl in Hlen.
    destruct (match_here trailing_spaces (c :: t)) as [k|] eqn:E.
    + destruct (trailing_spaces_taken _ _ E) as [Hk _]. destruct k as [|k]; [lia |].
      cbn [app]. apply IH. rewrite length_drop. lia.
    + cbn [line_ends_with]. rewrite (IH t) by lia. rewrite orb_false_r.
      rewrite trailing_spaces_cons in E. destruct (isp c); [| done].
      destruct (match_here spaces_eol t) eqn:E'; [done |].
      by rewrite (kept_space_not_eol t E').
Qed.

Lemma isp_blank (c : N) : isp c = true -> isnl c = false /\ isspace c = true.
Proof. unfold isp. intros H%N.eqb_eq. by subst. Qed.

Lemma blank_ok_drop_spaces (s : pystr) (n j : nat) :
  Forall (fun c => isp c = true) (take j s) ->
  blank_ok n s = true -> blank_ok n (drop j s) = true.
Proof.
  revert s. induction j as [|j IH]; intros s Hall Hok; [by rewrite drop_0 |].
  destruct s as [|c s]; [done |]. cbn [take] in Hall. inversion Hall as [|? ? Hc Hs]; subst.
  cbn [drop]. apply IH; [done |]. cbn [blank_ok] in Hok.
  destruct (isp_blank c Hc) as [H1 H2]. by rewrite H1, H2 in Hok.
Qed.

Lemma trailing_spaces_blank_ok (m : nat) :
  forall (s : pystr) (n : nat), length s <= m ->
    blank_ok n s = true -> blank_ok n (re_sub trailing_spaces [] s) = true.
Proof.
  induction m as [|m IH]; intros s n Hlen Hok.
  - destruct s; [done | simpl in Hlen; lia].
  - destruct s as [|c t]; [done |]. rewrite re_sub_cons. simpl in Hlen.
    destruct (match_here trailing_spaces (c :: t)) as [k|] eqn:E.
    + destruct (trailing_spaces_taken _ _ E) as [Hk Hall]. destruct k as [|k]; [lia |].
      cbn [app]. apply IH; [rewrite length_drop; lia |].
      by apply (blank_ok_drop_spaces (c :: t) n (S k)).
    + cbn [blank_ok] in *. destruct (isnl c).
      * apply andb_true_iff in Hok as [H1 H2]. rewrite H1. by apply IH; [lia |].
      * destruct (isspace c); apply IH; done || lia.
Qed.

(** *** Stripping *)

Lemma blank_ok_mono (s : pystr) (n n' : nat) :
  n' <= n -> blank_ok n s = true -> blank_ok n' s = true.
Proof.
  revert n n'. induction s as [|c s IH]; intros n n' Hle; [done |].
  cbn [blank_ok]. destruct (isnl c).
  - intros [H1 H2]%andb_true_iff. apply Nat.ltb_lt in H1.
    apply andb_true_iff. split; [apply Nat.ltb_lt; lia |].
    apply (IH (S n)); [lia | done].
  - destruct (isspace c); [by apply IH | done].
Qed.

Lemma blank_ok_lstrip (s : pystr) (n : nat) :
  blank_ok n s = true -> blank_ok n (lstrip s) = true.
Proof.
  unfold lstrip. revert n. induction s as [|c s IH]; intros n; [done |].
  cbn [drop_while]. destruct (isspace c) eqn:Hs; [| done].
  cbn [blank_ok]. rewrite Hs. destruct (isnl c).
  - intros [_ H]%andb_true_iff. apply IH. apply (blank_ok_mono s (S n)); [lia | done].
  - apply IH.
Qed.

Lemma blank_ok_app_l (a b : pystr) (n : nat) :
  blank_ok n (a ++ b) = true -> blank_ok n a = true.
Proof.
  revert n. induction a as [|c a IH]; intros n; [done |].
  cbn [app blank_ok]. destruct (isnl c).
  - intros [H1 H2]%andb_true_iff. rewrite H1. by apply IH.
  - destruct (isspace c); apply IH.
Qed.

Lemma take_drop_while (p : N -> bool) (s : pystr) :
  take_while p s ++ drop_while p s = s.
Proof.
  induction s as [|c s IH]; [done |]. cbn [take_while drop_while].
  destruct (p c); [| done]. cbn [app]. by rewrite IH.
Qed.

Lemma rstrip_app (s : pystr) : exists w, s = rstrip s ++ w.
Proof.
  exists (rev (take_while isspace (rev s))). unfold rstrip.
  rewrite <- rev_app_distr, take_drop_while. by rewrite rev_involutive.
Qed.

Lemma drop_while_head (p : N -> bool) (s : pystr) (c : N) (t : pystr) :
  drop_while p s = c :: t -> p c = false.
Proof.
  induction s as [|d s IH]; [done |]. cbn [drop_while].
  destruct (p d) eqn:Hd; [done |]. by intros [= <- <-].
Qed.

Lemma rstrip_last (s a : pystr) (x : N) :
  rstrip s = a ++ [x] -> isspace x = false.
Proof.
  unfold rstrip. intros H.
  assert (E : drop_while isspace (rev s) = x :: rev a).
  { rewrite <- (rev_involutive (drop_while isspace (rev s))), H.
    by rewrite rev_app_distr. }
  by apply drop_while_head in E.
Qed.

Lemma line_ends_with_suffix (p : N -> bool) (a b : pystr) :
  line_ends_with p (a ++ b) = false -> line_ends_with p b = false.
Proof.
  induction a as [|c a IH]; [done |]. cbn [app line_ends_with].
  intros [_ H]%orb_false_iff. by apply IH.
Qed.

Lemma line_ends_with_prefix (p : N -> bool) (a w : pystr) :
  (forall a' x, a = a' ++ [x] -> p x = false) ->
  line_ends_with p (a ++ w) = false -> line_ends_with p a = false.
Proof.
  induction a as [|c a IH]; intros Hlast; [done |].
  cbn [app line_ends_with]. intros [H1 H2]%orb_false_iff.
  apply orb_false_iff. split.
  - destruct a as [|d a].
    + rewrite (Hlast [] c eq_refl). done.
    + exact H1.
  - apply IH; [| done]. intros a' x ->. by apply (Hlast (c :: a') x).
Qed.

Lemma drop_while_suffix (p : N -> bool) (s : pystr) :
  exists a, s = a ++ drop_while p s.
Proof. exists (take_while p s). by rewrite take_drop_while. Qed.

Lemma isp_isspace (c : N) : isp c = true -> isspace c = true.
Proof. intros H. by destruct (isp_blank c H). Qed.

Lemma line_ends_with_strip (s : pystr) :
  line_ends_with isp s = false -> line_ends_with isp (strip s) = false.
Proof.
  intros H. unfold strip, lstrip.
  destruct (drop_while_suffix isspace (rstrip s)) as [a Ha].
  apply (line_ends_with_suffix isp a). rewrite <- Ha.
  destruct (rstrip_app s) as [w Hw].
  apply (line_ends_with_prefix isp (rstrip s) w); [| by rewrite <- Hw].
  intros a' x E. apply rstrip_last in E.
  destruct (isp x) eqn:Hx; [| done]. by rewrite (isp_isspace x Hx) in E.
Qed.

Lemma blank_ok_strip (s : pystr) :
  blank_ok 0 s = true -> blank_ok 0 (strip s) = true.
Proof.
  intros H. unfold strip. apply blank_ok_lstrip.
  destruct (rstrip_app s) as [w Hw]. apply (blank_ok_app_l _ w). by rewrite <- Hw.
Qed.

Lemma blank_ok_no_three (s : pystr) (n : nat) :
  blank_ok n s = true -> contains three_newlines s = false.
Proof.
  revert n. induction s as [|c s IH]; intros n H; [done |].
  cbn [contains]. apply orb_false_iff. split.
  - destruct s as [|d [|e s]]; cbn; rewrite ?andb_false_r; try done.
    cbn [blank_ok] in H. fold (isnl c). fold (isnl d). fold (isnl e).
    destruct (isnl c); [| done]. destruct (isnl d); [| done].
    destruct (isnl e); [| done].
    apply andb_true_iff in H as [_ H]. apply andb_true_iff in H as [_ H].
    apply andb_true_iff in H as [H _]. by apply Nat.ltb_lt in H; lia.
  - cbn [blank_ok] in H. destruct (isnl c).
    + apply andb_true_iff in H as [_ H]. by apply (IH (S n)).
    + destruct (isspace c); by eapply IH.
Qed.

Lemma drop_while_idem (p : N -> bool) (s : pystr) :
  drop_while p (drop_while p s) = drop_while p s.
Proof.
  induction s as [|c s IH]; [done |]. cbn [drop_while].
  destruct (p c) eqn:E; [done |]. cbn [drop_while]. by rewrite E.
Qed.

Lemma rstrip_keep (a : pystr) (x : N) :
  isspace x = false -> rstrip (a ++ [x]) = a ++ [x].
Proof.
  intros Hx. unfold rstrip. rewrite rev_unit. cbn [drop_while]. rewrite Hx.
  cbn [rev]. by rewrite rev_involutive.
Qed.

Lemma strip_stripped (s : pystr) : strip (strip s) = strip s.
Proof.
  unfold strip, lstrip. set (r := rstrip s). set (t := drop_while isspace r).
  assert (Hr : rstrip t = t).
  { destruct t as [|c0 t'] eqn:Et; [reflexivity |]. rewrite <- Et.
    destruct (exists_last (l := t)) as (t0 & x & Ex); [by rewrite Et |].
    destruct (drop_while_suffix isspace r) as [a Ea]. fold t in Ea.
    assert (Hx : isspace x = false).
    { apply (rstrip_last s (a ++ t0) x). fold r. rewrite Ea, Ex.
      by rewrite app_assoc. }
    rewrite Ex. by apply rstrip_keep. }
  rewrite Hr. unfold t. apply drop_while_idem.
Qed.

(** The three last steps of the converter, on any text. *)
Lemma tidy_text (s : pystr) :
  let md := strip (re_sub trailing_spaces [] (re_sub blank_lines nl2 s)) in
  contains three_newlines md = false /\ line_ends_with isp md = false.
Proof.
  intros md. split.
  - apply (blank_ok_no_three _ 0), blank_ok_strip.
    eapply trailing_spaces_blank_ok; [done |].
    eapply blank_lines_ok; [done |]. lia.
  - apply line_ends_with_strip. by eapply trailing_spaces_ok.
Qed.

(** ** Reading the heap *)


Lemma lookup_lt (h : heap) (i : nat) :
  i < length h -> exists c, h !! i = Some c /\ bs4.lookup h i = Ok c.
Proof.
  intros Hi. destruct (lookup_lt_is_Some_2 h i Hi) as [c Hc].
  exists c. split; [done |]. unfold bs4.lookup. by rewrite Hc.
Qed.

Lemma map_each_ok {A B} (f : A -> result B) (Q : A -> B -> Prop) (l : list A) :
  (forall a, In a l -> exists b, f a = Ok b /\ Q a b) ->
  exists bs, map_each f l = Ok bs /\ Forall2 Q l bs.
Proof.
  induction l as [|a l IH]; intros H.
  - exists []. by split.
  - destruct (H a (or_introl eq_refl)) as (b & Hb & HQ).
    destruct IH as (bs & Hbs & HQs); [intros x Hx; apply H; by right |].
    exists (b :: bs). cbn [map_each]. rewrite Hb. cbn [bind]. rewrite Hbs.
    split; [done | by constructor].
Qed.

Lemma refs_app (a b : list item) : refs (a ++ b) = refs a ++ refs b.
Proof. unfold refs. apply flat_map_app. Qed.

Lemma refs_In (l : list item) (j : nat) : In j (refs l) <-> In (IRef j) l.
Proof.
  unfold refs. rewrite in_flat_map. split.
  - intros (it & Hit & Hj). destruct it as [|k]; [done |].
    destruct Hj as [<- | []]. done.
  - intros H. exists (IRef j). split; [done | by left].
Qed.

Lemma In_concat_Forall2 {A B} (Q : A -> list B -> Prop) (l : list A) (subs : list (list B)) (x : B) :
  Forall2 Q l subs -> In x (concat subs) ->
  exists a sub, In a l /\ Q a sub /\ In x sub.
Proof.
  induction 1 as [|a sub l subs HQ _ IH]; [done |].
  cbn [concat]. rewrite in_app_iff. intros [Hx | Hx].
  - exists a, sub. split; [by left | done].
  - destruct (IH Hx) as (a' & sub' & Ha & HQ' & Hx'). exists a', sub'.
    split; [by right | done].
Qed.

(** With fuel for the cells from [i] to the end of the heap, the walk below
    [i] finishes, and it only meets cells after [i]. *)
Lemma descendants_ok (fuel : nat) :
  forall (h : heap) (i : nat),
    wf h -> i < length h -> length h - i <= fuel ->
    exists l, descendants fuel h i = Ok l /\
              forall j, In j (refs l) -> i < j < length h.
Proof.
  induction fuel as [|f IH]; intros h i Hwf Hi Hfuel; [lia |].
  destruct (lookup_lt h i Hi) as (c & Hc & Hl).
  cbn [descendants]. rewrite Hl. cbn [bind].
  destruct (map_each_ok
              (fun it => match it with
                         | IStr _ _ => Ok [it]
                         | IRef j => sub <- descendants f h j ;; Ok (it :: sub)
                         end)
              (fun it sub => forall j, In j (refs sub) -> i < j < length h)
              (contents c)) as (subs & Hsubs & HQ).
  { intros [v s | j] Hit.
    - exists [IStr v s]. split; [done |]. intros j []. 
    - assert (Hj : i < j < length h) by (apply (Hwf i c Hc), refs_In; done).
      destruct (IH h j Hwf) as (sub & Hsub & Href); [lia | lia |].
      exists (IRef j :: sub). rewrite Hsub. split; [done |].
      intros k [<- | Hk]; [done |]. specialize (Href k Hk). lia. }
  rewrite Hsubs. cbn [bind]. eexists. split; [done |].
  intros j Hj. apply refs_In in Hj.
  destruct (In_concat_Forall2 _ _ _ _ HQ Hj) as (a & sub & _ & Hsubj & Hin).
  apply Hsubj. by apply refs_In.
Qed.

Lemma string_ok (fuel : nat) :
  forall (h : heap) (i : nat),
    wf h -> i < length h -> length h - i <= fuel ->
    exists o, string fuel h i = Ok o.
Proof.
  induction fuel as [|f IH]; intros h i Hwf Hi Hfuel; [lia |].
  destruct (lookup_lt h i Hi) as (c & Hc & Hl).
  cbn [string]. rewrite Hl. cbn [bind].
  destruct (contents c) as [|[v s | j] [|it l]] eqn:E; try by eexists.
  assert (Hj : i < j < length h).
  { apply (Hwf i c Hc). rewrite E. by left. }
  apply IH; [done | lia | lia].
Qed.

Lemma find_all_ok (fuel : nat) (h : heap) (i : nat) :
  wf h -> i < length h -> length h - i <= fuel ->
  exists l, find_all fuel h i = Ok l /\ forall j, In j l -> i < j < length h.
Proof.
  intros Hwf Hi Hf. destruct (descendants_ok fuel h i Hwf Hi Hf) as (d & Hd & Hr).
  exists (refs d). unfold find_all. rewrite Hd. by split.
Qed.

Lemma find_ok (fuel : nat) (h : heap) (i : nat) (nm : pystr) :
  wf h -> i < length h -> length h - i <= fuel ->
  exists o, bs4.find fuel h i nm = Ok o /\
            forall j, o = Some j -> i < j < length h.
Proof.
  intros Hwf Hi Hf. destruct (descendants_ok fuel h i Hwf Hi Hf) as (d & Hd & Hr).
  unfold bs4.find. rewrite Hd. eexists. split; [done |].
  intros j Hj. apply head_filter_Some in Hj as [Hj _]. by apply Hr.
Qed.

Lemma get_text_ok (fuel : nat) (h : heap) (i : nat) (sep : pystr) :
  wf h -> i < length h -> length h - i <= fuel ->
  exists t, get_text fuel h i sep = Ok t.
Proof.
  intros Hwf Hi Hf. destruct (descendants_ok fuel h i Hwf Hi Hf) as (d & Hd & _).
  unfold get_text. rewrite Hd. by eexists.
Qed.

Lemma set_string_good (h0 h : heap) (i : nat) (s : pystr) :
  good h0 h -> good h0 (set_string h i s).
Proof.
  intros [Hwf Hlen]. unfold set_string. destruct (h !! i) as [c|] eqn:Hc; [| done].
  split; [| by rewrite length_insert].
  intros k ck Hk j Hj. rewrite length_insert.
  destruct (decide (i = k)) as [<- | Hne].
  - rewrite list_lookup_insert_eq in Hk by (by eapply lookup_lt_Some).
    injection Hk as <-. destruct Hj.
  - rewrite list_lookup_insert_ne in Hk by done. by apply (Hwf k ck).
Qed.


Lemma for_each_inv {A S} (I : S -> Prop) (f : S -> A -> result S) (l : list A) (s : S) :
  (forall s' a, In a l -> I s' -> exists s'', f s' a = Ok s'' /\ I s'') ->
  I s -> exists s', for_each f l s = Ok s' /\ I s'.
Proof.
  revert s. induction l as [|a l IH]; intros s Hstep Hs.
  - by exists s.
  - destruct (Hstep s a (or_introl eq_refl) Hs) as (s1 & E & H1).
    cbn [for_each]. rewrite E. cbn [bind]. apply IH; [| done].
    intros s' x Hx. apply Hstep. by right.
Qed.

(** *** Loading a tree *)

Lemma alloc_Tag (base : nat) (nm : pystr) (at_ : list (pystr * pystr)) (cs : list node) :
  alloc base (Tag nm at_ cs)
  = (IRef base, mkCell nm at_ (fst (alloc_list (S base) cs)) :: snd (alloc_list (S base) cs)).
Proof.
  cbn [alloc]. generalize (S base). intros b.
  assert (E : (fix go (b : nat) (l : list node) {struct l} : list item * list cell :=
                 match l with
                 | [] => ([], [])
                 | c :: l' =>
                     let '(it, cs1) := alloc b c in
                     let '(its, cs2) := go (b + length cs1) l' in
                     (it :: its, cs1 ++ cs2)
                 end) b cs = alloc_list b cs).
  { revert b. induction cs as [|c cs IH]; intros b; [done |].
    cbn [alloc_list]. destruct (alloc b c) as [it cs1]. by rewrite IH. }
  rewrite E. by destruct (alloc_list b cs).
Qed.

Lemma node_induction (P : node -> Prop) :
  (forall v s, P (NavigableString v s)) ->
  (forall nm at_ cs, Forall P cs -> P (Tag nm at_ cs)) ->
  forall n, P n.
Proof.
  intros Hs Ht. fix IH 1. intros [v s | nm at_ cs]; [apply Hs |].
  apply Ht. induction cs as [|c cs IHcs]; constructor; [apply IH | apply IHcs].
Qed.

Lemma alloc_list_in_block (l : list node) :
  Forall (fun n => forall base, in_block base ([fst (alloc base n)], snd (alloc base n))) l ->
  forall b, in_block b (alloc_list b l).
Proof.
  induction 1 as [|c l Hc _ IH]; intros b.
  - split; [intros j [] | intros k c Hk; by destruct k].
  - cbn [alloc_list]. specialize (Hc b). destruct (alloc b c) as [it cs1].
    specialize (IH (b + length cs1)).
    destruct (alloc_list (b + length cs1) l) as [its cs2].
    destruct Hc as [Hc1 Hc2], IH as [IH1 IH2]. cbn [fst snd] in *.
    split; cbn [fst snd].
    + intros j Hj. rewrite length_app.
      change (it :: its) with ([it] ++ its) in Hj. rewrite refs_app in Hj.
      apply in_app_iff in Hj as [Hj | Hj].
      * specialize (Hc1 j Hj). lia.
      * specialize (IH1 j Hj). lia.
    + intros k ck Hk j Hj. rewrite length_app.
      destruct (decide (k < length cs1)) as [Hlt | Hge].
      * rewrite lookup_app_l in Hk by done. specialize (Hc2 k ck Hk j Hj). lia.
      * rewrite lookup_app_r in Hk by lia. specialize (IH2 _ ck Hk j Hj). lia.
Qed.

Lemma alloc_in_block (n : node) (base : nat) :
  in_block base ([fst (alloc base n)], snd (alloc base n)).
Proof.
  revert base. induction n as [v s | nm at_ cs IH] using node_induction; intros base.
  - split; [intros j [] | intros k c Hk; by destruct k].
  - rewrite alloc_Tag. cbn [fst snd].
    destruct (alloc_list_in_block cs IH (S base)) as [H1 H2].
    split; cbn [fst snd].
    + intros j [<- | []]. cbn [length]. lia.
    + intros k c Hk j Hj. cbn [length]. destruct k as [|k].
      * injection Hk as <-. cbn [contents] in Hj. specialize (H1 j Hj). lia.
      * cbn in Hk. specialize (H2 k c Hk j Hj). lia.
Qed.

Lemma load_wf (contents : list node) : wf (load contents) /\ 0 < length (load contents).
Proof.
  unfold load. destruct (alloc_in_block (Tag document_name [] contents) 0) as [_ H].
  cbn [snd] in H. split.
  - intros i c Hi j Hj. specialize (H i c Hi j Hj). lia.
  - rewrite alloc_Tag. cbn. lia.
Qed.

(** *** The conversion finishes *)

Lemma enumerate1_snd {A} (l : list A) (x : nat * A) :
  In x (enumerate1 l) -> In (snd x) l.
Proof. destruct x as [i a]. unfold enumerate1. apply in_combine_r. Qed.

(** With fuel for the cells from [element] to the end of the heap,
    [_process_element] returns, and the heap stays well formed. *)
Lemma process_ok (fuel : nat) :
  forall (h0 h : heap) (element : nat),
    good h0 h -> element < length h0 -> length h0 - element < fuel ->
    exists h', _process_element fuel h element = Ok h' /\ good h0 h'.
Proof.
  induction fuel as [|f IH]; intros h0 h e Hgood He Hfuel; [lia |].
  pose proof Hgood as [Hwf Hlen].
  destruct (lookup_lt h e) as (c & Hc & Hl); [lia |].
  cbn [_process_element]. rewrite Hl. cbn [bind].
  assert (Hstr : exists o, string f h e = Ok o) by (apply string_ok; [done | lia | lia]).
  destruct Hstr as [o Ho].
  assert (Hkids : forall j, In j (refs (contents c)) -> e < j < length h0).
  { intros j Hj. rewrite <- Hlen. by apply (Hwf e c Hc). }
  assert (Hli : forall (nm : pystr) li,
            In li (List.filter (has_name h nm) (refs (contents c))) ->
            exists t, (t <- get_text f h li [] ;; Ok (strip t)) = Ok t).
  { intros nm li Hin. apply filter_In in Hin as [Hin _]. apply Hkids in Hin.
    destruct (get_text_ok f h li []) as [t Ht]; [done | lia | lia |].
    rewrite Ht. by eexists. }
  match goal with
  | |- exists h', bind ?R _ = Ok h' /\ _ =>
      assert (Hrule : exists h1, R = Ok h1 /\ good h0 h1)
  end.
  { repeat match goal with
           | |- context [if str_eqb ?a ?b then _ else _] => destruct (str_eqb a b)
           end;
      try (rewrite Ho; cbn [bind]; eexists; split; [reflexivity |];
           by apply set_string_good);
      try (eexists; split; [reflexivity |]; by apply set_string_good);
      try (by exists h).
    - (* p *)
      rewrite Ho. cbn [bind].
      assert (Hloop : exists r,
                for_each
                  (fun (st : heap * list pystr) child =>
                     match child with
                     | IStr _ x => Ok (fst st, snd st ++ [strip x])
                     | IRef j =>
                         h' <- _process_element f (fst st) j ;;
                         t <- get_text f h' j [] ;; Ok (h', snd st ++ [t])
                     end) (contents c) (h, []) = Ok r /\ good h0 (fst r)).
      { apply (for_each_inv (fun st => good h0 (fst st))); [| done].
        intros st [v x | j] Hin Hst.
        - by eexists.
        - assert (Hj : e < j < length h0) by (by apply Hkids, refs_In).
          destruct (IH h0 (fst st) j Hst) as (h' & Hp & Hg); [lia | lia |].
          rewrite Hp. cbn [bind]. destruct Hg as [Hwf' Hlen'].
          destruct (get_text_ok f h' j []) as [t Ht]; [done | lia | lia |].
          rewrite Ht. cbn [bind]. by eexists. }
      destruct Hloop as (r & Hr & Hg).
      destruct o as [[|x t]|]; try (rewrite Hr; cbn [bind]);
        eexists; (split; [reflexivity |]); by apply set_string_good.
    - (* figure *)
      destruct (find_ok f h e (u "img")) as (oi & Hoi & Hi); [done | lia | lia |].
      rewrite Hoi. cbn [bind]. destruct oi as [i|]; [| by exists h].
      destruct (lookup_lt h i) as (ci & _ & Hli'); [specialize (Hi i eq_refl); lia |].
      rewrite Hli'. cbn [bind].
      destruct (find_ok f h e (u "figcaption")) as (ofc & Hofc & Hfc); [done | lia | lia |].
      rewrite Hofc. cbn [bind]. destruct ofc as [fc|].
      + destruct (string_ok f h fc) as [s Hs];
          [done | specialize (Hfc fc eq_refl); lia | specialize (Hfc fc eq_refl); lia |].
        rewrite Hs. cbn [bind]. eexists. split; [reflexivity |]. by apply set_string_good.
      + cbn [bind]. eexists. split; [reflexivity |]. by apply set_string_good.
    - (* ul *)
      unfold find_all_children. rewrite Hl. cbn [bind].
      destruct (map_each_ok
                  (fun li => t <- (t <- get_text f h li [] ;; Ok (strip t)) ;; Ok (u "- " ++ t))
                  (fun _ _ => True)
                  (List.filter (has_name h (u "li")) (refs (contents c))))
        as (items & Hitems & _).
      { intros li Hin. destruct (Hli _ _ Hin) as [t Ht]. rewrite Ht. by eexists. }
      rewrite Hitems. cbn [bind]. eexists. split; [reflexivity |]. by apply set_string_good.
    - (* ol *)
      unfold find_all_children. rewrite Hl. cbn [bind].
      destruct (map_each_ok
                  (fun il : nat * nat =>
                     t <- (t <- get_text f h (snd il) [] ;; Ok (strip t)) ;;
                     Ok (decimal (fst il) ++ u ". " ++ t))
                  (fun _ _ => True)
                  (enumerate1 (List.filter (has_name h (u "li")) (refs (contents c)))))
        as (items & Hitems & _).
      { intros il Hin. apply enumerate1_snd in Hin.
        destruct (Hli _ _ Hin) as [t Ht]. rewrite Ht. by eexists. }
      rewrite Hitems. cbn [bind]. eexists. split; [reflexivity |]. by apply set_string_good. }
  destruct Hrule as (h1 & Hh1 & Hg1). rewrite Hh1. cbn [bind].
  pose proof Hg1 as [Hwf1 Hlen1].
  destruct (find_all_ok f h1 e) as (found & Hfound & Hafter); [done | lia | lia |].
  rewrite Hfound. cbn [bind].
  apply (for_each_inv (good h0)); [| done].
  intros h' j Hj Hg'. specialize (Hafter j Hj). apply IH; [done | lia | lia].
Qed.

(** ** Markup Converter *)

Lemma html_to_markdown_raises (ext : Externals) (c : N) (t : pystr) (e : exn) :
  BeautifulSoup ext (c :: t) = Raise e -> html_to_markdown ext (c :: t) = Raise e.
Proof. intros H. unfold html_to_markdown. by rewrite H. Qed.

(** Once the parser has accepted the markup, the converter returns: the
    text of the soup after the conversion, tidied. *)
Lemma html_to_markdown_parsed (ext : Externals) (html_content : pystr)
    (contents : list node) :
  BeautifulSoup ext html_content = Ok contents ->
  exists text, html_to_markdown ext html_content = Ok (tidy text).
Proof.
  intros Hsoup. unfold html_to_markdown.
  destruct html_content as [|c t]; [by exists [] |]. rewrite Hsoup. cbn [bind].
  set (soup := load contents).
  destruct (load_wf contents) as [Hwf Hpos]. fold soup in Hwf, Hpos.
  destruct (process_ok (S (length soup)) soup soup 0) as (h' & Hp & Hwf' & Hlen');
    [done | lia | lia |].
  rewrite Hp. cbn [bind].
  destruct (get_text_ok (S (length soup)) h' 0 [c_nl]) as [text Ht]; [done | lia | lia |].
  rewrite Ht. cbn [bind]. by exists text.
Qed.



(** The converter on small fragments: a list, a heading with mixed
    content, and a heading inside another element, which is processed once
    for each list that holds it. *)
Example list_rendered (ext : Externals) :
  html_to_markdown ext (u "<ul><li>A</li><li>B</li></ul>") = Ok (u "- A" ++ [c_nl] ++ u "- B").
Proof. by vm_compute. Qed.

Example mixed_heading_rendered (ext : Externals) :
  html_to_markdown ext (u "<h1>Hello <b>World</b></h1>") = Ok (u "# None").
Proof. by vm_compute. Qed.

Example nested_heading_rendered (ext : Externals) :
  html_to_markdown ext (u "<div><h1>T</h1></div>") = Ok (u "# # T").
Proof. by vm_compute. Qed.

(** C10 as stated fails: the content of this heading is an element and not a
    text node, and yet [.string] reaches the text inside. *)
Lemma heading_with_one_inline_child :
  parse_simple wrapped_heading
  = Some [Tag (u "h1") [] [Tag (u "b") [] [NavigableString true (u "Title")]]] /\
  (forall ext, html_to_markdown ext wrapped_heading = Ok (u "# Title")).
Proof. split; [| intros ext]; by vm_compute. Qed.

Ltac eval_str_eqb :=
  repeat match goal with
  | |- context [str_eqb (u ?a) (u ?b)] =>
      let r := eval vm_compute in (str_eqb (u a) (u b)) in
      change (str_eqb (u a) (u b)) with r
  end; cbv iota.

(** C10, amended. A heading gets the marks, a space and its [.string] as
    its only content, the word [None] when the [.string] is [None].  The
    [.string] is [None] for a heading without a child or with several
    children, it is the text when the only child is a text, and it is the
    [.string] of the only child when that is an element. *)
Theorem heading_rendered_with_string (f : nat) (h : heap) (element : nat) (c : cell)
    (marks : pystr) :
  h !! element = Some c ->
  In (name c, marks) headings ->
  (forall s, string (S f) h element = Ok s ->
     _process_element (S (S f)) h element
     = Ok (<[element := mkCell (name c) (attrs c)
                          [IStr true (marks ++ u " "
                                      ++ match s with
                                         | Some text => text
                                         | None => u "None"
                                         end ++ nl2)]]> h)) /\
  string (S f) h element
  = match contents c with
    | [IStr _ text] => Ok (Some text)
    | [IRef child] => string f h child
    | _ => Ok None
    end.
Proof.
  intros Hc Hin.
  assert (Hl : bs4.lookup h element = Ok c) by (unfold bs4.lookup; by rewrite Hc).
  split; [| cbn [string]; by rewrite Hl].
  intros s Hs.
  assert (He : element < length h) by (by eapply lookup_lt_Some).
  assert (Hafter : forall s,
            (found <- find_all (S f) (set_string h element s) element ;;
             for_each (fun h child => _process_element (S f) h child) found
                      (set_string h element s))
            = Ok (<[element := mkCell (name c) (attrs c) [IStr true s]]> h)).
  { intros s'. unfold set_string. rewrite Hc. unfold find_all. cbn [descendants].
    unfold bs4.lookup. rewrite list_lookup_insert_eq by done. reflexivity. }
  remember (S f) as g eqn:Hg.
  cbn [_process_element]. rewrite Hl. cbn [bind]. rewrite Hs. cbn [bind].
  change (match s with Some text => text | None => u "None" end) with (fmt s).
  unfold headings in Hin.
  repeat (destruct Hin as [[= Hn <-] | Hin];
          [rewrite <- Hn in Hafter |- *; eval_str_eqb; cbn [bind]; apply Hafter |]).
  destruct Hin.
Qed.

Lemma heading_rendered_with_string_witness :
  _process_element 3 mixed_heading 1
  = Ok [mkCell document_name [] [IRef 1];
        mkCell (u "h2") [] [IStr true (u "## None" ++ nl2)];
        mkCell (u "b") [] [IStr true (u "World")]] /\
  _process_element 4 wrapped_heading_tree 1
  = Ok [mkCell document_name [] [IRef 1];
        mkCell (u "h1") [] [IStr true (u "# Title" ++ nl2)];
        mkCell (u "b") [] [IStr true (u "Title")]].
Proof.
  split.
  - apply (proj1 (heading_rendered_with_string 1 mixed_heading 1
                    (mkCell (u "h2") [] [IStr true (u "Hello "); IRef 2]) (u "##")
                    eq_refl (or_intror (or_introl eq_refl))) None).
    reflexivity.
  - apply (proj1 (heading_rendered_with_string 2 wrapped_heading_tree 1
                    (mkCell (u "h1") [] [IRef 2]) (u "#")
                    eq_refl (or_introl eq_refl)) (Some (u "Title"))).
    reflexivity.
Defined.

(** * The rest of the program *)

(** ** Bare tag names *)

Lemma split_no_sep (c : N) (t : pystr) :
  Forall (fun w => has_char c w = false) (split c t).
Proof.
  induction t as [|a t IH]; [by repeat constructor |].
  cbn [split]. destruct (a =? c)%N eqn:Ea.
  - by constructor.
  - inversion IH as [|w ws Hw Hws E]; subst.
    + constructor; [| done]. cbn. rewrite N.eqb_sym. by rewrite Ea.
    + constructor; [| done]. cbn [has_char existsb]. rewrite N.eqb_sym, Ea. exact Hw.
Qed.

Lemma split_not_nil (c : N) (t : pystr) : split c t <> [].
Proof.
  destruct t as [|a t]; [done |]. cbn [split].
  destruct (a =? c)%N; [done |]. by destruct (split c t).
Qed.

Lemma last_Forall {A} (P : A -> Prop) (l : list A) (d : A) :
  l <> [] -> Forall P l -> P (List.last l d).
Proof.
  intros Hne H. induction H as [|x l Hx Hl IH]; [done |].
  destruct l as [|y l]; [done |]. apply IH. done.
Qed.

(** X1. The bare name of a tag holds no closing brace, it is the tag itself
    or what stands behind its last closing brace, and taking the bare name
    a second time changes nothing. *)
Theorem cleanup_tag_name_bare (tag : pystr) :
  has_char (ch "}") (_cleanup_tag_name tag) = false /\
  (_cleanup_tag_name tag = tag \/
   exists prefix, tag = prefix ++ ch "}" :: _cleanup_tag_name tag) /\
  _cleanup_tag_name (_cleanup_tag_name tag) = _cleanup_tag_name tag.
Proof.
  assert (H1 : has_char (ch "}") (_cleanup_tag_name tag) = false).
  { unfold _cleanup_tag_name. destruct (has_char (ch "}") tag) eqn:Hc; [| done].
    apply (last_Forall (fun w => has_char (ch "}") w = false)).
    - apply split_not_nil.
    - apply split_no_sep. }
  split; [done |]. split.
  - unfold _cleanup_tag_name. destruct (has_char (ch "}") tag) eqn:Hc; [| by left].
    right. by destruct (split_with _ _ Hc) as [[pre E] _]; exists pre.
  - unfold _cleanup_tag_name at 1. by rewrite H1.
Qed.

(** ** Structure listing *)

Lemma element_induction (P : ET.Element -> Prop) :
  (forall tg at_ tx cs, Forall P cs -> P (ET.mkElement tg at_ tx cs)) ->
  forall e, P e.
Proof.
  intros H. fix IH 1. intros [tg at_ tx cs]. apply H.
  induction cs as [|c cs IHcs]; constructor; [apply IH | apply IHcs].
Qed.

Lemma get_structure_level (e : ET.Element) :
  forall level, get_structure_of e level = get_structure_of e 0.
Proof.
  induction e as [tg at_ tx cs IH] using element_induction. intros level.
  cbn [get_structure_of]. f_equal.
  induction IH as [|c cs Hc _ IHcs]; [done |]. cbn [map]. f_equal; [| done].
  by rewrite (Hc (S level)), (Hc 1).
Qed.

Lemma flatten_get_structure (e : ET.Element) :
  forall level, flatten (get_structure_of e level) = map entry (ET.iter e).
Proof.
  induction e as [tg at_ tx cs IH] using element_induction. intros level.
  cbn [get_structure_of flatten ET.iter map]. f_equal.
  generalize (S level). intros l.
  induction IH as [|c cs Hc _ IHcs]; [done |].
  cbn [map flat_map]. rewrite map_app. by rewrite Hc, IHcs.
Qed.

(** X2. [get_structure] lists every element of the tree once, in document
    order, with its tag, its attributes and its stripped text; the level
    has no effect on the result; without an element it takes the root, and
    it raises when there is neither. *)
Theorem get_structure_mirrors (root : option ET.Element) (element : ET.Element)
    (level : nat) :
  exists s,
    get_structure root (Some element) level = Ok s /\
    get_structure (Some element) None level = Ok s /\
    get_structure root (Some element) 0 = Ok s /\
    flatten s = map entry (ET.iter element) /\
    get_structure None None level = Raise AttributeError.
Proof.
  exists (get_structure_of element level). repeat split.
  - unfold get_structure. by rewrite (get_structure_level element level).
  - apply flatten_get_structure.
Qed.

Lemma indent_spaces (level : nat) : indent level = replicate (2 * level) c_space.
Proof.
  unfold indent. induction level as [|l IH]; [done |].
  cbn [replicate concat]. rewrite IH.
  replace (2 * S l) with (S (S (2 * l))) by lia. reflexivity.
Qed.

Lemma startswith_app (p s : pystr) : startswith p (p ++ s) = true.
Proof. induction p as [|a p IH]; [done |]. simpl. by rewrite N.eqb_refl, IH. Qed.

Lemma startswith_replicate_cons (n : nat) (c : N) (s : pystr) :
  startswith (replicate n c) s = true -> startswith (replicate n c) (c :: s) = true.
Proof.
  revert s. induction n as [|n IH]; intros s; [done |].
  destruct s as [|c' s]; [done |]. cbn [replicate startswith].
  intros [E H]%andb_true_iff. apply N.eqb_eq in E. subst c'.
  rewrite N.eqb_refl. cbn [andb]. by apply IH.
Qed.

Lemma startswith_indent (level : nat) (s : pystr) :
  startswith (indent level) s = true -> startswith (indent level) (u "  " ++ s) = true.
Proof.
  rewrite indent_spaces. intros H.
  change (u "  " ++ s) with (c_space :: c_space :: s).
  by do 2 apply startswith_replicate_cons.
Qed.

Lemma indent_S (level : nat) : indent (S level) = u "  " ++ indent level.
Proof. reflexivity. Qed.

Lemma print_structure_facts (str_attrib : list (pystr * pystr) -> pystr) (e : ET.Element) :
  forall level,
    Forall (fun l => startswith (indent level) l = true)
           (print_structure_of str_attrib e level) /\
    (length (ET.iter e) <= length (print_structure_of str_attrib e level)
                        <= 2 * length (ET.iter e)).
Proof.
  induction e as [tg at_ tx cs IH] using element_induction. intros level.
  cbn [print_structure_of ET.iter].
  set (text_line := match tx with
                    | Some (c :: t) =>
                        if nonempty (strip (c :: t))
                        then [indent level ++ u "  text: " ++ take 100 (strip (c :: t)) ++ u "..."]
                        else []
                    | _ => []
                    end).
  assert (Ht : Forall (fun l => startswith (indent level) l = true) text_line
               /\ length text_line <= 1).
  { unfold text_line. destruct tx as [[|c t]|];
      [split; [constructor | simpl; lia] | | split; [constructor | simpl; lia]].
    destruct (nonempty _); [| split; [constructor | simpl; lia]].
    split; [| simpl; lia].
    constructor; [| constructor]. apply startswith_app. }
  destruct Ht as [Ht1 Ht2].
  assert (Hk : Forall (fun l => startswith (indent level) l = true)
                 (flat_map (fun child => print_structure_of str_attrib child (S level)) cs)
               /\ (length (flat_map ET.iter cs)
                   <= length (flat_map (fun child => print_structure_of str_attrib child (S level)) cs)
                   <= 2 * length (flat_map ET.iter cs))).
  { induction IH as [|c cs Hc _ IHcs]; [split; [constructor | simpl; lia] |].
    destruct IHcs as [I1 I2]. destruct (Hc (S level)) as [C1 C2].
    cbn [flat_map]. rewrite !length_app. split; [| lia].
    apply Forall_app. split; [| done].
    revert C1. apply List.Forall_impl. intros l Hl.
    rewrite indent_S in Hl. clear -Hl.
    rewrite indent_spaces in *. change (u "  " ++ replicate (2 * level) c_space)
      with (replicate 2 c_space ++ replicate (2 * level) c_space) in Hl.
    rewrite <- replicate_add in Hl. revert l Hl.
    generalize (2 * level). intros n. induction n as [|n IHn]; intros l Hl; [done |].
    destruct l as [|x l]; [by destruct n |]. 
    replace (2 + S n) with (S (2 + n)) in Hl by lia. cbn [replicate startswith] in *.
    apply andb_true_iff in Hl as [-> Hl]. by apply IHn. }
  destruct Hk as [Hk1 Hk2]. split.
  - constructor; [apply startswith_app |]. apply Forall_app. by split.
  - change (?x :: ?l) with ([x] ++ l). rewrite !length_app.
    change (length [?x]) with 1. clearbody text_line. unfold pystr in *. simpl length. lia.
Qed.

(** X3. [print_structure] calls [print] once or twice for each element of
    the tree, first with the bare name and the attributes of the element
    it was called on, and every string that it prints starts with the
    indentation of the level it was called with.  (A string is printed as
    it is: a text of several lines is printed on several lines.) *)
Theorem print_structure_lines (str_attrib : list (pystr * pystr) -> pystr)
    (root : option ET.Element) (element : ET.Element) (level : nat) :
  exists out,
    print_structure str_attrib root (Some element) level = Ok out /\
    head out = Some (indent level ++ _cleanup_tag_name (ET.tag element) ++ u ": "
                     ++ str_attrib (ET.attrib element)) /\
    Forall (fun l => startswith (indent level) l = true) out /\
    (length (ET.iter element) <= length out <= 2 * length (ET.iter element)).
Proof.
  exists (print_structure_of str_attrib element level).
  split; [done |]. split; [by destruct element |].
  apply print_structure_facts.
Qed.

(** ** Searching for the articles *)

Lemma findall_from_tag_name (v : pystr) :
  tag_name v = true -> ElementPath.findall_from 0 v = [([], v)].
Proof.
  intros Hv. pose proof (token_at_tag_name v Hv) as Ht.
  destruct v as [|c r]; [done |]. simpl ElementPath.findall_from.
  rewrite Ht. simpl. by rewrite findall_from_skip.
Qed.

Lemma iterfind_descendants (e : ET.Element) (path tg : pystr) :
  endswith (u "/") path = false -> startswith (u "/") path = false ->
  ElementPath.compile ElementPath.AtOp (ElementPath.xpath_tokenizer path)
  = Ok [ElementPath.SelSelf; ElementPath.SelDescendant tg] ->
  (forall t, (if str_eqb tg (u "*") then true else ElementPath.tag_test tg t)
             = str_eqb t tg) ->
  ElementPath.iterfind e path
  = Ok (List.filter (fun c => str_eqb (ET.tag c) tg) (ET.descendants e)).
Proof.
  intros H2 H3 H4 H5. unfold ElementPath.iterfind. rewrite H2, H3, H4. simpl.
  rewrite app_nil_r. f_equal. by apply filter_ext_eq.
Qed.

(** [findall] with [.//] and a tag name: the proper descendants with that
    tag, in document order. *)
Lemma findall_tag_name (e : ET.Element) (v : pystr) :
  tag_name v = true ->
  ET_find.findall e (u ".//" ++ v)
  = Ok (List.filter (fun c => str_eqb (ET.tag c) v) (ET.descendants e)).
Proof.
  intros Hv. unfold ET_find.findall.
  change (ET_find.checkpath (u ".//" ++ v)) with true. cbv iota.
  destruct (tag_name_last v Hv) as (v0 & x & E & Hx).
  apply iterfind_descendants.
  - rewrite E, !app_assoc. norm_lits. rewrite endswith_last. by path_free_cmp Hx.
  - reflexivity.
  - unfold ElementPath.xpath_tokenizer.
    rewrite findall_dot_slash_slash, (findall_from_tag_name v Hv).
    destruct v as [|c r]; [done |].
    apply andb_true_iff in Hv as [_ Hall]. cbn [map].
    rewrite (tag_name_no_colon _ Hall), andb_false_r. reflexivity.
  - intros t.
    assert (H0 : str_eqb v (u "*") = false).
    { apply str_eqb_neq. intros ->. discriminate Hv. }
    rewrite H0. by apply tag_test_tag_name.
Qed.

(** X4. For a tag name, [find_articles] returns the proper descendants of
    the root that carry exactly that tag, in document order: never the root
    itself, and an article inside an article as well.  The root is the one
    the parser holds, or the one it reads when it holds none. *)
Theorem find_articles_descendants (ET_parse : pystr -> ET.Element + Program.io_error)
    (self : Program.parser) (r : ET.Element) (article_tag : pystr) (w : Program.world) :
  tag_name article_tag = true ->
  Program.root self = Some r \/
  (Program.root self = None /\ ET_parse (Program.xml_path self) = inl r) ->
  Program.find_articles ET_parse self article_tag w
  = (w, Program.Returned
          (Program.mkParser (Program.xml_path self) (Some r),
           List.filter (fun d => str_eqb (ET.tag d) article_tag) (ET.descendants r))).
Proof.
  intros Hv Hroot. unfold Program.find_articles, Program.mbind.
  destruct self as [path root]. cbn [Program.root Program.xml_path] in *.
  destruct Hroot as [-> | [-> Hp]].
  - unfold Program.ret. cbn [snd fst]. rewrite (findall_tag_name r _ Hv). reflexivity.
  - unfold Program.parse. cbn [Program.xml_path]. rewrite Hp.
    unfold Program.ret. cbn [snd fst]. rewrite (findall_tag_name r _ Hv). reflexivity.
Qed.

Lemma find_articles_descendants_witness :
  Program.find_articles (fun _ => inr Program.OSError)
    (Program.mkParser (u "feed.xml") (Some small_channel)) (u "item")
    (Program.mkWorld [] [])
  = (Program.mkWorld [] [],
     Program.Returned
       (Program.mkParser (u "feed.xml") (Some small_channel),
        [ET.mkElement (u "item") [] None
           [ET.mkElement (u "title") [] (Some (u "A")) []];
         ET.mkElement (u "item") [] (Some (u "  ")) []])).
Proof.
  exact (find_articles_descendants (fun _ => inr Program.OSError)
           (Program.mkParser (u "feed.xml") (Some small_channel)) small_channel
           (u "item") (Program.mkWorld [] []) eq_refl (or_introl eq_refl)).
Defined.

(** X5. With the empty string for a tag, the path ends with a slash and is
    completed by a star: [find_articles] returns every proper descendant of
    the root. *)
Theorem find_articles_empty_tag (ET_parse : pystr -> ET.Element + Program.io_error)
    (xml_path : pystr) (r : ET.Element) (w : Program.world) :
  Program.find_articles ET_parse (Program.mkParser xml_path (Some r)) [] w
  = (w, Program.Returned (Program.mkParser xml_path (Some r), ET.descendants r)).
Proof.
  unfold Program.find_articles, Program.mbind, Program.ret. cbn [Program.root snd fst].
  assert (E : ET_find.findall r (u ".//" ++ []) = Ok (ET.descendants r)).
  { unfold ET_find.findall. change (ET_find.checkpath (u ".//" ++ [])) with true.
    cbv iota. unfold ElementPath.iterfind.
    change (endswith (u "/") (u ".//" ++ [])) with true. cbv iota.
    change (startswith (u "/") ((u ".//" ++ []) ++ u "*")) with false. cbv iota.
    change (ElementPath.compile ElementPath.AtOp
              (ElementPath.xpath_tokenizer ((u ".//" ++ []) ++ u "*")))
      with (Ok [ElementPath.SelSelf; ElementPath.SelDescendant (u "*")]).
    cbn [bind for_each ElementPath.select flat_map].
    rewrite app_nil_r. f_equal.
    rewrite (filter_ext_eq _ (fun _ => true)); [| reflexivity].
    induction (ET.descendants r) as [|d l IH]; [done |]. simpl. by rewrite IH. }
  rewrite E. reflexivity.
Qed.

(** ** Field Resolver on parsed documents *)

Lemma first_descendant_literal (e : ET.Element) (lit v : pystr) :
  literal_prefix lit -> single_braced e -> first_descendant e (lit ++ v) = None.
Proof.
  intros Hlit He. apply head_filter_None. intros d Hd.
  apply str_eqb_neq. intros E. specialize (He d Hd). rewrite E in He.
  destruct Hlit as [-> | ->]; discriminate He.
Qed.

Lemma find_element_children (e : ET.Element) (vs : list pystr) :
  Forall (fun v => tag_name v = true) vs -> single_braced e ->
  _find_element_by_tag_variants e vs = Ok (first_of_children e vs).
Proof.
  intros Hvs He. induction Hvs as [|v vs Hv _ IH]; [done |].
  rewrite (find_element_step e v vs Hv).
  rewrite (first_descendant_literal e (u "{{{*}}}:") v (or_introl eq_refl) He).
  rewrite (first_descendant_literal e (u "{{{*}}}") v (or_intror eq_refl) He).
  cbn [first_of_children or_else]. rewrite IH.
  by destruct (first_child e v).
Qed.

(** X6. For variants that are tag names (not empty, no character of the
    path syntax, no whitespace, no leading dot), below a node of which no
    descendant has a tag that starts with two opening braces (no name of a
    namespace begins with a brace), the two lookups with the brace
    patterns never find anything: the resolver returns the first immediate
    child that carries a variant, the variants taken in order, and the text
    resolver its stripped text. *)
Theorem find_element_children_only (element : ET.Element) (tag_variants : list pystr) :
  Forall (fun v => tag_name v = true) tag_variants ->
  single_braced element ->
  _find_element_by_tag_variants element tag_variants
  = Ok (first_of_children element tag_variants) /\
  _find_text_by_tag_variants element tag_variants
  = Ok (opt_text (first_of_children element tag_variants)).
Proof.
  intros Hvs He. pose proof (find_element_children element tag_variants Hvs He) as E.
  split; [done |]. unfold _find_text_by_tag_variants, opt_text. rewrite E. cbn [bind].
  by destruct (text_of _).
Qed.

Lemma find_element_children_only_witness :
  _find_element_by_tag_variants namespaced_title_item [u "title"; u "link"] = Ok None /\
  _find_text_by_tag_variants deep_title_item [u "title"; u "link"]
  = Ok (u "http://example.org/1").
Proof.
  split.
  - refine (proj1 (find_element_children_only namespaced_title_item
                     [u "title"; u "link"] _ _)).
    + by repeat constructor.
    + intros d Hd. vm_compute in Hd. by destruct Hd as [<- | []].
  - refine (proj2 (find_element_children_only deep_title_item
                     [u "title"; u "link"] _ _)).
    + by repeat constructor.
    + intros d Hd. vm_compute in Hd. by destruct Hd as [<- | [<- | [<- | []]]].
Defined.

(** ** Record Extractor: plain children and the shadowed map *)

Lemma wp_only_canonical (f : pystr) : In f wp_only_fields -> In f canonical_fields.
Proof.
  intros H. repeat (destruct H as [<- | H]; [vm_compute; tauto |]). destruct H.
Qed.

Lemma wp_only_base_value (f : pystr) t l g cr co :
  In f wp_only_fields -> base_value t l g cr co f = [].
Proof.
  intros H. repeat (destruct H as [<- | H]; [reflexivity |]). destruct H.
Qed.

(** X7. A field other than title, link, guid, creator and content is filled
    from a flagged child only: when no flagged child bears its name, it
    stays empty, whatever plain children such as [pubDate] or
    [description] the item has. *)
Theorem extract_ignores_plain_children (article : ET.Element) :
  (forall c, In c (ET.children article) -> shadowing c = false) ->
  exists r,
    extract_article_content article = Ok r /\
    forall f, In f wp_only_fields -> last_flagged article f = None ->
      dict_get r f = Some (VStr []).
Proof.
  intros Hno. destruct (extract_total article Hno) as (r & m & Hr & _).
  exists r. split; [done |]. intros f Hf Hlast.
  rewrite extract_unfold in Hr.
  assert (Hnk : ~ In f (keys (collect_wp_elements article))).
  { apply dict_get_None_keys. by rewrite collect_wp_elements_spec. }
  assert (Hne : f <> other_metadata).
  { intros ->. apply other_not_canonical. by apply wp_only_canonical. }
  rewrite (merge_all_untouched _ _ _ f Hr Hnk Hne).
  unfold base_content. rewrite base_of_canonical by (by apply wp_only_canonical).
  by rewrite wp_only_base_value.
Qed.

Lemma extract_ignores_plain_children_witness :
  exists r,
    extract_article_content rss_item = Ok r /\
    dict_get r (u "pubDate") = Some (VStr []) /\
    dict_get r (u "description") = Some (VStr []).
Proof.
  assert (Hno : forall c, In c (ET.children rss_item) -> shadowing c = false).
  { intros c Hc. vm_compute in Hc.
    by destruct Hc as [<- | [<- | [<- | [<- | []]]]]. }
  destruct (extract_ignores_plain_children rss_item Hno) as (r & Hr & Hf).
  exists r. split; [done |]. split; apply Hf; vm_compute; tauto.
Defined.

Lemma for_each_app {A S} (f : S -> A -> result S) (l1 l2 : list A) (s : S) :
  for_each f (l1 ++ l2) s = (s' <- for_each f l1 s ;; for_each f l2 s').
Proof.
  revert s. induction l1 as [|a l1 IH]; intros s; [done |].
  cbn [app for_each]. destruct (f s a) as [s1 | e]; cbn [bind]; [apply IH | done].
Qed.

Lemma is_field_In (k : pystr) : is_field k = true <-> In k canonical_fields.
Proof.
  unfold is_field. rewrite existsb_exists. split.
  - intros (x & Hx & E). apply str_eqb_eq in E. by subst.
  - intros H. exists k. split; [done | apply str_eqb_refl].
Qed.

(** The last loop once the map has been replaced by a string: a key that is
    a field is stored, the first key that is none raises. *)
Lemma merge_shadowed (v : pystr) (l : list (pystr * pystr)) :
  forall d : dict,
    shaped d -> dict_get d other_metadata = Some (VStr v) ->
    ~ In other_metadata (keys l) ->
    if forallb is_field (keys l)
    then exists r, for_each merge_wp l d = Ok r /\ shaped r /\
                   dict_get r other_metadata = Some (VStr v)
    else for_each merge_wp l d = Raise TypeError.
Proof.
  induction l as [|[k x] l IH]; intros d Hd Hom Hnot.
  - cbn. by exists d.
  - cbn [keys map fst forallb for_each]. cbn [keys map fst] in Hnot.
    assert (Hk : k <> other_metadata) by (intros ->; apply Hnot; by left).
    assert (Hl : ~ In other_metadata (keys l)) by (intros H; apply Hnot; by right).
    destruct (is_field k) eqn:Hf; cbn [andb].
    + apply is_field_In in Hf.
      assert (Hmem : dict_mem d k = true).
      { apply dict_mem_keys. destruct Hd as [-> _]. apply keys_empty_content. by left. }
      assert (Hstep : merge_wp d (k, x) = Ok (dict_set d k (VStr x))).
      { unfold merge_wp. by rewrite Hmem. }
      rewrite Hstep. cbn [bind]. apply IH; [| | done].
      * by apply (merge_wp_shaped d _ k x Hd).
      * rewrite dict_get_set_ne; done.
    + assert (Hmem : dict_mem d k = false).
      { apply not_true_iff_false. intros H%dict_mem_keys.
        destruct Hd as [Hkeys _]. rewrite Hkeys in H.
        apply keys_empty_content in H as [H | H]; [| done].
        apply is_field_In in H. congruence. }
      unfold merge_wp at 1. rewrite Hmem. unfold getitem.
      change (u "other_metadata") with other_metadata. rewrite Hom. cbn [bind].
      by destruct (forallb is_field (keys l)).
Qed.

Lemma header_fields_canonical (f : pystr) : In f header_fields -> In f canonical_fields.
Proof.
  intros H. repeat (destruct H as [<- | H]; [vm_compute; tauto |]). destruct H.
Qed.

Lemma safe_value_string (s : pystr) : exists t, safe_value (VStr s) = Ok t.
Proof.
  destruct s as [|c s]; [by eexists |]. unfold safe_value.
  destruct (_ || _); by eexists.
Qed.

Lemma header_lines_ok (d : dict) :
  shaped d ->
  exists basic,
    map_each (fun key => v <- getitem d key ;; header_line key v) header_fields = Ok basic.
Proof.
  intros [_ Hd].
  destruct (map_each_ok (fun key => v <- getitem d key ;; header_line key v)
              (fun _ _ => True) header_fields) as (basic & Hb & _); [| by exists basic].
  intros key Hkey. destruct (Hd key (header_fields_canonical key Hkey)) as [s Hs].
  unfold getitem. rewrite Hs. cbn [bind]. unfold header_line.
  destruct (safe_value_string s) as [t ->]. cbn [bind]. by eexists.
Qed.

(** The writer on a record whose map has been replaced by a string. *)
Lemma format_shadowed (d : dict) (v : pystr) :
  shaped d -> dict_get d other_metadata = Some (VStr v) ->
  _format_as_markdown d = Raise AttributeError.
Proof.
  intros Hd Hom. unfold _format_as_markdown.
  destruct (header_lines_ok d Hd) as [basic ->]. cbn [bind].
  change (u "other_metadata") with other_metadata. by rewrite Hom.
Qed.

Lemma shaped_set_field (d : dict) (f s : pystr) :
  shaped d -> In f canonical_fields -> shaped (dict_set d f (VStr s)).
Proof.
  intros Hd Hf. apply (merge_wp_shaped d _ f s Hd). unfold merge_wp.
  assert (Hmem : dict_mem d f = true).
  { apply dict_mem_keys. destruct Hd as [-> _]. apply keys_empty_content. by left. }
  by rewrite Hmem.
Qed.

Lemma prepare_shadowed (ext : Externals) (d : dict) (v : pystr) (index : nat) :
  shaped d -> dict_get d other_metadata = Some (VStr v) ->
  prepare_article ext d index
  = Raise (from_option id AttributeError (conversion_error ext d)).
Proof.
  intros Hd Hom. unfold prepare_article, conversion_error.
  destruct Hd as [Hkeys Hfields].
  destruct (Hfields (u "title")) as [t Ht]; [vm_compute; tauto |].
  destruct (Hfields (u "content")) as [b Hb]; [vm_compute; tauto |].
  unfold getitem. rewrite Ht, Hb. cbn [bind].
  assert (Hname : exists filename,
            (if truthy (VStr t)
             then Ok (_sanitize_filename ext t ++ u ".md")
             else Ok (u "article_" ++ pad3 index ++ u ".md")) = Ok filename)
    by (destruct (truthy _); by eexists).
  destruct Hname as [filename ->]. cbn [bind].
  destruct b as [|c b']; cbn [truthy nonempty].
  - cbn [bind html_to_markdown from_option id]. by rewrite (format_shadowed _ v).
  - destruct (html_to_markdown ext (c :: b')) as [md | e]; cbn [bind from_option id];
      [| done].
    rewrite (format_shadowed _ v); [done | |].
    + apply shaped_set_field; [done | vm_compute; tauto].
    + rewrite dict_get_set_ne; done.
Qed.

Lemma export_shadowed (ext : Externals) (fs : files) (d : dict) (v : pystr) (index : nat) :
  shaped d -> dict_get d other_metadata = Some (VStr v) ->
  export_article ext fs d index
  = (fs, Raise (from_option id AttributeError (conversion_error ext d))).
Proof.
  intros Hd Hom. unfold export_article. by rewrite (prepare_shadowed ext d v index).
Qed.

(** X8. When the dictionary of the flagged children holds the key
    [other_metadata], the map of the record is replaced by a string.  If
    every later key is a field, the extractor returns a record that
    [export_article] cannot write: it raises and leaves the files as they
    are; the exception is the one of the conversion when the parser
    rejects the content, and [AttributeError] otherwise.  If a later key is
    not a field, the extractor itself raises [TypeError]. *)
Theorem extract_shadowed_metadata (article : ET.Element) (before after : list pystr) :
  keys (collect_wp_elements article) = before ++ other_metadata :: after ->
  if forallb is_field after
  then exists r v,
         extract_article_content article = Ok r /\
         dict_get r other_metadata = Some (VStr v) /\
         forall ext fs index,
           export_article ext fs r index
           = (fs, Raise (from_option id AttributeError (conversion_error ext r)))
  else extract_article_content article = Raise TypeError.
Proof.
  intros Hkeys. rewrite extract_unfold.
  pose proof (collect_wp_elements_NoDup article) as Hnd. rewrite Hkeys in Hnd.
  unfold keys in Hkeys.
  apply map_eq_app in Hkeys as (l1 & l2' & El & E1 & E2).
  destruct l2' as [|[k v] l2]; [discriminate |]. cbn [map fst] in E2.
  injection E2 as -> E2. rewrite El. rewrite for_each_app.
  apply List.NoDup_remove in Hnd as [Hnd Hnot].
  assert (Hnd1 : List.NoDup before) by (by apply List.NoDup_app_remove_r in Hnd).
  assert (Hnot1 : ~ In other_metadata (keys l1)).
  { unfold keys. rewrite E1. intros H. apply Hnot, in_or_app. by left. }
  assert (Hnot2 : ~ In other_metadata after).
  { intros H. apply Hnot, in_or_app. by right. }
  destruct (merge_all l1 (base_content article) []) as (d1 & m & Hd1 & Hom1 & _ & _).
  - unfold keys. by rewrite E1.
  - done.
  - apply base_of_keys.
  - apply base_of_other.
  - rewrite Hd1. cbn [bind for_each].
    assert (Hs1 : shaped d1).
    { by apply (merge_all_shaped l1 (base_content article) d1 (base_content_shaped article)). }
    assert (Hmem : dict_mem d1 other_metadata = true).
    { unfold dict_mem. by rewrite Hom1. }
    assert (Hstep : merge_wp d1 (other_metadata, v)
                    = Ok (dict_set d1 other_metadata (VStr v))).
    { unfold merge_wp. by rewrite Hmem. }
    rewrite Hstep. cbn [bind].
    pose proof (merge_shadowed v l2 (dict_set d1 other_metadata (VStr v))) as Hrest.
    unfold keys in Hrest. rewrite E2 in Hrest.
    assert (Hs2 : shaped (dict_set d1 other_metadata (VStr v))).
    { destruct Hs1 as [Hk Hf]. split.
      - rewrite keys_set_present; [done |]. rewrite Hk. apply keys_empty_content. by right.
      - intros f Hin. rewrite dict_get_set_ne; [by apply Hf |].
        intros <-. by apply other_not_canonical. }
    specialize (Hrest Hs2 (dict_get_set_eq _ _ _) Hnot2).
    destruct (forallb is_field after); [| done].
    destruct Hrest as (r & Hr & Hsr & Homr). exists r, v.
    split; [done |]. split; [done |]. intros ext fs index.
    by apply (export_shadowed ext fs r v).
Qed.

Lemma extract_shadowed_metadata_witness :
  (exists r v,
     extract_article_content shadowed_item = Ok r /\
     dict_get r other_metadata = Some (VStr v) /\
     forall ext fs index, export_article ext fs r index = (fs, Raise AttributeError)) /\
  extract_article_content shadowed_then_note = Raise TypeError.
Proof.
  split.
  - destruct (extract_shadowed_metadata shadowed_item [] [] eq_refl)
      as (r & v & Hr & Hv & He).
    exists r, v. split; [exact Hr |]. split; [exact Hv |]. intros ext fs index.
    rewrite He. vm_compute in Hr. injection Hr as <-. reflexivity.
  - exact (extract_shadowed_metadata shadowed_then_note [] [u "status"; u "note"] eq_refl).
Defined.

(** ** Filename Sanitizer: whitespace and clean names *)

Lemma match_plus_head (p : N -> bool) (c : N) (s : pystr) :
  match_here [Class p Plus] (c :: s)
  = if p c then Some (S (length (take_while p s))) else None.
Proof.
  cbn [match_here take_while]. destruct (p c).
  - rewrite backtrack_unfold. cbn [match_here length]. cbn. f_equal. lia.
  - reflexivity.
Qed.

Lemma re_sub_plus_class (p : N -> bool) (repl s : pystr) :
  Forall (fun c => p c = false) repl ->
  Forall (fun c => p c = false) (re_sub [Class p Plus] repl s).
Proof.
  intros Hrepl. apply sub_from_Forall; [done |].
  intros pre c post _ Hn. rewrite match_plus_head in Hn. destruct (p c); [| done].
  exfalso. by apply (Hn (length (take_while p post))).
Qed.

Lemma re_sub_one_map (p : N -> bool) (r : N) (s : pystr) :
  re_sub [Class p One] [r] s = map (fun c => if p c then r else c) s.
Proof.
  induction s as [|c s IH]; [reflexivity |].
  assert (E : match_here [Class p One] (c :: s) = if p c then Some 1 else None)
    by (cbn [match_here]; by destruct (p c)).
  rewrite re_sub_cons, E. cbn [map]. destruct (p c).
  - rewrite drop_0, IH. reflexivity.
  - by rewrite IH.
Qed.

Lemma drop_take_while (p : N -> bool) (s : pystr) :
  drop (length (take_while p s)) s = drop_while p s.
Proof.
  induction s as [|c s IH]; [reflexivity |]. cbn [take_while drop_while].
  destruct (p c); [| reflexivity]. cbn [length drop]. exact IH.
Qed.

Lemma squeeze_in_run (s : pystr) : squeeze true s = squeeze false (drop_while isspace s).
Proof.
  induction s as [|c s IH]; [reflexivity |]. cbn [squeeze drop_while].
  destruct (isspace c) eqn:E; [exact IH |]. cbn [squeeze]. by rewrite E.
Qed.

Lemma drop_while_length (p : N -> bool) (s : pystr) : length (drop_while p s) <= length s.
Proof.
  induction s as [|c s IH]; [done |]. cbn [drop_while].
  destruct (p c); simpl; lia.
Qed.

(** The second substitution of the sanitizer, run by run. *)
Lemma re_sub_squeeze (s : pystr) :
  re_sub [Class isspace Plus] (u "_") s = squeeze false s.
Proof.
  remember (length s) as n eqn:Hn. revert s Hn.
  induction n as [n IH] using lt_wf_ind. intros s Hn.
  destruct s as [|c s]; [reflexivity |].
  rewrite re_sub_cons, match_plus_head. cbn [squeeze].
  destruct (isspace c) eqn:E.
  - rewrite drop_take_while, squeeze_in_run.
    change (u "_" ++ ?x) with (ch "_" :: x). f_equal.
    apply (IH (length (drop_while isspace s))); [| reflexivity].
    pose proof (drop_while_length isspace s). subst n. simpl. lia.
  - f_equal. apply (IH (length s)); [subst n; simpl; lia | reflexivity].
Qed.

(** X9. The sanitised name is the decoded and normalised name in which
    every forbidden character has become an underscore and every run of
    whitespace, however long, one underscore, cut after a hundred
    characters; no whitespace character is left in it. *)
Theorem sanitize_filename_no_whitespace (ext : Externals) (filename : pystr) :
  _sanitize_filename ext filename
  = take 100 (squeeze false (map underscore_forbidden
                               (normalize_NFKC ext (unquote ext filename)))) /\
  Forall (fun c => isspace c = false) (_sanitize_filename ext filename).
Proof.
  split.
  - unfold _sanitize_filename.
    rewrite re_sub_squeeze.
    change (re_sub [Class forbidden One] (u "_") ?x)
      with (re_sub [Class forbidden One] [ch "_"] x).
    by rewrite re_sub_one_map.
  - unfold _sanitize_filename. apply Forall_take.
    apply re_sub_plus_class. vm_compute. by repeat constructor.
Qed.

Example runs_of_whitespace_collapse (ext : Externals) :
  _sanitize_filename ext (u "a  " ++ [9; 10]%N ++ u "b c") = u "a_b_c".
Proof. by vm_compute. Qed.

Lemma re_sub_no_match (r : regex) (repl s : pystr) :
  match_here r [] = None ->
  (forall pre c post, s = pre ++ c :: post -> match_here r (c :: post) = None) ->
  re_sub r repl s = s.
Proof.
  intros Hnil. induction s as [|c s IH]; intros Hs.
  - unfold re_sub. cbn. by rewrite Hnil.
  - rewrite re_sub_cons. rewrite (Hs [] c s eq_refl). f_equal. apply IH.
    intros pre c0 post ->. by apply (Hs (c :: pre) c0 post).
Qed.

Lemma re_sub_class_id (p : N -> bool) (repl s : pystr) :
  Forall (fun c => p c = false) s ->
  re_sub [Class p One] repl s = s /\ re_sub [Class p Plus] repl s = s.
Proof.
  intros Hs.
  assert (Hc : forall pre c post, s = pre ++ c :: post -> p c = false).
  { intros pre c post ->. apply Forall_app in Hs as [_ Hs]. by inversion Hs. }
  split; apply re_sub_no_match; try reflexivity; intros pre c post E.
  - cbn [match_here]. by rewrite (Hc pre c post E).
  - rewrite match_plus_head. by rewrite (Hc pre c post E).
Qed.

(** X10. A clean name, that is an ASCII name of at most a hundred characters
    without percent sign, forbidden character or whitespace, is its own
    sanitised name. *)
Theorem sanitize_filename_clean (ext : Externals) (filename : pystr) :
  clean_name filename = true -> _sanitize_filename ext filename = filename.
Proof.
  intros [Hall Hlen]%andb_true_iff. apply Nat.leb_le in Hlen.
  rewrite forallb_forall in Hall.
  assert (Hc : forall c, In c filename ->
            (c <? 128)%N = true /\ (c =? ch "%")%N = false /\ forbidden c = false
            /\ isspace c = false).
  { intros c Hin. specialize (Hall c Hin).
    repeat (apply andb_true_iff in Hall as [Hall ?]).
    repeat split; try done; by apply negb_true_iff. }
  unfold _sanitize_filename.
  assert (E1 : unquote ext filename = filename).
  { unfold unquote. destruct (has_char (ch "%") filename) eqn:Hp; [| done].
    apply has_char_In in Hp. destruct (Hc _ Hp) as (_ & H & _).
    by rewrite N.eqb_refl in H. }
  assert (E2 : normalize_NFKC ext filename = filename).
  { unfold normalize_NFKC.
    assert (H : forallb (fun c => (c <? 128)%N) filename = true)
      by (apply forallb_forall; intros c Hin; by destruct (Hc c Hin)).
    by rewrite H. }
  rewrite E1, E2.
  assert (E3 : re_sub [Class forbidden One] (u "_") filename = filename).
  { apply re_sub_class_id. apply List.Forall_forall. intros c Hin.
    by destruct (Hc c Hin) as (_ & _ & H & _). }
  rewrite E3.
  assert (E4 : re_sub [Class isspace Plus] (u "_") filename = filename).
  { apply re_sub_class_id. apply List.Forall_forall. intros c Hin.
    by destruct (Hc c Hin) as (_ & _ & _ & H). }
  rewrite E4. by apply firstn_all2.
Qed.

Lemma sanitize_filename_clean_witness :
  _sanitize_filename no_externals (u "Hello-World_2024") = u "Hello-World_2024".
Proof. exact (sanitize_filename_clean no_externals (u "Hello-World_2024") eq_refl). Defined.

(** ** Markup Converter: stripped results and text without markup *)

(** X11. Whenever the converter returns, and it does on the empty text and
    on every markup that the parser accepts, its result neither starts
    nor ends with whitespace: stripping it changes nothing. *)
Theorem html_to_markdown_stripped (ext : Externals) (html_content : pystr) :
  (html_content = [] \/ exists contents, BeautifulSoup ext html_content = Ok contents) ->
  exists markdown,
    html_to_markdown ext html_content = Ok markdown /\ strip markdown = markdown.
Proof.
  intros [-> | [contents Hsoup]]; [by exists [] |].
  destruct (html_to_markdown_parsed ext html_content contents Hsoup) as [text Ht].
  exists (tidy text). split; [exact Ht | apply strip_stripped].
Qed.

Lemma html_to_markdown_stripped_witness :
  exists markdown,
    html_to_markdown no_externals (u " <p> padded </p> ") = Ok markdown /\
    strip markdown = markdown.
Proof.
  apply html_to_markdown_stripped. right. eexists. vm_compute. reflexivity.
Defined.

Lemma strip_all_space (s : pystr) : Forall (fun c => isspace c = true) s -> strip s = [].
Proof.
  intros H. unfold strip, rstrip.
  assert (E : drop_while isspace (rev s) = []).
  { apply List.Forall_rev in H. induction H as [|c l Hc _ IH]; [done |].
    cbn [drop_while]. by rewrite Hc. }
  by rewrite E.
Qed.

Lemma data_char_not_lt (c : N) : data_char c = true -> (c =? ch "<")%N = false.
Proof.
  unfold data_char. intros H%negb_true_iff.
  change (u "<>&") with [ch "<"; ch ">"; ch "&"] in H. cbn [existsb] in H.
  by apply orb_false_iff in H as [H _].
Qed.

Lemma lex_data (f : nat) (c : N) (s : pystr) :
  data_char c = true ->
  lex (S f) (c :: s)
  = cons (TData (take_while data_char (c :: s)))
      <$> lex f (drop (length (take_while data_char (c :: s))) (c :: s)).
Proof.
  intros H. cbn [lex]. by rewrite (data_char_not_lt c H), H.
Qed.

(** A text without markup is one string of the soup. *)
Lemma parse_plain_text (c : N) (t : pystr) :
  forallb data_char (c :: t) = true ->
  parse_simple (c :: t) = Some [NavigableString true (end_data (c :: t))].
Proof.
  intros H. unfold parse_simple. cbn [length].
  rewrite lex_data by (by apply andb_true_iff in H as [? _]).
  rewrite (take_while_all _ _ H). rewrite drop_all. reflexivity.
Qed.

Lemma is_ascii_space_isspace (c : N) : is_ascii_space c = true -> isspace c = true.
Proof.
  unfold is_ascii_space. cbn [existsb]. rewrite !orb_true_iff.
  intros [E | [E | [E | [E | [E | E]]]]]; try done; apply N.eqb_eq in E; by subst.
Qed.

(** X12. A text without [<], [>] and [&] is only tidied: runs of blank lines
    are reduced, spaces at the ends of lines removed, and the whole is
    stripped. *)
Theorem html_to_markdown_plain_text (ext : Externals) (html_content : pystr) :
  forallb data_char html_content = true ->
  html_to_markdown ext html_content = Ok (tidy html_content).
Proof.
  intros H. destruct html_content as [|c t]; [reflexivity |].
  assert (Hr : rejected_markup (c :: t) = false).
  { apply andb_true_iff in H as [Hc _]. apply data_char_not_lt in Hc.
    destruct t as [|b [|c' [|d t']]]; try reflexivity.
    cbn [rejected_markup]. by rewrite Hc. }
  unfold html_to_markdown, BeautifulSoup. rewrite Hr, (parse_plain_text c t H).
  cbn [bind]. set (x := end_data (c :: t)).
  assert (Hp : _process_element
                 (S (length (load [NavigableString true x])))
                 (load [NavigableString true x]) 0
               = Ok (load [NavigableString true x])) by reflexivity.
  rewrite Hp. cbn [bind].
  assert (Hg : get_text (S (length (load [NavigableString true x])))
                 (load [NavigableString true x]) 0 [c_nl] = Ok x) by reflexivity.
  rewrite Hg. cbn [bind]. f_equal. fold (tidy x). unfold x, end_data.
  destruct (forallb is_ascii_space (c :: t)) eqn:Hs; [| done].
  assert (Hall : Forall (fun c => isspace c = true) (c :: t)).
  { apply List.Forall_forall. intros a Ha. apply is_ascii_space_isspace.
    rewrite forallb_forall in Hs. by apply Hs. }
  transitivity ([] : pystr).
  - by destruct (has_char c_nl (c :: t)).
  - symmetry. apply strip_all_space. apply re_sub_Forall; [constructor |].
    apply re_sub_Forall; [by repeat constructor | done].
Qed.

Lemma html_to_markdown_plain_text_witness :
  html_to_markdown no_externals (u "Hello  " ++ [c_nl; c_nl; c_nl; c_nl] ++ u "World ")
  = Ok (u "Hello" ++ [c_nl; c_nl] ++ u "World").
Proof.
  exact (html_to_markdown_plain_text no_externals
           (u "Hello  " ++ [c_nl; c_nl; c_nl; c_nl] ++ u "World ") eq_refl).
Defined.

(** ** Markup Converter: elements that are left alone *)

Lemma for_each_fixed {A S} (f : S -> A -> result S) (l : list A) (s : S) :
  (forall a, In a l -> f s a = Ok s) -> for_each f l s = Ok s.
Proof.
  induction l as [|a l IH]; intros H; [done |].
  cbn [for_each]. rewrite (H a (or_introl eq_refl)). cbn [bind].
  apply IH. intros b Hb. apply H. by right.
Qed.

Lemma unhandled_names (c : cell) :
  unhandled c = true -> Forall (fun nm => str_eqb (name c) nm = false) handled.
Proof.
  unfold unhandled, mem. intros H%negb_true_iff.
  apply List.Forall_forall. intros nm Hnm. apply not_true_iff_false. intros E.
  assert (existsb (str_eqb (name c)) handled = true); [| congruence].
  apply existsb_exists. by exists nm.
Qed.

Lemma process_unhandled (fuel : nat) :
  forall (h : heap) (element : nat),
    wf h -> Forall (fun c => unhandled c = true) h ->
    element < length h -> length h - element < fuel ->
    _process_element fuel h element = Ok h.
Proof.
  induction fuel as [|f IH]; intros h e Hwf Hall He Hfuel; [lia |].
  destruct (lookup_lt h e He) as (c & Hc & Hl).
  cbn [_process_element]. rewrite Hl. cbn [bind].
  assert (Hun : unhandled c = true).
  { rewrite List.Forall_forall in Hall. apply Hall. by apply list_elem_of_In, list_elem_of_lookup_2 with e. }
  pose proof (unhandled_names c Hun) as Hn.
  repeat (apply List.Forall_cons_iff in Hn as [-> Hn]). cbn [bind].
  destruct (find_all_ok f h e) as (found & -> & Hafter); [done | lia | lia |].
  cbn [bind]. apply for_each_fixed. intros j Hj.
  specialize (Hafter j Hj). apply IH; [done | done | lia | lia].
Qed.

(** X13. Markup in which no element is a heading, a paragraph, a link, an
    image, a figure, a caption, a list or a line break is not rewritten at
    all: the converter returns the text of the document, its strings joined
    by newlines, and tidies it.  Emphasis, divisions, tables, quotations
    and code are among the elements left alone. *)
Theorem html_to_markdown_unhandled (ext : Externals) (html_content : pystr)
    (contents : list node) :
  html_content <> [] ->
  BeautifulSoup ext html_content = Ok contents ->
  Forall (fun c => unhandled c = true) (load contents) ->
  exists text,
    get_text (S (length (load contents))) (load contents) 0 [c_nl] = Ok text /\
    html_to_markdown ext html_content = Ok (tidy text).
Proof.
  intros Hne Hsoup Hall. unfold html_to_markdown.
  destruct html_content as [|c t]; [done |]. rewrite Hsoup. cbn [bind].
  set (soup := load contents) in *.
  destruct (load_wf contents) as [Hwf Hpos]. fold soup in Hwf, Hpos.
  rewrite (process_unhandled (S (length soup)) soup 0 Hwf Hall); [| lia | lia].
  cbn [bind].
  destruct (get_text_ok (S (length soup)) soup 0 [c_nl]) as [text Ht]; [done | lia | lia |].
  exists text. split; [done |]. by rewrite Ht.
Qed.

Lemma html_to_markdown_unhandled_witness :
  html_to_markdown no_externals emphasis
  = Ok (u "bold" ++ [c_nl] ++ u " and" ++ [c_nl] ++ u "stressed").
Proof.
  destruct (html_to_markdown_unhandled no_externals emphasis
              [Tag (u "div") []
                 [Tag (u "b") [] [NavigableString true (u "bold")];
                  NavigableString true (u " and ");
                  Tag (u "em") [] [NavigableString true (u "stressed")]]])
    as (text & Ht & Hm).
  - discriminate.
  - reflexivity.
  - vm_compute. by repeat constructor.
  - rewrite Hm. f_equal. vm_compute in Ht. injection Ht as <-. reflexivity.
Defined.

(** ** Markup Converter: what a conversion keeps *)

Lemma frame_refl (e : nat) (h : heap) : frame e h h.
Proof. by repeat split. Qed.

Lemma frame_trans (e e' : nat) (h h1 h2 : heap) :
  frame e h h1 -> frame e' h1 h2 -> e <= e' -> frame e h h2.
Proof.
  intros (N1 & A1 & P1) (N2 & A2 & P2) Hle. repeat split.
  - by rewrite N2.
  - by rewrite A2.
  - intros j Hj. rewrite P2 by lia. by apply P1.
Qed.

Lemma frame_set_string (e i : nat) (h : heap) (s : pystr) :
  e <= i -> frame e h (set_string h i s).
Proof.
  intros Hle. unfold set_string. destruct (h !! i) as [c|] eqn:Hc; [| apply frame_refl].
  repeat split.
  - rewrite list_fmap_insert. cbn [name]. apply list_insert_id.
    by rewrite list_lookup_fmap, Hc.
  - rewrite list_fmap_insert. cbn [attrs]. apply list_insert_id.
    by rewrite list_lookup_fmap, Hc.
  - intros j Hj. apply list_lookup_insert_ne. lia.
Qed.

Lemma process_ok_frame (fuel : nat) :
  forall (h0 h : heap) (element : nat),
    good h0 h -> element < length h0 -> length h0 - element < fuel ->
    exists h', _process_element fuel h element = Ok h' /\ good h0 h' /\ frame element h h'.
Proof.
  induction fuel as [|f IH]; intros h0 h e Hgood He Hfuel; [lia |].
  pose proof Hgood as [Hwf Hlen].
  destruct (lookup_lt h e) as (c & Hc & Hl); [lia |].
  cbn [_process_element]. rewrite Hl. cbn [bind].
  assert (Hstr : exists o, string f h e = Ok o) by (apply string_ok; [done | lia | lia]).
  destruct Hstr as [o Ho].
  assert (Hkids : forall j, In j (refs (contents c)) -> e < j < length h0).
  { intros j Hj. rewrite <- Hlen. by apply (Hwf e c Hc). }
  assert (Hli : forall (nm : pystr) li,
            In li (List.filter (has_name h nm) (refs (contents c))) ->
            exists t, (t <- get_text f h li [] ;; Ok (strip t)) = Ok t).
  { intros nm li Hin. apply filter_In in Hin as [Hin _]. apply Hkids in Hin.
    destruct (get_text_ok f h li []) as [t Ht]; [done | lia | lia |].
    rewrite Ht. by eexists. }
  assert (Hset : forall s, good h0 (set_string h e s) /\ frame e h (set_string h e s)).
  { intros s. split; [by apply set_string_good | by apply frame_set_string]. }
  match goal with
  | |- exists h', bind ?R _ = Ok h' /\ _ =>
      assert (Hrule : exists h1, R = Ok h1 /\ good h0 h1 /\ frame e h h1)
  end.
  { repeat match goal with
           | |- context [if str_eqb ?a ?b then _ else _] => destruct (str_eqb a b)
           end;
      try (rewrite Ho; cbn [bind]; eexists; split; [reflexivity |]; by apply Hset);
      try (eexists; split; [reflexivity |]; by apply Hset);
      try (exists h; split; [reflexivity |]; split; [done | apply frame_refl]).
    - (* p *)
      rewrite Ho. cbn [bind].
      assert (Hloop : exists r,
                for_each
                  (fun (st : heap * list pystr) child =>
                     match child with
                     | IStr _ x => Ok (fst st, snd st ++ [strip x])
                     | IRef j =>
                         h' <- _process_element f (fst st) j ;;
                         t <- get_text f h' j [] ;; Ok (h', snd st ++ [t])
                     end) (contents c) (h, []) = Ok r
                /\ good h0 (fst r) /\ frame e h (fst r)).
      { apply (for_each_inv (fun st => good h0 (fst st) /\ frame e h (fst st)));
          [| split; [done | apply frame_refl]].
        intros st [v x | j] Hin [Hst Hfr].
        - eexists. split; [reflexivity |]. by split.
        - assert (Hj : e < j < length h0) by (by apply Hkids, refs_In).
          destruct (IH h0 (fst st) j Hst) as (h' & Hp & Hg & Hf); [lia | lia |].
          rewrite Hp. cbn [bind]. destruct Hg as [Hwf' Hlen'].
          destruct (get_text_ok f h' j []) as [t Ht]; [done | lia | lia |].
          rewrite Ht. cbn [bind]. eexists. split; [reflexivity |]. cbn [fst].
          split; [done |]. apply (frame_trans e j h (fst st) h'); [done | done | lia]. }
      destruct Hloop as (r & Hr & Hg & Hf).
      destruct o as [[|x t]|]; try (rewrite Hr; cbn [bind]);
        eexists; (split; [reflexivity |]);
        try (by apply Hset);
        (split; [by apply set_string_good |]);
        (apply (frame_trans e e h (fst r)); [done | by apply frame_set_string | lia]).
    - (* figure *)
      destruct (find_ok f h e (u "img")) as (oi & Hoi & Hi); [done | lia | lia |].
      rewrite Hoi. cbn [bind].
      destruct oi as [i|]; [| exists h; split; [reflexivity |]; split; [done | apply frame_refl]].
      destruct (lookup_lt h i) as (ci & _ & Hli'); [specialize (Hi i eq_refl); lia |].
      rewrite Hli'. cbn [bind].
      destruct (find_ok f h e (u "figcaption")) as (ofc & Hofc & Hfc); [done | lia | lia |].
      rewrite Hofc. cbn [bind]. destruct ofc as [fc|].
      + destruct (string_ok f h fc) as [s Hs];
          [done | specialize (Hfc fc eq_refl); lia | specialize (Hfc fc eq_refl); lia |].
        rewrite Hs. cbn [bind]. eexists. split; [reflexivity |]. by apply Hset.
      + cbn [bind]. eexists. split; [reflexivity |]. by apply Hset.
    - (* ul *)
      unfold find_all_children. rewrite Hl. cbn [bind].
      destruct (map_each_ok
                  (fun li => t <- (t <- get_text f h li [] ;; Ok (strip t)) ;; Ok (u "- " ++ t))
                  (fun _ _ => True)
                  (List.filter (has_name h (u "li")) (refs (contents c))))
        as (items & Hitems & _).
      { intros li Hin. destruct (Hli _ _ Hin) as [t Ht]. rewrite Ht. by eexists. }
      rewrite Hitems. cbn [bind]. eexists. split; [reflexivity |]. by apply Hset.
    - (* ol *)
      unfold find_all_children. rewrite Hl. cbn [bind].
      destruct (map_each_ok
                  (fun il : nat * nat =>
                     t <- (t <- get_text f h (snd il) [] ;; Ok (strip t)) ;;
                     Ok (decimal (fst il) ++ u ". " ++ t))
                  (fun _ _ => True)
                  (enumerate1 (List.filter (has_name h (u "li")) (refs (contents c)))))
        as (items & Hitems & _).
      { intros il Hin. apply enumerate1_snd in Hin.
        destruct (Hli _ _ Hin) as [t Ht]. rewrite Ht. by eexists. }
      rewrite Hitems. cbn [bind]. eexists. split; [reflexivity |]. by apply Hset. }
  destruct Hrule as (h1 & Hh1 & Hg1 & Hf1). rewrite Hh1. cbn [bind].
  pose proof Hg1 as [Hwf1 Hlen1].
  destruct (find_all_ok f h1 e) as (found & Hfound & Hafter); [done | lia | lia |].
  rewrite Hfound. cbn [bind].
  apply (for_each_inv (fun h' => good h0 h' /\ frame e h h')); [| by split].
  intros h' j Hj [Hg' Hf']. specialize (Hafter j Hj).
  destruct (IH h0 h' j Hg') as (h'' & Hp & Hg'' & Hf''); [lia | lia |].
  exists h''. split; [done |]. split; [done |].
  apply (frame_trans e j h h'); [done | done | lia].
Qed.

Lemma shrinks_refl (h : heap) : shrinks h h.
Proof.
  split; [done |]. intros j c Hc. exists c. split; [done |].
  split; [done |]. split; [done |]. by intros x.
Qed.

Lemma shrinks_trans (h h1 h2 : heap) : shrinks h h1 -> shrinks h1 h2 -> shrinks h h2.
Proof.
  intros [L1 S1] [L2 S2]. split; [by rewrite L2 |].
  intros j c2 H2. destruct (S2 j c2 H2) as (c1 & H1 & N2 & A2 & I2).
  destruct (S1 j c1 H1) as (c & Hc & N1 & A1 & I1).
  exists c. split; [done |]. split; [by rewrite N2 |]. split; [by rewrite A2 |].
  intros x Hx. by apply I1, I2.
Qed.

Lemma below_trans (h : heap) (a b c : nat) : below h a b -> below h b c -> below h a c.
Proof.
  induction 1 as [e | e ce k j He Hk _ IH]; [done |].
  intros Hc. apply (below_child h e ce k c He Hk). by apply IH.
Qed.

Lemma below_shrinks (h h' : heap) (a b : nat) : shrinks h h' -> below h' a b -> below h a b.
Proof.
  intros [_ Hs]. induction 1 as [e | e c' k j He Hk _ IH]; [constructor |].
  destruct (Hs e c' He) as (c & Hc & _ & _ & Hi).
  apply (below_child h e c k j Hc); [by apply Hi | done].
Qed.

Lemma changes_refl (e : nat) (h : heap) : changes_below e h h.
Proof. split; [apply shrinks_refl | done]. Qed.

Lemma changes_set_string (e : nat) (h : heap) (s : pystr) :
  changes_below e h (set_string h e s).
Proof.
  unfold set_string. destruct (h !! e) as [c|] eqn:Hc; [| apply changes_refl].
  split; [split |].
  - by rewrite length_insert.
  - intros j c' Hj. destruct (decide (e = j)) as [<- | Hne].
    + rewrite list_lookup_insert_eq in Hj by (by eapply lookup_lt_Some).
      injection Hj as <-. exists c. split; [done |]. split; [done |].
      split; [done |]. intros x [].
    + rewrite list_lookup_insert_ne in Hj by done. exists c'.
      split; [done |]. split; [done |]. split; [done |]. by intros x.
  - intros j Hj. apply list_lookup_insert_ne. intros <-. apply Hj. constructor.
Qed.

Lemma changes_trans (e k : nat) (h h1 h2 : heap) :
  changes_below e h h1 -> below h e k -> changes_below k h1 h2 ->
  changes_below e h h2.
Proof.
  intros [S1 F1] Hk [S2 F2]. split; [by apply (shrinks_trans h h1) |].
  intros j Hj. rewrite F2; [by apply F1 |].
  intros Hb. apply Hj. apply (below_trans h e k j Hk). by apply (below_shrinks h h1).
Qed.

Lemma map_each_Forall2 {A B} (g : A -> result B) (l : list A) :
  forall bs, map_each g l = Ok bs -> Forall2 (fun a b => g a = Ok b) l bs.
Proof.
  induction l as [|a l IH]; intros bs; cbn [map_each].
  - intros [= <-]. constructor.
  - destruct (g a) as [b | x] eqn:E; cbn [bind]; [| done].
    destruct (map_each g l) as [bs' | x]; cbn [bind]; [| done].
    intros [= <-]. constructor; [done | by apply IH].
Qed.

(** The walk below a cell only meets cells below it. *)
Lemma descendants_below (fuel : nat) :
  forall (h : heap) (i : nat) (l : list item),
    descendants fuel h i = Ok l -> forall j, In j (refs l) -> below h i j.
Proof.
  induction fuel as [|f IH]; intros h i l H j Hj; [done |].
  cbn [descendants] in H. unfold bs4.lookup in H.
  destruct (h !! i) as [c|] eqn:Hc; [| done]. cbn [bind] in H.
  match type of H with
  | bind ?x _ = _ => destruct x as [subs | x0] eqn:Hsubs; [| done]
  end.
  cbn [bind] in H. injection H as <-.
  apply map_each_Forall2 in Hsubs. apply refs_In in Hj.
  destruct (In_concat_Forall2 _ _ _ _ Hsubs Hj) as (it & sub & Hit & Hsub & Hin).
  destruct it as [v s | k].
  - injection Hsub as <-. by destruct Hin as [[=] | []].
  - destruct (descendants f h k) as [sub' | x0] eqn:Hk; [| done].
    cbn [bind] in Hsub. injection Hsub as <-.
    apply (below_child h i c k j Hc); [by apply refs_In |].
    destruct Hin as [[= <-] | Hin]; [constructor |].
    apply (IH h k sub' Hk). by apply refs_In.
Qed.

Lemma for_each_keeps {A S} (I : S -> Prop) (g : S -> A -> result S) (l : list A) :
  forall s s',
    for_each g l s = Ok s' ->
    (forall a x a', In x l -> I a -> g a x = Ok a' -> I a') -> I s -> I s'.
Proof.
  induction l as [|x l IH]; intros s s' H Hstep Hs; cbn [for_each] in H.
  - by injection H as <-.
  - destruct (g s x) as [s1 | e] eqn:E; [| done]. cbn [bind] in H.
    apply (IH s1 s' H).
    + intros a y a' Hy. apply Hstep. by right.
    + apply (Hstep s x s1); [by left | done | done].
Qed.

(** Whatever a conversion returns differs from the heap it started from
    only at the element and below it. *)
Lemma process_changes (fuel : nat) :
  forall (h : heap) (e : nat) (h' : heap),
    _process_element fuel h e = Ok h' -> changes_below e h h'.
Proof.
  induction fuel as [|f IH]; intros h e h' H; [done |].
  cbn [_process_element] in H. unfold bs4.lookup at 1 in H.
  destruct (h !! e) as [c|] eqn:Hc; [| done]. cbn [bind] in H.
  match type of H with
  | bind ?R _ = _ => destruct R as [h1 | x0] eqn:Hrule; [| done]
  end.
  cbn [bind] in H.
  assert (H1 : changes_below e h h1).
  { clear H.
    repeat match type of Hrule with
           | (if ?b then _ else _) = _ => destruct b
           end;
    repeat match type of Hrule with
           | bind ?x _ = Ok _ =>
               let E := fresh "E" in
               destruct x eqn:E; cbn [bind] in Hrule; [| discriminate Hrule]
           | match ?x with _ => _ end = Ok _ => destruct x
           end;
    injection Hrule as <-;
    first [ apply changes_refl | apply changes_set_string | idtac ].
    all: match goal with
         | E : for_each _ _ _ = Ok ?r |- _ =>
             apply (changes_trans e e h (fst r));
               [| constructor | apply changes_set_string];
             apply (for_each_keeps (fun st => changes_below e h (fst st)) _ _ _ _ E);
               [| apply changes_refl]
         end.
    all: intros st [v x | j] st' Hin Hst Hstep.
    all: try (injection Hstep as <-; exact Hst).
    all: destruct (_process_element f (fst st) j) as [h2 | x0] eqn:Hp; [| done].
    all: cbn [bind] in Hstep.
    all: destruct (get_text f h2 j []) as [t0 | x0]; [| done].
    all: cbn [bind] in Hstep; injection Hstep as <-; cbn [fst].
    all: apply IH in Hp.
    all: apply (changes_trans e j h (fst st) h2); [done | | done].
    all: apply (below_child h e c j j Hc); [by apply refs_In | constructor]. }
  destruct (find_all f h1 e) as [found | x0] eqn:Hfound; [| done]. cbn [bind] in H.
  apply (for_each_keeps (fun x => changes_below e h x) _ found h1 h' H); [| exact H1].
  intros a j a' Hj Ha Hp. apply IH in Hp.
  apply (changes_trans e j h a a'); [done | | done].
  apply (below_shrinks h h1); [apply H1 |].
  unfold find_all in Hfound.
  destruct (descendants f h1 e) as [d | x0] eqn:Hd; [| done].
  cbn [bind] in Hfound. injection Hfound as <-.
  by apply (descendants_below f h1 e d Hd).
Qed.

(** X14. A conversion rewrites contents only: from whatever element of a
    well-formed tree it starts, it returns, every tag keeps its name and
    its attributes, and every cell that is neither the element nor below
    it is left as it is, the cells before the element among them. *)
Theorem process_element_frame (fuel : nat) (h : heap) (element : nat) :
  wf h -> element < length h -> length h - element < fuel ->
  exists h',
    _process_element fuel h element = Ok h' /\
    map name h' = map name h /\
    map attrs h' = map attrs h /\
    (forall j, j < element -> h' !! j = h !! j) /\
    (forall j, ~ below h element j -> h' !! j = h !! j).
Proof.
  intros Hwf He Hfuel.
  destruct (process_ok_frame fuel h h element) as (h' & Hp & _ & Hn & Ha & Hf);
    [done | done | done |].
  exists h'. split; [done |]. split; [done |]. split; [done |]. split; [done |].
  by destruct (process_changes fuel h element h' Hp) as [_ Hb].
Qed.

Lemma process_element_frame_witness :
  exists h',
    _process_element 4 two_blocks 1 = Ok h' /\
    map name h' = map name two_blocks /\
    map attrs h' = map attrs two_blocks /\
    h' !! 0 = two_blocks !! 0 /\
    h' !! 2 = two_blocks !! 2.
Proof.
  destruct (process_element_frame 4 two_blocks 1) as (h' & Hp & Hn & Ha & Hb & Hf).
  - apply load_wf.
  - vm_compute. lia.
  - vm_compute. lia.
  - exists h'. split; [done |]. split; [done |]. split; [done |].
    split; [apply Hb; lia |]. apply Hf.
    intros Hbelow. inversion Hbelow as [| e c k j Hc Hk _]; subst.
    vm_compute in Hc. injection Hc as <-. destruct Hk.
Defined.

(** ** Markup Converter: a heading inside divisions *)

Lemma alloc_wrap (k : nat) (t : pystr) :
  forall b,
    alloc b (wrap k (heading1 t))
    = (IRef b, map (fun i => mkCell (u "div") [] [IRef (S i)]) (seq b k)
               ++ [mkCell (u "h1") [] [IStr true t]]).
Proof.
  induction k as [|k IH]; intros b; [reflexivity |].
  cbn [wrap]. rewrite alloc_Tag. cbn [alloc_list]. rewrite IH.
  cbn [fst snd seq map length]. by rewrite app_nil_r.
Qed.

Lemma load_wrap (k : nat) (t : pystr) : load [wrap k (heading1 t)] = nested k t.
Proof.
  unfold load. rewrite alloc_Tag. cbn [alloc_list]. rewrite alloc_wrap.
  cbn [fst snd]. rewrite app_nil_r. unfold nested, links. cbn [seq map].
  change (0 =? 0) with true. cbv iota. cbn [app]. f_equal. f_equal.
  apply map_ext_in. intros i Hi. apply in_seq in Hi.
  destruct i as [|i]; [lia | reflexivity].
Qed.

Lemma links_length (k : nat) : length (links k) = S k.
Proof. unfold links. by rewrite length_map, length_seq. Qed.

Lemma nested_length (k : nat) (t : pystr) : length (nested k t) = S (S k).
Proof. unfold nested. rewrite length_app, links_length. simpl. lia. Qed.

Lemma nested_link (k : nat) (t : pystr) (j : nat) :
  j <= k ->
  nested k t !! j
  = Some (mkCell (if j =? 0 then document_name else u "div") [] [IRef (S j)]).
Proof.
  intros Hj. unfold nested. rewrite lookup_app_l by (rewrite links_length; lia).
  unfold links. rewrite list_lookup_fmap. rewrite lookup_seq_lt by lia. reflexivity.
Qed.

Lemma nested_heading (k : nat) (t : pystr) :
  nested k t !! S k = Some (mkCell (u "h1") [] [IStr true t]).
Proof.
  unfold nested. rewrite lookup_app_r by (rewrite links_length; lia).
  rewrite links_length. by rewrite Nat.sub_diag.
Qed.

Lemma nested_set_string (k : nat) (t x : pystr) :
  set_string (nested k t) (S k) x = nested k x.
Proof.
  unfold set_string. rewrite nested_heading. cbn [name attrs]. unfold nested.
  rewrite insert_app_r_alt by (rewrite links_length; lia).
  rewrite links_length. by rewrite Nat.sub_diag.
Qed.

Lemma nested_descendants (k : nat) (t : pystr) (d : nat) :
  forall j fuel,
    j + d = S k -> d < fuel ->
    descendants fuel (nested k t) j
    = Ok (map IRef (seq (S j) d) ++ [IStr true t]).
Proof.
  induction d as [|d IH]; intros j fuel Hj Hfuel;
    (destruct fuel as [|f]; [lia |]); cbn [descendants]; unfold bs4.lookup.
  - replace j with (S k) by lia. rewrite nested_heading. reflexivity.
  - rewrite nested_link by lia. cbn [bind contents map_each].
    rewrite (IH (S j) f) by lia. cbn [bind concat seq map].
    by rewrite app_nil_r.
Qed.

Lemma refs_nested (l : list nat) (x : item) :
  (forall j, x <> IRef j) -> refs (map IRef l ++ [x]) = l.
Proof.
  intros Hx. rewrite refs_app. unfold refs at 2. cbn [flat_map].
  destruct x as [v s | j]; [| by destruct (Hx j)]. cbn [app]. rewrite app_nil_r.
  induction l as [|a l IH]; [done |]. unfold refs in *. cbn [map flat_map app].
  by rewrite IH.
Qed.

Lemma nested_find_all (k : nat) (t : pystr) (j d fuel : nat) :
  j + d = S k -> d < fuel ->
  find_all fuel (nested k t) j = Ok (seq (S j) d).
Proof.
  intros Hj Hfuel. unfold find_all. rewrite (nested_descendants k t d j fuel Hj Hfuel).
  cbn [bind]. by rewrite refs_nested.
Qed.

Lemma total_S (m : nat) : total (S m) = 2 ^ m.
Proof.
  induction m as [|m IH]; [reflexivity |].
  change (total (S (S m))) with (count (S m) + total (S m)). rewrite IH.
  cbn [count]. rewrite Nat.pow_succ_r'. lia.
Qed.

Lemma process_nested (k : nat) (d : nat) :
  forall (t : pystr) (j fuel : nat),
    j + d = S k -> d + 2 <= fuel ->
    _process_element fuel (nested k t) j = Ok (nested k (Nat.iter (count d) mark t)).
Proof.
  induction d as [d IH] using lt_wf_ind. intros t j fuel Hj Hfuel.
  destruct fuel as [|f]; [lia |]. cbn [_process_element]. unfold bs4.lookup.
  destruct d as [|d].
  - replace j with (S k) by lia. rewrite nested_heading. cbn [bind name].
    change (str_eqb (u "h1") (u "h1")) with true. cbv iota.
    assert (Hs : string f (nested k t) (S k) = Ok (Some t)).
    { destruct f as [|f]; [lia |]. cbn [string]. unfold bs4.lookup.
      by rewrite nested_heading. }
    rewrite Hs. cbn [bind fmt]. fold (mark t). rewrite nested_set_string.
    rewrite (nested_find_all k (mark t) (S k) 0 f) by lia.
    reflexivity.
  - rewrite nested_link by lia. cbn [bind name].
    assert (Hrule : exists nm, (if j =? 0 then document_name else u "div") = u nm
                             /\ Forall (fun h => str_eqb (u nm) h = false) handled).
    { destruct (j =? 0); eexists; (split; [reflexivity |]); by repeat constructor. }
    destruct Hrule as (nm & -> & Hn).
    repeat (apply List.Forall_cons_iff in Hn as [-> Hn]).
    cbn [bind]. rewrite (nested_find_all k t j (S d) f) by lia. cbn [bind].
    assert (Hloop : forall m i t',
              i + m = S (S k) -> m <= S d ->
              for_each (fun h child => _process_element f h child) (seq i m) (nested k t')
              = Ok (nested k (Nat.iter (total m) mark t'))).
    { induction m as [|m IHm]; intros i t' Hi Hm; [reflexivity |].
      cbn [seq for_each]. rewrite (IH m) by lia. cbn [bind].
      rewrite (IHm (S i)) by lia. do 2 f_equal.
      cbn [total]. rewrite Nat.add_comm. by rewrite Nat.iter_add. }
    rewrite (Hloop (S d) (S j) t) by lia. by rewrite total_S.
Qed.

(** X15. A first-level heading inside [k] divisions is converted once for
    each way of reaching it from the soup, that is [2 ^ k] times: its text
    comes out behind [2 ^ k] marks. *)
Theorem nested_heading_marks (k : nat) (t : pystr) :
  exists soup',
    _process_element (S (length (load [wrap k (heading1 t)])))
                     (load [wrap k (heading1 t)]) 0 = Ok soup' /\
    get_text (S (length (load [wrap k (heading1 t)]))) soup' 0 [c_nl]
    = Ok (Nat.iter (2 ^ k) mark t).
Proof.
  rewrite load_wrap, nested_length.
  exists (nested k (Nat.iter (2 ^ k) mark t)). split.
  - apply (process_nested k (S k) t 0); lia.
  - unfold get_text. rewrite (nested_descendants k _ (S k) 0) by lia.
    cbn [bind]. unfold strings. rewrite flat_map_app. cbn [flat_map].
    assert (E : flat_map (fun it : item => match it with
                                           | IStr true s => [s]
                                           | _ => []
                                           end) (map IRef (seq 1 (S k))) = []).
    { induction (seq 1 (S k)) as [|a l IH]; [done |]. cbn [map flat_map]. by rewrite IH. }
    rewrite E. reflexivity.
Qed.

Example twice_nested_heading (ext : Externals) :
  html_to_markdown ext (u "<div><div><h1>T</h1></div></div>") = Ok (u "# # # # T").
Proof. by vm_compute. Qed.

(** ** Export: from the extractor to the file *)

Lemma format_ok (d : dict) (m : list (pystr * pystr)) :
  shaped d -> dict_get d other_metadata = Some (VDict m) ->
  exists doc, _format_as_markdown d = Ok doc.
Proof.
  intros Hd Hom. unfold _format_as_markdown.
  destruct (header_lines_ok d Hd) as [basic ->]. cbn [bind].
  change (u "other_metadata") with other_metadata. rewrite Hom. cbn [bind].
  destruct (map_each_ok (fun kv : pystr * pystr => header_line (fst kv) (VStr (snd kv)))
              (fun _ _ => True) m) as (extra & -> & _).
  { intros kv _. unfold header_line.
    destruct (safe_value_string (snd kv)) as [t ->]. cbn [bind]. by eexists. }
  cbn [bind]. destruct Hd as [_ Hd].
  destruct (Hd (u "content")) as [b Hb]; [vm_compute; tauto |].
  unfold getitem. rewrite Hb. cbn [bind].
  destruct (truthy (VStr b)); cbn [bind]; by eexists.
Qed.

Lemma prepare_ok (ext : Externals) (d : dict) (m : list (pystr * pystr)) (index : nat) :
  shaped d -> dict_get d other_metadata = Some (VDict m) -> parsed ext d ->
  exists doc d',
    prepare_article ext d index = Ok (file_name ext d index, d', doc) /\
    shaped d' /\
    forall k, k <> u "content" -> dict_get d' k = dict_get d k.
Proof.
  intros Hd Hom Hp. unfold prepare_article, file_name.
  pose proof Hd as [Hkeys Hfields].
  destruct (Hfields (u "title")) as [t Ht]; [vm_compute; tauto |].
  destruct (Hfields (u "content")) as [b Hb]; [vm_compute; tauto |].
  unfold parsed in Hp. rewrite Hb in Hp.
  unfold getitem. rewrite Ht, Hb. cbn [bind].
  assert (Hname : (if truthy (VStr t)
                   then Ok (_sanitize_filename ext t ++ u ".md")
                   else Ok (u "article_" ++ pad3 index ++ u ".md"))
                  = Ok (match t with
                        | c :: t' => _sanitize_filename ext (c :: t') ++ u ".md"
                        | [] => u "article_" ++ pad3 index ++ u ".md"
                        end)) by (by destruct t).
  rewrite Hname. cbn [bind].
  destruct b as [|c b']; cbn [truthy nonempty].
  - cbn [bind]. destruct (format_ok d m Hd Hom) as [doc ->]. cbn [bind].
    exists doc, d. split; [by destruct t |]. by split.
  - destruct Hp as [contents Hsoup].
    destruct (html_to_markdown_parsed ext (c :: b') contents Hsoup) as [text ->].
    cbn [bind].
    assert (Hd' : shaped (dict_set d (u "content") (VStr (tidy text))))
      by (apply shaped_set_field; [done | vm_compute; tauto]).
    destruct (format_ok (dict_set d (u "content") (VStr (tidy text))) m Hd') as [doc ->].
    { rewrite dict_get_set_ne; done. }
    cbn [bind]. exists doc, (dict_set d (u "content") (VStr (tidy text))).
    split; [by destruct t |]. split; [done |].
    intros k Hk. by rewrite dict_get_set_ne.
Qed.

Lemma export_ok (ext : Externals) (fs : files) (d : dict) (m : list (pystr * pystr))
    (index : nat) :
  shaped d -> dict_get d other_metadata = Some (VDict m) -> parsed ext d ->
  exists doc d',
    export_article ext fs d index = written fs (file_name ext d index) d' doc /\
    shaped d' /\
    forall k, k <> u "content" -> dict_get d' k = dict_get d k.
Proof.
  intros Hd Hom Hp.
  destruct (prepare_ok ext d m index Hd Hom Hp) as (doc & d' & E & Hs & Hk).
  exists doc, d'. split; [| by split]. unfold export_article, written. by rewrite E.
Qed.

Lemma extract_shaped (article : ET.Element) (r : dict) :
  extract_article_content article = Ok r -> shaped r.
Proof.
  intros Hr. rewrite extract_unfold in Hr.
  by destruct (merge_all_shaped (collect_wp_elements article) (base_content article) r
                 (base_content_shaped article) Hr).
Qed.

(** X16. For an item without a flagged child named [other_metadata] the
    extractor returns a record; when the parser accepts its content,
    [export_article] makes a document for the file named after the
    sanitised title or, without a title, after the index, and changes
    nothing of the record but its content.  When the file cannot be opened
    it raises what [open] raises and writes nothing; when the document
    cannot be encoded it raises [UnicodeEncodeError] and leaves the file
    empty; otherwise it writes this one file and returns its name. *)
Theorem extract_then_export (ext : Externals) (fs : files) (article : ET.Element)
    (index : nat) :
  (forall c, In c (ET.children article) -> shadowing c = false) ->
  (forall r, extract_article_content article = Ok r -> parsed ext r) ->
  exists r doc r',
    extract_article_content article = Ok r /\
    (forall k, k <> u "content" -> dict_get r' k = dict_get r k) /\
    export_article ext fs r index
    = match open_for_writing (file_name ext r index) with
      | Raise e => (fs, Raise e)
      | Ok _ =>
          if utf8_encodable doc
          then (dict_set fs (file_name ext r index) doc, Ok (r', file_name ext r index))
          else (dict_set fs (file_name ext r index) [], Raise UnicodeEncodeError)
      end.
Proof.
  intros Hno Hparsed. destruct (extract_total article Hno) as (r & m & Hr & Hom & _).
  destruct (export_ok ext fs r m index (extract_shaped article r Hr) Hom (Hparsed r Hr))
    as (doc & r' & He & _ & Hk).
  by exists r, doc, r'.
Qed.

Lemma extract_then_export_witness :
  exists r doc r',
    extract_article_content plain_item = Ok r /\
    export_article no_externals [] r 0 = ([(u "Hello.md", doc)], Ok (r', u "Hello.md")) /\
    dict_get r' (u "creator") = Some (VStr (u "bob")).
Proof.
  assert (Hno : forall c, In c (ET.children plain_item) -> shadowing c = false).
  { intros c Hc. vm_compute in Hc. by destruct Hc as [<- | [<- | [<- | []]]]. }
  assert (Hp : forall r, extract_article_content plain_item = Ok r ->
                         parsed no_externals r).
  { intros r Hr. vm_compute in Hr. injection Hr as <-. exact I. }
  destruct (extract_then_export no_externals [] plain_item 0 Hno Hp)
    as (r & doc & r' & Hr & Hk & He).
  assert (E : r = base_content plain_item).
  { vm_compute in Hr. injection Hr as <-. reflexivity. }
  subst r.
  assert (Ho : open_for_writing (file_name no_externals (base_content plain_item) 0)
               = Ok tt) by reflexivity.
  rewrite Ho in He.
  assert (Hc : exists d0 r0,
            export_article no_externals [] (base_content plain_item) 0
            = ([(u "Hello.md", d0)], Ok (r0, u "Hello.md")))
    by (vm_compute; by eexists _, _).
  destruct Hc as (d0 & r0 & Hc). rewrite Hc in He.
  destruct (utf8_encodable doc); [| discriminate He].
  injection He as Hd0 Hr0. subst r0. exists (base_content plain_item), d0, r'.
  split; [exact Hr |]. split; [exact Hc |].
  rewrite Hk by discriminate. reflexivity.
Defined.

(** ** The whole run *)

Lemma export_article_writes (ext : Externals) (fs fs' : files) (d : dict)
    (index : nat) (o : result (dict * pystr)) :
  export_article ext fs d index = (fs', o) ->
  match o with
  | Ok (d', name) => exists doc, fs' = dict_set fs name doc
  | Raise _ => fs' = fs \/ exists name, fs' = dict_set fs name []
  end.
Proof.
  unfold export_article.
  destruct (prepare_article ext d index) as [[[filename d1] doc] | e].
  2:{ intros [= <- <-]. by left. }
  destruct (open_for_writing filename) as [[] | e].
  2:{ intros [= <- <-]. by left. }
  destruct (utf8_encodable doc); intros [= <- <-]; [by exists doc |].
  right. by exists filename.
Qed.

Lemma dict_mem_set {V} (d : list (pystr * V)) (k k' : pystr) (v : V) :
  dict_mem d k' = true -> dict_mem (dict_set d k v) k' = true.
Proof.
  unfold dict_mem. destruct (decide (k = k')) as [-> | Hne].
  - by rewrite dict_get_set_eq.
  - by rewrite dict_get_set_ne.
Qed.

Lemma dict_set_length {V} (d : list (pystr * V)) (k : pystr) (v : V) :
  length (dict_set d k v) <= S (length d).
Proof.
  induction d as [|[k' v'] d IH]; [simpl; lia |].
  cbn [dict_set]. destruct (str_eqb k' k); simpl in *; lia.
Qed.

Lemma saved_paths_app (a b : list Program.line) :
  saved_paths (a ++ b) = saved_paths a ++ saved_paths b.
Proof. unfold saved_paths. apply flat_map_app. Qed.

Lemma grows_refl (path_of : pystr -> pystr) (w : Program.world) : grows path_of w [] 0 w.
Proof.
  unfold grows. rewrite app_nil_r. split; [done |]. split; [done |].
  split; [intros p Hp; destruct Hp | simpl; lia].
Qed.

Lemma grows_weaken (path_of : pystr -> pystr) (w w' : Program.world)
    (new : list Program.line) (a b : nat) :
  a <= b -> grows path_of w new a w' -> grows path_of w new b w'.
Proof. intros Hab (E & K & S & L). repeat split; try done. lia. Qed.

Lemma grows_trans (path_of : pystr -> pystr) (w w1 w2 : Program.world)
    (n1 n2 : list Program.line) (extra : nat) :
  grows path_of w n1 0 w1 -> grows path_of w1 n2 extra w2 ->
  grows path_of w (n1 ++ n2) extra w2.
Proof.
  intros (E1 & K1 & S1 & L1) (E2 & K2 & S2 & L2).
  unfold grows. rewrite E2, E1, app_assoc. split; [done |].
  split; [by auto |]. rewrite saved_paths_app, length_app. split; [| lia].
  intros p [Hp | Hp]%in_app_or.
  - destruct (S1 p Hp) as (name & -> & Hm). exists name. by auto.
  - by apply S2.
Qed.

(** Lines that report nothing as saved. *)
Lemma grows_lines (path_of : pystr -> pystr) (w : Program.world)
    (ls : list Program.line) :
  saved_paths ls = [] ->
  grows path_of w ls 0 (Program.mkWorld (Program.stdout w ++ ls) (Program.disk w)).
Proof.
  intros Hs. unfold grows. cbn [Program.stdout Program.disk]. rewrite Hs.
  split; [done |]. split; [done |].
  split; [intros p Hp; destruct Hp | simpl; lia].
Qed.

(** The write of one file and the line that reports it. *)
Lemma grows_saved (path_of : pystr -> pystr) (w : Program.world) (n : nat)
    (name doc : pystr) (ls : list Program.line) :
  saved_paths ls = [] ->
  grows path_of w (Program.Saved n (path_of name) :: ls) 0
        (Program.mkWorld (Program.stdout w ++ Program.Saved n (path_of name) :: ls)
                         (dict_set (Program.disk w) name doc)).
Proof.
  intros Hs. unfold grows. cbn [Program.stdout Program.disk].
  change (saved_paths (Program.Saved n (path_of name) :: ls))
    with (path_of name :: saved_paths ls). rewrite Hs.
  split; [done |]. split; [intros k Hk; by apply dict_mem_set |]. split.
  - intros p [<- | []]. exists name. split; [done |].
    unfold dict_mem. by rewrite dict_get_set_eq.
  - pose proof (dict_set_length (Program.disk w) name doc) as Hl.
    cbn [length]. unfold pystr, files in *. lia.
Qed.

(** A write that fails: no line, and at most the one file, empty. *)
Lemma grows_failed (path_of : pystr -> pystr) (w : Program.world) (fs' : files) :
  fs' = Program.disk w \/ (exists name, fs' = dict_set (Program.disk w) name []) ->
  grows path_of w [] 1 (Program.mkWorld (Program.stdout w) fs').
Proof.
  intros H. unfold grows. cbn [Program.stdout Program.disk]. rewrite app_nil_r.
  split; [done |]. split.
  - intros k Hk. destruct H as [-> | [name ->]]; [done | by apply dict_mem_set].
  - split; [intros p Hp; destruct Hp |].
    destruct H as [-> | [name ->]]; [simpl; lia |].
    pose proof (dict_set_length (Program.disk w) name []) as Hl.
    cbn [saved_paths flat_map length]. unfold pystr, files in *. lia.
Qed.

(** The report of one article: its line, then lines that report nothing
    as saved, up to the first lookup that fails. *)
Lemma report_lines (content : dict) (n : nat) (p : pystr)
    (K : Program.M (list pystr)) (w0 w' : Program.world)
    (r : Program.outcome (list pystr)) :
  Program.mbind (Program.print (Program.Saved n p))
    (fun _ =>
       Program.mbind (Program.lift (getitem content (u "title")))
         (fun title =>
            Program.mbind
              (if truthy title then Program.print (Program.TitleLine title)
               else Program.ret ())
              (fun _ =>
                 Program.mbind (Program.lift (getitem content (u "link")))
                   (fun link =>
                      Program.mbind (Program.print (Program.LinkLine link))
                        (fun _ =>
                           Program.mbind
                             (Program.lift (getitem content (u "post_date")))
                             (fun post_date =>
                                Program.mbind
                                  (Program.print (Program.PostDateLine post_date))
                                  (fun _ => K))))))) w0
  = (w', r) ->
  exists ls,
    saved_paths ls = [] /\
    ((w' = Program.mkWorld (Program.stdout w0 ++ Program.Saved n p :: ls)
                           (Program.disk w0)
      /\ exists e, r = Program.Raised e)
     \/ K (Program.mkWorld (Program.stdout w0 ++ Program.Saved n p :: ls)
                           (Program.disk w0)) = (w', r)).
Proof.
  unfold Program.mbind, Program.print, Program.lift, Program.ret, Program.raise.
  cbn [Program.stdout Program.disk].
  destruct (getitem content (u "title")) as [title | e1].
  2:{ intros [= <- <-]. exists []. split; [done |]. left. split; [done | by eexists]. }
  destruct (getitem content (u "link")) as [link | e2].
  2:{ destruct (truthy title); cbn [Program.stdout Program.disk];
        intros [= <- <-]; rewrite <- ?app_assoc; cbn [app];
        eexists; (split; [| left; split; [reflexivity | by eexists]]); done. }
  destruct (getitem content (u "post_date")) as [post_date | e3].
  2:{ destruct (truthy title); cbn [Program.stdout Program.disk];
        intros [= <- <-]; rewrite <- ?app_assoc; cbn [app];
        eexists; (split; [| left; split; [reflexivity | by eexists]]); done. }
  destruct (truthy title); cbn [Program.stdout Program.disk];
    rewrite <- ?app_assoc; cbn [app]; intros H;
    eexists; (split; [| right; exact H]); done.
Qed.

Lemma export_all_grows (ext : Externals) (path_str : pystr -> pystr -> pystr)
    (output_dir : pystr) (articles : list ET.Element) :
  forall (i : nat) (exported : list pystr) (w w' : Program.world)
         (r : Program.outcome (list pystr)),
    Program.export_all ext path_str output_dir i articles exported w = (w', r) ->
    exists new,
      grows (path_str output_dir) w new (slack r) w' /\
      forall paths, r = Program.Returned paths ->
        paths = exported ++ saved_paths new /\
        length (saved_paths new) = length articles.
Proof.
  induction articles as [|article rest IH]; intros i exported w w' r H.
  - injection H as <- <-. exists []. split; [apply grows_refl |].
    intros paths [= <-]. by rewrite app_nil_r.
  - cbn [Program.export_all] in H. unfold Program.mbind at 1 in H.
    unfold Program.lift at 1 in H.
    destruct (extract_article_content article) as [content | e].
    2:{ injection H as <- <-. exists [].
        split; [apply (grows_weaken _ _ _ _ 0); [simpl; lia | apply grows_refl] | done]. }
    unfold Program.ret at 1 in H. unfold Program.mbind at 1 in H.
    destruct (export_article ext (Program.disk w) content i)
      as [fs [[content' filename] | e]] eqn:He;
      apply export_article_writes in He.
    2:{ injection H as <- <-. exists []. split; [by apply grows_failed | done]. }
    destruct He as [doc ->]. cbn [fst snd] in H.
    apply report_lines in H as (ls & Hls & [[-> [e ->]] | H]).
    + cbn [Program.stdout Program.disk]. eexists.
      split; [| done].
      apply (grows_weaken _ _ _ _ 0); [simpl; lia | by apply grows_saved].
    + cbn [Program.stdout Program.disk] in H.
      apply IH in H as (new & Hg & Hr).
      exists ((Program.Saved (S i) (path_str output_dir filename) :: ls) ++ new).
      split.
      * eapply grows_trans; [by apply (grows_saved _ _ _ _ doc) | exact Hg].
      * intros paths Hp. destruct (Hr paths Hp) as [-> Hlen].
        rewrite saved_paths_app.
        change (saved_paths (Program.Saved (S i) (path_str output_dir filename) :: ls))
          with (path_str output_dir filename :: saved_paths ls).
        rewrite Hls. cbn [app length]. rewrite <- app_assoc. cbn [app].
        split; [done | by rewrite Hlen].
Qed.

Lemma quiet_ret {A} (a : A) : quiet (Program.ret a).
Proof. intros w. exists []. by rewrite app_nil_r; destruct w. Qed.

Lemma quiet_raise {A} (e : Program.raised) : quiet (@Program.raise A e).
Proof. intros w. exists []. by rewrite app_nil_r; destruct w. Qed.

Lemma quiet_lift {A} (r : result A) : quiet (Program.lift r).
Proof. destruct r; [apply quiet_ret | apply quiet_raise]. Qed.

Lemma quiet_print_all (ls : list Program.line) :
  saved_paths ls = [] -> quiet (Program.print_all ls).
Proof. intros H w. by exists ls. Qed.

Lemma quiet_print (l : Program.line) : saved_paths [l] = [] -> quiet (Program.print l).
Proof. intros H w. by exists [l]. Qed.

Lemma quiet_bind {A B} (m : Program.M A) (k : A -> Program.M B) :
  quiet m -> (forall a, quiet (k a)) -> quiet (Program.mbind m k).
Proof.
  intros Hm Hk w. destruct (Hm w) as (l1 & S1 & E1). unfold Program.mbind.
  destruct (m w) as [w1 [a | e]]; cbn [fst] in E1; subst w1.
  - destruct (Hk a (Program.mkWorld (Program.stdout w ++ l1) (Program.disk w)))
      as (l2 & S2 & E2).
    exists (l1 ++ l2). rewrite saved_paths_app, S1, S2. split; [done |].
    rewrite E2. cbn [Program.stdout Program.disk]. by rewrite app_assoc.
  - by exists l1.
Qed.

Lemma accounts_ret (path_of : pystr -> pystr) : accounts path_of (Program.ret []).
Proof. intros w. exists []. split; [apply grows_refl |]. by intros paths [= <-]. Qed.

Lemma accounts_after (path_of : pystr -> pystr) {A} (m : Program.M A)
    (k : A -> Program.M (list pystr)) :
  quiet m -> (forall a, accounts path_of (k a)) -> accounts path_of (Program.mbind m k).
Proof.
  intros Hm Hk w. destruct (Hm w) as (l1 & S1 & E1). unfold Program.mbind.
  destruct (m w) as [w1 [a | e]]; cbn [fst] in E1; subst w1.
  - destruct (Hk a (Program.mkWorld (Program.stdout w ++ l1) (Program.disk w)))
      as (new & Hg & Hr).
    exists (l1 ++ new). split.
    + eapply grows_trans; [by apply grows_lines | exact Hg].
    + intros paths Hp. rewrite saved_paths_app, S1. by apply Hr.
  - exists l1. split; [| done]. cbn [fst snd slack].
    apply (grows_weaken _ _ _ _ 0); [lia | by apply grows_lines].
Qed.

(** The loop over the articles, then the two closing lines. *)
Lemma accounts_export (ext : Externals) (path_str : pystr -> pystr -> pystr)
    (output_dir : pystr) (articles : list ET.Element) :
  accounts (path_str output_dir)
    (Program.mbind (Program.export_all ext path_str output_dir 0 articles [])
       (fun exported_files =>
          Program.mbind (Program.print (Program.Done (length exported_files)))
            (fun _ =>
               Program.mbind (Program.print (Program.OutputDir output_dir))
                 (fun _ => Program.ret exported_files)))).
Proof.
  intros w. unfold Program.mbind, Program.print, Program.ret.
  destruct (Program.export_all ext path_str output_dir 0 articles [] w) as [w1 r] eqn:E.
  apply export_all_grows in E as (new & Hg & Hr).
  destruct r as [paths | e]; cbn [fst snd Program.stdout Program.disk slack] in *.
  - destruct (Hr paths eq_refl) as [-> _]. rewrite <- app_assoc. cbn [app].
    exists (new ++ [Program.Done (length (saved_paths new)); Program.OutputDir output_dir]).
    split.
    + eapply grows_trans; [exact Hg | by apply grows_lines].
    + intros paths [= <-]. rewrite saved_paths_app. cbn. by rewrite app_nil_r.
  - exists new. by split.
Qed.

Lemma accounts_reporting (path_of : pystr -> pystr) (m : Program.M (list pystr)) :
  accounts path_of m -> accounts path_of (Program.reporting m).
Proof.
  intros Hm w. destruct (Hm w) as (new & Hg & Hr). unfold Program.reporting.
  destruct (m w) as [w1 [paths | e]]; cbn [fst snd slack] in *.
  - by exists new.
  - exists (new ++ [Program.ErrorLine e]). split; [| done].
    destruct Hg as (E & K & S & L). unfold grows. cbn [Program.stdout Program.disk].
    rewrite E, app_assoc, saved_paths_app. cbn [saved_paths flat_map app].
    rewrite app_nil_r. by repeat split.
Qed.

Lemma saved_paths_channel (article_tag : pystr) (l : list ET.Element) :
  forall i, saved_paths (Program.list_channel article_tag i l) = [].
Proof.
  induction l as [|c l IH]; intros i; [done |].
  cbn [Program.list_channel]. rewrite !saved_paths_app.
  destruct (str_eqb _ article_tag), (15 <=? i); rewrite ?(IH (S i)); reflexivity.
Qed.

Lemma saved_paths_tags (l : list pystr) : saved_paths (map Program.TagLine l) = [].
Proof. induction l as [|t l IH]; [done |]. exact IH. Qed.

Lemma quiet_parse (ET_parse : pystr -> ET.Element + Program.io_error)
    (self : Program.parser) :
  quiet (Program.parse ET_parse self).
Proof.
  unfold Program.parse. destruct (ET_parse _) as [r | []].
  - apply quiet_ret.
  - apply quiet_bind; [by apply quiet_print | intros _; apply quiet_raise].
  - apply quiet_bind; [by apply quiet_print | intros _; apply quiet_raise].
  - apply quiet_raise.
Qed.

Lemma quiet_find_articles (ET_parse : pystr -> ET.Element + Program.io_error)
    (self : Program.parser) (article_tag : pystr) :
  quiet (Program.find_articles ET_parse self article_tag).
Proof.
  unfold Program.find_articles. apply quiet_bind.
  - destruct (Program.root self); [apply quiet_ret | apply quiet_parse].
  - intros sr. apply quiet_bind; [apply quiet_lift | intros a; apply quiet_ret].
Qed.

Lemma accounts_process (ext : Externals) (ET_parse : pystr -> ET.Element + Program.io_error)
    (mkdir : pystr -> option Program.io_error) (path_str : pystr -> pystr -> pystr)
    (xml_path output_dir article_tag : pystr) :
  accounts (path_str output_dir)
    (Program.process_xml_to_markdown ext ET_parse mkdir path_str
       xml_path output_dir article_tag).
Proof.
  unfold Program.process_xml_to_markdown.
  apply accounts_after; [by apply quiet_print | intros _].
  apply accounts_after; [destruct (mkdir output_dir); [apply quiet_raise | apply quiet_ret] |].
  intros _. apply accounts_reporting.
  apply accounts_after; [apply quiet_parse | intros pr].
  apply accounts_after; [by apply quiet_print | intros _].
  apply accounts_after;
    [destruct (Program.root (fst pr)); [apply quiet_ret | apply quiet_raise] | intros root].
  apply accounts_after; [by apply quiet_print | intros _].
  apply accounts_after; [apply quiet_lift | intros channel].
  apply accounts_after.
  { destruct channel as [channel|]; [| apply quiet_ret].
    apply quiet_bind; [by apply quiet_print | intros _].
    apply quiet_bind; [by apply quiet_print | intros _].
    apply quiet_print_all. apply saved_paths_channel. }
  intros _. apply accounts_after; [apply quiet_find_articles | intros pa].
  apply accounts_after; [by apply quiet_print | intros _].
  destruct (snd pa) as [|a articles] eqn:Ea.
  - apply accounts_after; [by apply quiet_print | intros _].
    apply accounts_after; [by apply quiet_print | intros _].
    apply accounts_after; [by apply quiet_print | intros _].
    apply accounts_after; [by apply quiet_print | intros _].
    apply accounts_after; [apply quiet_print_all, saved_paths_tags | intros _].
    apply accounts_ret.
  - apply accounts_export.
Qed.

Lemma run_raise_reported (ext : Externals)
    (ET_parse : pystr -> ET.Element + Program.io_error)
    (mkdir : pystr -> option Program.io_error) (path_str : pystr -> pystr -> pystr)
    (xml_path output_dir article_tag : pystr) (w : Program.world) (e : Program.raised) :
  mkdir output_dir = None ->
  snd (Program.process_xml_to_markdown ext ET_parse mkdir path_str
         xml_path output_dir article_tag w) = Program.Raised e ->
  list.last (Program.stdout (fst (Program.process_xml_to_markdown ext ET_parse mkdir
                                    path_str xml_path output_dir article_tag w)))
  = Some (Program.ErrorLine e).
Proof.
  intros Hmk. unfold Program.process_xml_to_markdown. rewrite Hmk.
  set (body := Program.mbind (Program.parse _ _) _).
  unfold Program.mbind, Program.print, Program.ret, Program.reporting.
  destruct (body _) as [w1 [paths | e1]]; cbn [fst snd]; [done |].
  intros [= ->]. cbn [Program.stdout]. apply last_snoc.
Qed.

(** X17. Whatever the run does, and whether it returns or raises: no name
    of a file that was there is lost, every path that a line reports as
    saved names a file that is there afterwards, and there are at most as
    many new files as such lines, or one more when the run raises (a file
    that was opened and could not be written stays, empty); a returned
    list is exactly the list of the reported paths, and an exception
    raised once the directory exists is reported on the last line before
    it is raised again. *)
Theorem run_accounts_for_files (ext : Externals)
    (ET_parse : pystr -> ET.Element + Program.io_error)
    (mkdir : pystr -> option Program.io_error) (path_str : pystr -> pystr -> pystr)
    (xml_path output_dir article_tag : pystr) (fs : files) :
  let run := Program.process_xml_to_markdown ext ET_parse mkdir path_str
               xml_path output_dir article_tag (Program.mkWorld [] fs) in
  (forall name, dict_mem fs name = true ->
                dict_mem (Program.disk (fst run)) name = true) /\
  (forall p, In p (saved_paths (Program.stdout (fst run))) ->
     exists name, p = path_str output_dir name /\
                  dict_mem (Program.disk (fst run)) name = true) /\
  length (Program.disk (fst run))
  <= length fs + length (saved_paths (Program.stdout (fst run))) + slack (snd run) /\
  (forall paths, snd run = Program.Returned paths ->
                 paths = saved_paths (Program.stdout (fst run))) /\
  (forall e, snd run = Program.Raised e -> mkdir output_dir = None ->
             list.last (Program.stdout (fst run)) = Some (Program.ErrorLine e)).
Proof.
  intros run.
  destruct (accounts_process ext ET_parse mkdir path_str xml_path output_dir article_tag
              (Program.mkWorld [] fs)) as (new & (E & K & S & L) & R).
  fold run in E, K, S, L, R. cbn [Program.stdout Program.disk app] in E, K, L.
  split; [done |]. split; [by rewrite E |]. split; [by rewrite E |].
  split; [by rewrite E |].
  intros e He Hmk. by apply run_raise_reported.
Qed.

(** A write that fails leaves the file behind: the name of this file is
    too long for the system, and the run raises without a file. *)
Example long_name_raises :
  list_sum (map name_bytes (_sanitize_filename no_externals long_title ++ u ".md")) = 303 /\
  exists w',
    Program.process_xml_to_markdown no_externals (fun _ => inl long_title_feed)
      (fun _ => None) join_path (u "feed.xml") (u "assets") (u "item")
      (Program.mkWorld [] [])
    = (w', Program.Raised (Program.Py OSError)) /\
    Program.disk w' = [].
Proof. split; [by vm_compute |]. eexists. split; [vm_compute; reflexivity | reflexivity]. Qed.

Lemma find_channel (root : ET.Element) :
  ET_find.find root (u ".//channel") = Ok (first_descendant root (u "channel")).
Proof. apply find_fixed; by vm_compute. Qed.

Lemma tag_lines_app (a b : list Program.line) :
  tag_lines (a ++ b) = tag_lines a ++ tag_lines b.
Proof. unfold tag_lines. apply flat_map_app. Qed.

Lemma tag_lines_channel (article_tag : pystr) (l : list ET.Element) :
  forall i, tag_lines (Program.list_channel article_tag i l) = [].
Proof.
  induction l as [|c l IH]; intros i; [done |].
  cbn [Program.list_channel]. rewrite !tag_lines_app.
  destruct (str_eqb _ article_tag), (15 <=? i); rewrite ?(IH (S i)); reflexivity.
Qed.

Lemma tag_lines_tags (l : list pystr) : tag_lines (map Program.TagLine l) = l.
Proof. induction l as [|t l IH]; [done |]. cbn. f_equal. exact IH. Qed.

Lemma filter_none {A} (p : A -> bool) (l : list A) :
  (forall x, In x l -> p x = false) -> List.filter p l = [].
Proof.
  induction l as [|a l IH]; intros H; [done |]. cbn [List.filter].
  rewrite (H a (or_introl eq_refl)). apply IH. intros x Hx. apply H. by right.
Qed.

(** *** [sorted(set(...))] *)

Lemma str_lt_irrefl (a : pystr) : ~ str_lt a a.
Proof.
  unfold str_lt. induction a as [|x a IH]; cbn [Program.str_ltb]; [done |].
  rewrite N.ltb_irrefl, N.eqb_refl. exact IH.
Qed.

Lemma str_lt_trans (a b c : pystr) : str_lt a b -> str_lt b c -> str_lt a c.
Proof.
  unfold str_lt. revert b c. induction a as [|x a IH]; intros [|y b] [|z c];
    cbn [Program.str_ltb]; try done.
  rewrite !orb_true_iff, !andb_true_iff, !N.ltb_lt, !N.eqb_eq.
  intros [H1 | [-> H1]] [H2 | [-> H2]].
  - left. lia.
  - by left.
  - by left.
  - right. split; [done | by apply (IH b c)].
Qed.

Lemma str_lt_total (a b : pystr) : a <> b -> ~ str_lt a b -> str_lt b a.
Proof.
  unfold str_lt. revert b. induction a as [|x a IH]; intros [|y b];
    cbn [Program.str_ltb]; try done.
  rewrite !orb_true_iff, !andb_true_iff, !N.ltb_lt, !N.eqb_eq.
  intros Hne Hn.
  destruct (N.lt_trichotomy x y) as [H | [-> | H]]; [tauto | | by left].
  right. split; [done |]. apply IH; [congruence | tauto].
Qed.

Lemma insert_sorted_In (x y : pystr) (l : list pystr) :
  In y (Program.insert_sorted x l) <-> y = x \/ In y l.
Proof.
  induction l as [|z l IH]; cbn [Program.insert_sorted In]; [intuition |].
  destruct (str_eqb x z) eqn:E.
  - apply str_eqb_eq in E. subst z. cbn [In]. intuition.
  - destruct (Program.str_ltb x z); cbn [In]; [intuition |]. rewrite IH. intuition.
Qed.

Lemma insert_sorted_HdRel (x y : pystr) (l : list pystr) :
  str_lt y x -> HdRel str_lt y l -> HdRel str_lt y (Program.insert_sorted x l).
Proof.
  intros Hyx Hl. destruct l as [|z l]; cbn [Program.insert_sorted]; [by constructor |].
  destruct (str_eqb x z); [done |].
  destruct (Program.str_ltb x z); constructor; [done |]. by inversion Hl.
Qed.

Lemma insert_sorted_Sorted (x : pystr) (l : list pystr) :
  Sorted str_lt l -> Sorted str_lt (Program.insert_sorted x l).
Proof.
  induction 1 as [|z l Hs IH Hh]; cbn [Program.insert_sorted]; [by repeat constructor |].
  destruct (str_eqb x z) eqn:E; [by constructor |]. apply str_eqb_neq in E.
  destruct (Program.str_ltb x z) eqn:L.
  - constructor; [by constructor | by constructor].
  - constructor; [exact IH |]. apply insert_sorted_HdRel; [| done].
    apply str_lt_total; [done |]. unfold str_lt. by rewrite L.
Qed.

(** The names come out once each, in the order of their code points, and
    they are the names that went in. *)
Lemma sorted_set_spec (l : list pystr) :
  StronglySorted str_lt (Program.sorted_set l) /\
  List.NoDup (Program.sorted_set l) /\
  forall x, In x (Program.sorted_set l) <-> In x l.
Proof.
  assert (Hs : Sorted str_lt (Program.sorted_set l)).
  { induction l as [|a l IH]; [constructor |]. by apply insert_sorted_Sorted. }
  assert (Hss : StronglySorted str_lt (Program.sorted_set l)).
  { apply Sorted_StronglySorted; [| done]. intros a b c. apply str_lt_trans. }
  split; [done |]. split.
  - clear Hs. induction Hss as [|a s Hss IH Hall]; constructor; [| done].
    intros Hin. rewrite List.Forall_forall in Hall. by apply (str_lt_irrefl a), Hall.
  - clear Hs Hss. induction l as [|a l IH]; [done |]. intros x.
    change (Program.sorted_set (a :: l))
      with (Program.insert_sorted a (Program.sorted_set l)).
    rewrite insert_sorted_In, IH. cbn [In]. intuition.
Qed.

(** X18. When the document is read, the directory exists, the article tag
    is a tag name and no proper descendant of the root carries it, the run
    writes nothing and returns the empty list; the last lines that it
    prints are the four lines of the warning and then, one on a line, the
    bare names of the elements of the document: every name once, in the
    order of the code points. *)
Theorem run_without_articles (ext : Externals)
    (ET_parse : pystr -> ET.Element + Program.io_error)
    (mkdir : pystr -> option Program.io_error) (path_str : pystr -> pystr -> pystr)
    (xml_path output_dir article_tag : pystr) (root : ET.Element) (fs : files) :
  ET_parse xml_path = inl root -> mkdir output_dir = None ->
  tag_name article_tag = true ->
  (forall d, In d (ET.descendants root) -> ET.tag d <> article_tag) ->
  exists before names,
    Program.process_xml_to_markdown ext ET_parse mkdir path_str
      xml_path output_dir article_tag (Program.mkWorld [] fs)
    = (Program.mkWorld (before ++ warning_lines ++ map Program.TagLine names) fs,
       Program.Returned []) /\
    tag_lines before = [] /\
    StronglySorted str_lt names /\
    List.NoDup names /\
    forall x, In x names <->
              exists e, In e (ET.iter root) /\ _cleanup_tag_name (ET.tag e) = x.
Proof.
  intros Hp Hmk Hv Hnone.
  set (names := Program.sorted_set
                  (map (fun e => _cleanup_tag_name (ET.tag e)) (ET.iter root))).
  destruct (sorted_set_spec (map (fun e => _cleanup_tag_name (ET.tag e)) (ET.iter root)))
    as (Hs & Hnd & Hin). fold names in Hs, Hnd, Hin.
  assert (Hnames : forall x, In x names <->
                     exists e, In e (ET.iter root) /\ _cleanup_tag_name (ET.tag e) = x).
  { intros x. rewrite Hin, in_map_iff. split; intros (e & H1 & H2); by exists e. }
  unfold Program.process_xml_to_markdown, Program.find_articles, Program.parse.
  cbn [Program.xml_path Program.root]. rewrite Hp, Hmk.
  unfold Program.mbind, Program.print, Program.print_all, Program.ret,
    Program.reporting, Program.lift, Program.raise.
  cbn [fst snd Program.root Program.stdout Program.disk].
  rewrite find_channel, (findall_tag_name root article_tag Hv).
  rewrite filter_none.
  2:{ intros d Hd. apply str_eqb_neq. by apply Hnone. }
  unfold Program.ret. fold names.
  destruct (first_descendant root (u "channel")) as [channel|];
    cbn [fst snd Program.stdout Program.disk length].
  - exists ([Program.Reading xml_path; Program.StructureHeading;
             Program.RootTag (_cleanup_tag_name (ET.tag root));
             Program.ChannelFound;
             Program.ChannelCount (length (ET.children channel))]
            ++ Program.list_channel article_tag 0 (ET.children channel)
            ++ [Program.ArticlesFound 0]), names.
    split; [| split; [| split; [exact Hs | split; [exact Hnd | exact Hnames]]]].
    + unfold warning_lines. rewrite <- ?app_assoc. reflexivity.
    + rewrite !tag_lines_app, tag_lines_channel. reflexivity.
  - exists [Program.Reading xml_path; Program.StructureHeading;
            Program.RootTag (_cleanup_tag_name (ET.tag root));
            Program.ArticlesFound 0], names.
    split; [| split; [| split; [exact Hs | split; [exact Hnd | exact Hnames]]]].
    + unfold warning_lines. rewrite <- ?app_assoc. reflexivity.
    + reflexivity.
Qed.

Lemma run_without_articles_witness :
  exists before,
    Program.process_xml_to_markdown no_externals (fun _ => inl empty_feed)
      (fun _ => None) join_path (u "feed.xml") (u "assets") (u "item")
      (Program.mkWorld [] [])
    = (Program.mkWorld
         (before ++ warning_lines
          ++ map Program.TagLine [u "channel"; u "rss"; u "title"]) [],
       Program.Returned []) /\
    tag_lines before = [].
Proof.
  destruct (run_without_articles no_externals (fun _ => inl empty_feed)
              (fun _ => None) join_path (u "feed.xml") (u "assets") (u "item")
              empty_feed []) as (before & names & Hrun & Hb & _).
  - reflexivity.
  - reflexivity.
  - reflexivity.
  - intros d Hd. vm_compute in Hd.
    by destruct Hd as [<- | [<- | []]].
  - exists [Program.Reading (u "feed.xml"); Program.StructureHeading;
            Program.RootTag (u "rss"); Program.ChannelFound; Program.ChannelCount 1;
            Program.ChildTag (u "title"); Program.ArticlesFound 0].
    split; [| reflexivity]. clear Hrun. vm_compute. reflexivity.
Defined.

Lemma export_all_ok (ext : Externals) (path_str : pystr -> pystr -> pystr)
    (output_dir : pystr) (articles : list ET.Element) :
  forall (i : nat) (exported : list pystr) (w : Program.world),
    (forall k a, articles !! k = Some a ->
       (forall c, In c (ET.children a) -> shadowing c = false) /\
       forall r, extract_article_content a = Ok r -> writable ext r (i + k)) ->
    exists w' paths,
      Program.export_all ext path_str output_dir i articles exported w
      = (w', Program.Returned paths).
Proof.
  induction articles as [|article rest IH]; intros i exported w Hall.
  - by exists w, exported.
  - destruct (Hall 0 article eq_refl) as [Hno Hw].
    destruct (extract_total article Hno) as (r & m & Hr & Hom & _).
    pose proof (extract_shaped article r Hr) as Hs.
    destruct (Hw r Hr) as (Hp & Hopen & Henc). rewrite Nat.add_0_r in Hopen, Henc.
    destruct (prepare_ok ext r m i Hs Hom Hp) as (doc & r' & Eprep & [_ Hf] & _).
    assert (He : export_article ext (Program.disk w) r i
                 = (dict_set (Program.disk w) (file_name ext r i) doc,
                    Ok (r', file_name ext r i))).
    { unfold export_article. rewrite Eprep, Hopen.
      by rewrite (Henc _ _ _ Eprep). }
    destruct (Hf (u "title")) as [t Ht]; [vm_compute; tauto |].
    destruct (Hf (u "link")) as [l Hl]; [vm_compute; tauto |].
    destruct (Hf (u "post_date")) as [p Hpd]; [vm_compute; tauto |].
    cbn [Program.export_all].
    unfold Program.mbind, Program.lift, Program.print, Program.ret, Program.raise, getitem.
    rewrite Hr, He. cbn [fst snd]. rewrite Ht, Hl, Hpd.
    destruct (truthy (VStr t)); apply IH; intros k a Hk;
      specialize (Hall (S k) a Hk); by rewrite Nat.add_succ_r in Hall.
Qed.

(** X19. When the document is read, the directory exists, the article tag
    is a tag name, and every article (a proper descendant of the root that
    carries the tag) has no flagged child named [other_metadata] and can be
    exported under its index (the parser accepts its content, its file can
    be opened, its document can be encoded), the run returns: one path for
    each article, each naming a file that is there afterwards. *)
Theorem run_exports_every_article (ext : Externals)
    (ET_parse : pystr -> ET.Element + Program.io_error)
    (mkdir : pystr -> option Program.io_error) (path_str : pystr -> pystr -> pystr)
    (xml_path output_dir article_tag : pystr) (root : ET.Element) (fs : files) :
  ET_parse xml_path = inl root -> mkdir output_dir = None ->
  tag_name article_tag = true ->
  (forall i a,
     List.filter (fun d => str_eqb (ET.tag d) article_tag) (ET.descendants root) !! i
     = Some a ->
     (forall c, In c (ET.children a) -> shadowing c = false) /\
     forall r, extract_article_content a = Ok r -> writable ext r i) ->
  exists w' paths,
    Program.process_xml_to_markdown ext ET_parse mkdir path_str
      xml_path output_dir article_tag (Program.mkWorld [] fs)
    = (w', Program.Returned paths) /\
    length paths
    = length (List.filter (fun d => str_eqb (ET.tag d) article_tag) (ET.descendants root)) /\
    Forall (fun p => exists name, p = path_str output_dir name /\
                                  dict_mem (Program.disk w') name = true) paths.
Proof.
  intros Hp Hmk Hv Hall.
  set (articles := List.filter (fun d => str_eqb (ET.tag d) article_tag)
                               (ET.descendants root)) in *.
  assert (Hrun : exists w' paths,
            Program.process_xml_to_markdown ext ET_parse mkdir path_str
              xml_path output_dir article_tag (Program.mkWorld [] fs)
            = (w', Program.Returned paths) /\ length paths = length articles).
  { unfold Program.process_xml_to_markdown, Program.find_articles, Program.parse.
    cbn [Program.xml_path Program.root]. rewrite Hp, Hmk.
    unfold Program.mbind, Program.print, Program.print_all, Program.ret,
      Program.reporting, Program.lift, Program.raise.
    cbn [fst snd Program.root Program.stdout Program.disk].
    rewrite find_channel, (findall_tag_name root article_tag Hv). fold articles.
    unfold Program.ret.
    destruct (first_descendant root (u "channel")) as [channel|];
      cbn [fst snd Program.stdout Program.disk];
      (destruct articles as [|a rest] eqn:Ea; [by eexists _, _ |]);
      match goal with
      | |- context [Program.export_all ext path_str output_dir 0 (a :: rest) [] ?w] =>
          destruct (export_all_ok ext path_str output_dir (a :: rest) 0 [] w Hall)
            as (w1 & paths & He);
          rewrite He;
          apply export_all_grows in He as (new & _ & Hlen);
          destruct (Hlen paths eq_refl) as [-> Hl]
      end;
      eexists _, _; (split; [reflexivity | exact Hl]). }
  destruct Hrun as (w' & paths & Hrun & Hlen). exists w', paths.
  split; [done |]. split; [done |].
  destruct (accounts_process ext ET_parse mkdir path_str xml_path output_dir article_tag
              (Program.mkWorld [] fs)) as (new & (_ & _ & S & _) & R).
  rewrite Hrun in S, R. cbn [fst snd] in S, R.
  rewrite (R paths eq_refl). apply List.Forall_forall. exact S.
Qed.

Lemma run_exports_every_article_witness :
  exists w' paths,
    Program.process_xml_to_markdown no_externals (fun _ => inl two_item_feed)
      (fun _ => None) join_path (u "feed.xml") (u "assets") (u "item")
      (Program.mkWorld [] [])
    = (w', Program.Returned paths) /\
    paths = [u "assets/Hello.md"; u "assets/article_001.md"] /\
    keys (Program.disk w') = [u "Hello.md"; u "article_001.md"].
Proof.
  destruct (run_exports_every_article no_externals (fun _ => inl two_item_feed)
              (fun _ => None) join_path (u "feed.xml") (u "assets") (u "item")
              two_item_feed []) as (w' & paths & Hrun & _ & _).
  - reflexivity.
  - reflexivity.
  - reflexivity.
  - intros i a Ha. vm_compute in Ha.
    destruct i as [|[|i]]; [| | discriminate Ha]; injection Ha as <-.
    + split.
      * intros c Hc. vm_compute in Hc. by destruct Hc as [<- | []].
      * intros r Hr. vm_compute in Hr. injection Hr as <-.
        split; [exact I |]. split; [reflexivity |].
        intros name d' doc E. vm_compute in E. injection E as _ _ <-. reflexivity.
    + split.
      * intros c Hc. vm_compute in Hc. by destruct Hc as [<- | []].
      * intros r Hr. vm_compute in Hr. injection Hr as <-.
        split; [exact I |]. split; [reflexivity |].
        intros name d' doc E. vm_compute in E. injection E as _ _ <-. reflexivity.
  - exists w', paths. split; [exact Hrun |].
    vm_compute in Hrun. injection Hrun as <- <-. split; reflexivity.
Defined.

(** ** Export: the names of untitled articles *)

Lemma value_of_uint (d : Decimal.uint) :
  forall acc,
    fold_left (fun a c => 10 * a + (N.to_nat c - 48))
              (u (DecimalString.NilEmpty.string_of_uint d)) acc
    = Nat.of_uint_acc d acc.
Proof.
  induction d as [| d IH | d IH | d IH | d IH | d IH | d IH | d IH | d IH | d IH | d IH];
    intros acc; [reflexivity | ..];
    cbn [DecimalString.NilEmpty.string_of_uint Nat.of_uint_acc];
    rewrite Nat.tail_mul_spec, <- IH;
    change (u (String ?a ?s)) with (N_of_ascii a :: u s); cbn [fold_left];
    f_equal; vm_compute (N.to_nat _ - 48); lia.
Qed.

Lemma value_of_decimal (n : nat) : value_of (decimal n) = n.
Proof.
  unfold value_of, decimal, DecimalString.NilZero.string_of_uint.
  rewrite <- (Stdlib.Numbers.DecimalNat.Unsigned.of_to n) at 2. unfold Nat.of_uint.
  destruct (Nat.to_uint n) eqn:E; try (rewrite <- E; apply value_of_uint); reflexivity.
Qed.

Lemma value_of_pad3 (n : nat) : value_of (pad3 n) = n.
Proof.
  unfold pad3. rewrite <- (value_of_decimal n) at 3. unfold value_of.
  rewrite fold_left_app. f_equal.
  induction (3 - length (decimal n)) as [|k IH]; [reflexivity |]. exact IH.
Qed.

Lemma pad3_inj (i j : nat) : pad3 i = pad3 j -> i = j.
Proof. intros H. by rewrite <- (value_of_pad3 i), <- (value_of_pad3 j), H. Qed.

(** X20. An article without a title is written to [article_] followed by
    its index in at least three digits and [.md]; the digits denote the
    index, so that different indices give different names. *)
Theorem untitled_names_distinct (ext : Externals) (fs1 fs2 fs1' fs2' : files)
    (d1 d2 d1' d2' : dict) (i j : nat) (name1 name2 : pystr) :
  dict_get d1 (u "title") = Some (VStr []) ->
  dict_get d2 (u "title") = Some (VStr []) ->
  export_article ext fs1 d1 i = (fs1', Ok (d1', name1)) ->
  export_article ext fs2 d2 j = (fs2', Ok (d2', name2)) ->
  name1 = u "article_" ++ pad3 i ++ u ".md" /\
  3 <= length (pad3 i) /\
  value_of (pad3 i) = i /\
  (i <> j -> name1 <> name2).
Proof.
  intros Ht1 Ht2 H1 H2.
  assert (Hname : forall fs d k fs' d' name,
            dict_get d (u "title") = Some (VStr []) ->
            export_article ext fs d k = (fs', Ok (d', name)) ->
            name = u "article_" ++ pad3 k ++ u ".md").
  { intros fs d k fs' d' name Ht H. unfold export_article, prepare_article, getitem in H.
    rewrite Ht in H. cbn [bind truthy nonempty] in H.
    destruct (dict_get d (u "content")) as [body|]; [| done]. cbn [bind] in H.
    destruct (if truthy body then _ else _) as [dd|]; [| done]. cbn [bind] in H.
    destruct (_format_as_markdown dd) as [doc|]; [| done]. cbn [bind] in H.
    destruct (open_for_writing _); [| done].
    destruct (utf8_encodable doc); [| done].
    by injection H as _ _ <-. }
  rewrite (Hname _ _ _ _ _ _ Ht1 H1), (Hname _ _ _ _ _ _ Ht2 H2).
  split; [done |]. split; [| split; [apply value_of_pad3 |]].
  - unfold pad3. rewrite length_app, length_replicate. lia.
  - intros Hij E. apply Hij. apply app_inv_head in E. apply app_inv_tail in E.
    by apply pad3_inj.
Qed.

Lemma untitled_names_distinct_witness :
  (exists fs d, export_article no_externals [] untitled_record 7
                = (fs, Ok (d, u "article_007.md"))) /\
  (exists fs d, export_article no_externals [] untitled_record 1234
                = (fs, Ok (d, u "article_1234.md"))) /\
  u "article_007.md" <> u "article_1234.md".
Proof.
  pose (out := fun r : files * result (dict * pystr) =>
                 match r with
                 | (fs, Ok (d, _)) => (fs, d)
                 | (fs, Raise _) => (fs, [])
                 end).
  pose (o1 := out (export_article no_externals [] untitled_record 7)).
  pose (o2 := out (export_article no_externals [] untitled_record 1234)).
  assert (E1 : export_article no_externals [] untitled_record 7
               = (fst o1, Ok (snd o1, u "article_007.md")))
    by (vm_compute; reflexivity).
  assert (E2 : export_article no_externals [] untitled_record 1234
               = (fst o2, Ok (snd o2, u "article_1234.md")))
    by (vm_compute; reflexivity).
  split; [by eexists _, _ |]. split; [by eexists _, _ |].
  refine (proj2 (proj2 (proj2 (untitled_names_distinct no_externals [] [] _ _
                          untitled_record untitled_record _ _ 7 1234 _ _
                          eq_refl eq_refl E1 E2))) _).
  lia.
Defined.

(** ** Markup Converter: documents made of headings and paragraphs *)

Lemma process_block (f : nat) (h : heap) (i : nat) (b : block) :
  h !! i = Some (cell_of b) -> In (fst (fst b)) block_names -> snd b <> [] ->
  _process_element (S (S f)) h i = Ok (<[i := cell_of (convert b)]> h).
Proof.
  destruct b as [[nm at_] t]. unfold cell_of, convert, render. cbn [fst snd].
  intros Hc Hin Ht. destruct t as [|x t]; [done |].
  assert (Hl : bs4.lookup h i = Ok (mkCell nm at_ [IStr true (x :: t)]))
    by (unfold bs4.lookup; by rewrite Hc).
  assert (He : i < length h) by (by eapply lookup_lt_Some).
  assert (Hafter : forall s,
            (found <- find_all (S f) (set_string h i s) i ;;
             for_each (fun h child => _process_element (S f) h child) found
                      (set_string h i s))
            = Ok (<[i := mkCell nm at_ [IStr true s]]> h)).
  { intros s. unfold set_string. rewrite Hc. unfold find_all. cbn [descendants].
    unfold bs4.lookup. rewrite list_lookup_insert_eq by done. reflexivity. }
  assert (Hs : string (S f) h i = Ok (Some (x :: t))).
  { cbn [string]. by rewrite Hl. }
  remember (S f) as g eqn:Hg.
  cbn [_process_element]. rewrite Hl. cbn [bind name]. rewrite Hs. cbn [bind].
  unfold block_names in Hin.
  repeat (destruct Hin as [<- | Hin];
          [eval_str_eqb; cbn [bind fmt]; rewrite Hafter; reflexivity |]).
  destruct Hin.
Qed.

Lemma process_blocks (c0 : cell) (f : nat) (todo : list block) :
  Forall (fun b => In (fst (fst b)) block_names /\ snd b <> []) todo ->
  forall done : list cell,
    for_each (fun h child => _process_element (S (S f)) h child)
             (seq (S (length done)) (length todo))
             (c0 :: done ++ map cell_of todo)
    = Ok (c0 :: done ++ map cell_of (map convert todo)).
Proof.
  induction 1 as [|b todo [Hn Ht] _ IH]; intros done; [reflexivity |].
  cbn [length seq for_each map].
  rewrite (process_block f _ (S (length done)) b); [| | done | done].
  2:{ cbn. by apply list_lookup_middle. }
  cbn [bind]. change (<[S (length done) := ?x]> (c0 :: ?l)) with (c0 :: <[length done := x]> l).
  rewrite insert_app_r_alt by lia. rewrite Nat.sub_diag.
  change (<[0 := ?x]> (?y :: ?l)) with (x :: l).
  specialize (IH (done ++ [cell_of (convert b)])).
  rewrite length_app, Nat.add_1_r, <- !app_assoc in IH. exact IH.
Qed.

Lemma alloc_blocks (bs : list block) :
  forall base,
    alloc_list base (map block_node bs)
    = (map IRef (seq base (length bs)), map cell_of bs).
Proof.
  induction bs as [|b bs IH]; intros base; [reflexivity |].
  cbn [map alloc_list length seq]. unfold block_node at 1. rewrite alloc_Tag.
  cbn [alloc_list alloc length app]. rewrite Nat.add_1_r, IH. reflexivity.
Qed.

Lemma load_blocks (bs : list block) :
  load (map block_node bs)
  = mkCell document_name [] (map IRef (seq 1 (length bs))) :: map cell_of bs.
Proof. unfold load. rewrite alloc_Tag, alloc_blocks. reflexivity. Qed.

(** Everything below the soup of a heap of blocks: each tag and its text. *)
Lemma descendants_blocks (c0 : cell) (items : list block) (f : nat) :
  contents c0 = map IRef (seq 1 (length items)) ->
  descendants (S (S f)) (c0 :: map cell_of items) 0
  = Ok (flat_map (fun jb : nat * block => [IRef (fst jb); IStr true (snd (snd jb))])
                 (combine (seq 1 (length items)) items)).
Proof.
  intros Hc0. remember (S f) as g eqn:Hg. cbn [descendants]. unfold bs4.lookup at 1.
  change ((c0 :: map cell_of items) !! 0) with (Some c0). cbn [bind].
  rewrite Hc0. subst g.
  assert (Hloop : forall m k,
            k + m = length items ->
            map_each (fun it => match it with
                                | IStr _ _ => Ok [it]
                                | IRef j =>
                                    sub <- descendants (S f) (c0 :: map cell_of items) j ;;
                                    Ok (it :: sub)
                                end) (map IRef (seq (S k) m))
            = Ok (map (fun jb : nat * block => [IRef (fst jb); IStr true (snd (snd jb))])
                      (combine (seq (S k) m) (drop k items)))).
  { induction m as [|m IHm]; intros k Hk; [reflexivity |].
    destruct (lookup_lt_is_Some_2 items k) as [b Hb]; [lia |].
    rewrite (drop_S _ _ _ Hb). cbn [seq map map_each combine].
    assert (Hd : descendants (S f) (c0 :: map cell_of items) (S k)
                 = Ok [IStr true (snd b)]).
    { cbn [descendants]. unfold bs4.lookup.
      change ((c0 :: map cell_of items) !! S k) with (map cell_of items !! k).
      rewrite list_lookup_fmap, Hb. reflexivity. }
    rewrite Hd. cbn [bind]. rewrite (IHm (S k)) by lia. reflexivity. }
  rewrite (Hloop (length items) 0) by lia. cbn [bind]. rewrite drop_0.
  by rewrite flat_map_concat_map.
Qed.

Lemma refs_blocks (l : list (nat * block)) :
  refs (flat_map (fun jb : nat * block => [IRef (fst jb); IStr true (snd (snd jb))]) l)
  = map fst l.
Proof. induction l as [|a l IH]; [done |]. unfold refs in *. cbn. by rewrite IH. Qed.

Lemma strings_blocks (l : list (nat * block)) :
  strings (flat_map (fun jb : nat * block => [IRef (fst jb); IStr true (snd (snd jb))]) l)
  = map (fun jb => snd (snd jb)) l.
Proof. induction l as [|a l IH]; [done |]. unfold strings in *. cbn. by rewrite IH. Qed.

Lemma map_fst_combine {A B} (l : list A) (k : list B) :
  length l = length k -> map fst (combine l k) = l.
Proof.
  revert k. induction l as [|a l IH]; intros [|b k] H; try done.
  cbn. f_equal. apply IH. by injection H.
Qed.

Lemma map_snd_combine {A B} (l : list A) (k : list B) :
  length l = length k -> map snd (combine l k) = k.
Proof.
  revert k. induction l as [|a l IH]; intros [|b k] H; try done.
  cbn. f_equal. apply IH. by injection H.
Qed.

(** The conversion of a soup of blocks, and its text afterwards. *)
Lemma soup_of_blocks (bs : list block) :
  Forall (fun b => In (fst (fst b)) block_names /\ snd b <> []) bs ->
  exists soup',
    _process_element (S (length (load (map block_node bs))))
                     (load (map block_node bs)) 0 = Ok soup' /\
    get_text (S (length (load (map block_node bs)))) soup' 0 [c_nl]
    = Ok (join [c_nl] (map (fun b => render b ++ nl2) bs)).
Proof.
  intros Hall. rewrite load_blocks. cbn [length]. rewrite length_map.
  set (c0 := mkCell document_name [] (map IRef (seq 1 (length bs)))).
  exists (c0 :: map cell_of (map convert bs)). split.
  - destruct bs as [|b bs']; [reflexivity |]. set (bs := b :: bs') in *.
    remember (S (length bs)) as g eqn:Hg.
    cbn [_process_element]. unfold bs4.lookup at 1.
    change ((c0 :: map cell_of bs) !! 0) with (Some c0). cbn [bind name c0].
    unfold document_name. eval_str_eqb. cbn [bind]. fold document_name. fold c0.
    subst g. change (S (length bs)) with (S (S (length bs'))).
    unfold find_all. rewrite (descendants_blocks c0 bs (length bs')) by reflexivity.
    cbn [bind]. rewrite refs_blocks, map_fst_combine by (by rewrite length_seq).
    apply (process_blocks c0 (length bs') bs Hall []).
  - unfold get_text.
    rewrite <- (length_map convert bs) at 1.
    assert (Hc : contents c0 = map IRef (seq 1 (length (map convert bs))))
      by (by rewrite length_map).
    change (S (S (length (map convert bs)))) with (S (S (length (map convert bs)))).
    rewrite (descendants_blocks c0 (map convert bs) _ Hc). cbn [bind].
    rewrite strings_blocks. f_equal. f_equal.
    rewrite <- (map_map snd (fun b : block => snd b)).
    rewrite map_snd_combine by (by rewrite length_seq).
    rewrite map_map. reflexivity.
Qed.

(** *** The text of clean lines, tidied *)

Lemma clean_line_clean (t : pystr) : clean_line t = true -> clean t.
Proof.
  destruct t as [|c t']; [done |]. cbn [clean_line].
  intros [[Hc Hl]%andb_true_iff Hn]%andb_true_iff.
  apply negb_true_iff in Hc, Hl. split; [by exists c, t' |]. split.
  - destruct (exists_last (l := c :: t')) as (a & x & E); [done |].
    exists a, x. split; [done |]. rewrite E in Hl. by rewrite last_last in Hl.
  - apply List.Forall_forall. intros x Hx. rewrite forallb_forall in Hn.
    by apply negb_true_iff, Hn.
Qed.

Lemma not_space_not_nl (c : N) : isspace c = false -> isnl c = false.
Proof.
  intros H. apply not_true_iff_false. intros E%isnl_isspace. congruence.
Qed.

Lemma clean_app (P t : pystr) (c : N) (P' : pystr) :
  P = c :: P' -> isspace c = false -> Forall (fun x => isnl x = false) P ->
  clean t -> clean (P ++ t).
Proof.
  intros -> Hc HP ((c' & t' & -> & Hc') & (a & x & E & Hx) & Hn).
  split; [by exists c, (P' ++ c' :: t') |]. split.
  - exists ((c :: P') ++ a), x. split; [| done]. by rewrite E, app_assoc.
  - by apply Forall_app.
Qed.

Lemma render_clean (b : block) : is_block b = true -> clean (render b).
Proof.
  destruct b as [[nm at_] t]. unfold is_block, render. cbn [fst snd].
  intros [Hn Ht%clean_line_clean]%andb_true_iff.
  unfold mem in Hn. apply existsb_exists in Hn as (x & Hx & ->%str_eqb_eq).
  unfold block_names in Hx.
  repeat (destruct Hx as [<- | Hx];
          [first [ exact Ht
                 | eapply clean_app;
                     [reflexivity | reflexivity | by repeat constructor | exact Ht] ] |]).
  destruct Hx.
Qed.

Lemma blank_lines_not_nl (c : N) (s : pystr) :
  isnl c = false -> match_here blank_lines (c :: s) = None.
Proof. intros H. cbn [blank_lines match_here]. unfold isnl in H. by rewrite H. Qed.

Lemma re_sub_blank_prefix (a s : pystr) :
  Forall (fun c => isnl c = false) a ->
  re_sub blank_lines nl2 (a ++ s) = a ++ re_sub blank_lines nl2 s.
Proof.
  induction 1 as [|c a Hc _ IH]; [done |]. cbn [app].
  rewrite re_sub_cons, (blank_lines_not_nl c _ Hc). by rewrite IH.
Qed.

Lemma match_nl_plus_none (x : N) (rest : pystr) :
  isnl x = false -> match_here [Class (N.eqb c_nl) Plus] (x :: rest) = None.
Proof. intros H. rewrite match_nl_plus. by rewrite H. Qed.

Lemma ws_nl_none (x : N) (rest : pystr) :
  isspace x = false -> match_here ws_nl (x :: rest) = None.
Proof.
  intros H. unfold ws_nl. rewrite match_star, star_stop by done.
  apply match_nl_plus_none. by apply not_space_not_nl.
Qed.

Lemma nl_ws_nl_none (x : N) (rest : pystr) :
  isspace x = false -> match_here nl_ws_nl (x :: rest) = None.
Proof.
  intros H. rewrite nl_ws_nl_eq. by rewrite (not_space_not_nl x H).
Qed.

(** Three newlines before a character that is no whitespace: the match
    takes exactly the three. *)
Lemma blank_lines_three (x : N) (rest : pystr) :
  isspace x = false ->
  match_here blank_lines (c_nl :: c_nl :: c_nl :: x :: rest) = Some 3.
Proof.
  intros H. pose proof (not_space_not_nl x H) as Hn.
  change blank_lines with (Class (N.eqb c_nl) One :: ws_nl_ws_nl).
  cbn [match_here]. change (c_nl =? c_nl)%N with true. cbv iota.
  unfold ws_nl_ws_nl. rewrite match_star.
  rewrite star_step by reflexivity. rewrite star_step by reflexivity.
  rewrite star_stop by done. rewrite (nl_ws_nl_none x rest H). cbn [pred].
  rewrite (nl_ws_nl_eq (c_nl :: x :: rest)). change (isnl c_nl) with true. cbv iota.
  rewrite (ws_nl_none x rest H). cbn [fmap option_fmap option_map].
  rewrite (nl_ws_nl_eq (c_nl :: c_nl :: x :: rest)). change (isnl c_nl) with true. cbv iota.
  unfold ws_nl at 1. rewrite match_star. rewrite star_step by reflexivity.
  rewrite star_stop by done. rewrite (match_nl_plus_none x rest Hn). cbn [pred].
  rewrite match_nl_plus. change (isnl c_nl) with true. cbv iota.
  cbn [take_while]. rewrite Hn. reflexivity.
Qed.

Lemma join_cons2 (sep p q : pystr) (ps : list pystr) :
  join sep (p :: q :: ps) = p ++ sep ++ join sep (q :: ps).
Proof. reflexivity. Qed.

Lemma re_sub_blank_lines_blocks (rs : list pystr) :
  Forall clean rs ->
  re_sub blank_lines nl2 (join [c_nl] (map (fun r => r ++ nl2) rs))
  = concat (map (fun r => r ++ nl2) rs).
Proof.
  induction 1 as [|r rs Hr Hrs IH]; [reflexivity |].
  destruct Hr as (_ & _ & Hn).
  destruct rs as [|r' rs].
  - cbn [map join concat]. rewrite app_nil_r, re_sub_blank_prefix by done. reflexivity.
  - inversion Hrs as [|? ? ((x & r'' & Er & Hx) & _) _]; subst.
    set (tl := map (fun r => r ++ nl2) ((x :: r'') :: rs)) in *.
    assert (Ej : exists rest, join [c_nl] tl = x :: rest).
    { unfold tl. destruct rs; cbn [map join app]; by eexists. }
    destruct Ej as [rest Ej].
    change (re_sub blank_lines nl2 ((r ++ nl2) ++ [c_nl] ++ join [c_nl] tl)
            = (r ++ nl2) ++ concat tl).
    rewrite <- app_assoc, re_sub_blank_prefix by done. rewrite Ej.
    change (nl2 ++ [c_nl] ++ x :: rest) with (c_nl :: c_nl :: c_nl :: x :: rest).
    rewrite re_sub_cons, blank_lines_three by done.
    change (drop 2 (c_nl :: c_nl :: x :: rest)) with (x :: rest).
    change (re_sub blank_lines nl2 (join [c_nl] tl) = concat tl) in IH.
    rewrite <- Ej, IH. by rewrite <- app_assoc.
Qed.

Lemma spaces_eol_none (post : pystr) :
  forall c, isp c = true -> line_ends_with isp (c :: post) = false ->
            match_here spaces_eol post = None.
Proof.
  induction post as [|c' t IH]; intros c Hc H; cbn [line_ends_with] in H;
    rewrite Hc in H; cbn [andb] in H.
  - done.
  - apply orb_false_iff in H as [He Hl]. rewrite spaces_eol_cons.
    destruct (isp c') eqn:Hc'.
    + rewrite (IH c' Hc'); [done |]. cbn [line_ends_with]. by rewrite Hc'.
    + by rewrite He.
Qed.

Lemma re_sub_trailing_id (s : pystr) :
  line_ends_with isp s = false -> re_sub trailing_spaces [] s = s.
Proof.
  intros H. apply re_sub_no_match; [reflexivity |].
  intros pre c post ->. apply line_ends_with_suffix in H.
  rewrite trailing_spaces_cons. destruct (isp c) eqn:Hc; [| done].
  by rewrite (spaces_eol_none post c Hc H).
Qed.

Lemma not_space_not_isp (c : N) : isspace c = false -> isp c = false.
Proof. intros H. apply not_true_iff_false. intros E%isp_isspace. congruence. Qed.

Lemma line_ends_with_clean (r t : pystr) :
  clean r -> line_ends_with isp t = false ->
  line_ends_with isp (r ++ nl2 ++ t) = false.
Proof.
  intros (_ & (a & x & -> & Hx) & Hn) Ht.
  apply Forall_app in Hn as [Hn _]. rewrite <- app_assoc.
  induction Hn as [|c a Hc Ha IH].
  - cbn [app line_ends_with]. rewrite (not_space_not_isp x Hx). cbn [andb orb].
    change (isp c_nl) with false. cbn [andb orb]. exact Ht.
  - change ((c :: a) ++ [x] ++ nl2 ++ t) with (c :: (a ++ [x] ++ nl2 ++ t)).
    cbn [line_ends_with]. rewrite IH. rewrite orb_false_r.
    apply andb_false_iff. right.
    destruct a as [|c' a]; cbn [app at_eol].
    + apply not_space_not_nl in Hx. unfold isnl in Hx. by rewrite N.eqb_sym.
    + inversion_clear Ha as [|? ? Hc' _]. unfold isnl in Hc';
        first [exact Hc' | by rewrite N.eqb_sym].
Qed.

Lemma line_ends_with_blocks (rs : list pystr) :
  Forall clean rs -> line_ends_with isp (concat (map (fun r => r ++ nl2) rs)) = false.
Proof.
  induction 1 as [|r rs Hr _ IH]; [reflexivity |].
  cbn [map concat]. rewrite <- app_assoc. by apply line_ends_with_clean.
Qed.

Lemma concat_join (rs : list pystr) :
  rs <> [] -> concat (map (fun r => r ++ nl2) rs) = join nl2 rs ++ nl2.
Proof.
  induction rs as [|r rs IH]; [done |]. intros _.
  destruct rs as [|r' rs]; [cbn; by rewrite app_nil_r |].
  cbn [map concat]. rewrite join_cons2. cbn [map concat] in IH.
  rewrite IH by done. by rewrite <- !app_assoc.
Qed.

Lemma join_clean (rs : list pystr) :
  rs <> [] -> Forall clean rs ->
  (exists c y, join nl2 rs = c :: y /\ isspace c = false) /\
  (exists a x, join nl2 rs = a ++ [x] /\ isspace x = false).
Proof.
  intros Hne Hall. induction Hall as [|r rs Hr Hrs IH]; [done |].
  destruct rs as [|r' rs].
  - cbn [join]. by destruct Hr as (H1 & H2 & _).
  - rewrite join_cons2. destruct IH as [_ (a & x & E & Hx)]; [done |]. split.
    + destruct Hr as ((c & r0 & -> & Hc) & _). by eexists _, _.
    + exists (r ++ nl2 ++ a), x. split; [| done]. rewrite E. by rewrite <- !app_assoc.
Qed.

Lemma strip_block_text (x : pystr) :
  (exists c y, x = c :: y /\ isspace c = false) ->
  (exists a l, x = a ++ [l] /\ isspace l = false) ->
  strip (x ++ nl2) = x.
Proof.
  intros (c & y & Ec & Hc) (a & l & El & Hl). unfold strip.
  assert (Hr : rstrip (x ++ nl2) = x).
  { unfold rstrip. rewrite rev_app_distr. cbn [nl2 rev app drop_while].
    change (isspace c_nl) with true. cbv iota.
    rewrite El. rewrite rev_unit. cbn [drop_while]. rewrite Hl.
    cbn [rev]. by rewrite rev_involutive. }
  rewrite Hr, Ec. unfold lstrip. cbn [drop_while]. by rewrite Hc.
Qed.

(** The text of converted blocks, tidied: the lines with one blank line
    between them. *)
Lemma tidy_blocks (rs : list pystr) :
  Forall clean rs ->
  tidy (join [c_nl] (map (fun r => r ++ nl2) rs)) = join nl2 rs.
Proof.
  intros Hall. unfold tidy. rewrite (re_sub_blank_lines_blocks rs Hall).
  rewrite re_sub_trailing_id by (by apply line_ends_with_blocks).
  destruct rs as [|r rs]; [reflexivity |].
  rewrite concat_join by done.
  destruct (join_clean (r :: rs)) as [H1 H2]; [done | done |].
  by apply strip_block_text.
Qed.

(** X21. A document made of headings and paragraphs, each around one clean
    line of text, is converted block by block: a heading becomes its marks,
    a space and its text, a paragraph its text, and the blocks come out in
    order with one blank line between them. *)
Theorem blocks_rendered (ext : Externals) (html_content : pystr) (blocks : list block) :
  html_content <> [] ->
  BeautifulSoup ext html_content = Ok (map block_node blocks) ->
  Forall (fun b => is_block b = true) blocks ->
  html_to_markdown ext html_content = Ok (join nl2 (map render blocks)).
Proof.
  intros Hne Hsoup Hall. unfold html_to_markdown.
  destruct html_content as [|c t]; [done |]. rewrite Hsoup. cbn [bind].
  destruct (soup_of_blocks blocks) as (soup' & Hp & Hg).
  { apply List.Forall_forall. intros b Hb. rewrite List.Forall_forall in Hall.
    specialize (Hall b Hb). apply andb_true_iff in Hall as [Hn Ht].
    split.
    - unfold mem in Hn. apply existsb_exists in Hn as (x & Hx & E%str_eqb_eq).
      by subst x.
    - intros E. destruct b as [[nm at_] t']. cbn [fst snd] in *. subst t'.
      discriminate Ht. }
  rewrite Hp. cbn [bind]. rewrite Hg. cbn [bind]. f_equal.
  rewrite <- (map_map render (fun r => r ++ nl2)).
  apply tidy_blocks. apply Forall_map.
  revert Hall. apply List.Forall_impl. intros b. apply render_clean.
Qed.

Lemma blocks_rendered_witness :
  html_to_markdown no_externals news
  = Ok (u "## News" ++ nl2 ++ u "First line" ++ nl2 ++ u "Second line").
Proof.
  refine (blocks_rendered no_externals news
            [(u "h2", [(u "class", u "top")], u "News");
             (u "p", [], u "First line"); (u "p", [], u "Second line")] _ _ _).
  - discriminate.
  - reflexivity.
  - by repeat constructor.
Defined.

(** ** Markup Converter: an element around strings and inline elements *)

Lemma alloc_parts (ps : list part) :
  forall base,
    alloc_list base (map part_node ps) = (part_items base ps, elem_cells ps).
Proof.
  induction ps as [|[v s | nm at_ v t] ps IH]; intros base; [reflexivity | |].
  - cbn [map alloc_list part_node alloc length part_items elem_cells app].
    by rewrite Nat.add_0_r, IH.
  - cbn [map alloc_list part_items elem_cells]. unfold part_node at 1.
    rewrite alloc_Tag. cbn [alloc_list alloc length app]. by rewrite Nat.add_1_r, IH.
Qed.

Lemma load_parts (nm : pystr) (at_ : list (pystr * pystr)) (ps : list part) :
  load [Tag nm at_ (map part_node ps)]
  = mkCell document_name [] [IRef 1]
    :: mkCell nm at_ (part_items 2 ps) :: elem_cells ps.
Proof.
  unfold load. rewrite alloc_Tag. cbn [alloc_list]. rewrite alloc_Tag.
  rewrite alloc_parts. cbn [fst snd length app]. by rewrite app_nil_r.
Qed.

Lemma processed_is_inline (c : cell) : is_inline c -> is_inline (processed c).
Proof.
  intros Hc. unfold processed. destruct (str_eqb (name c) (u "a")); [| done].
  destruct Hc as [Hn _]. split; [done |]. by eexists _, _.
Qed.

Lemma elem_cells_inline (ps : list part) :
  Forall (fun p => inline p = true) ps -> Forall is_inline (elem_cells ps).
Proof.
  induction 1 as [|[v s | nm at_ v t] ps Hp _ IH]; cbn [elem_cells];
    [constructor | done |].
  constructor; [| done]. split; [| by eexists _, _].
  cbn [inline] in Hp. apply orb_true_iff in Hp as [E%str_eqb_eq | Hu];
    [by left | by right].
Qed.

(** A link is rewritten in place, whether it is still in the tree or not. *)
Lemma process_link (f : nat) (h : heap) (j : nat) (c : cell) :
  h !! j = Some c -> name c = u "a" -> (exists v t, contents c = [IStr v t]) ->
  _process_element (S (S f)) h j = Ok (<[j := relink c]> h).
Proof.
  intros Hc Hn (v & t & Ht). destruct c as [nm at_ cs].
  cbn [name contents] in Hn, Ht. subst nm cs.
  assert (Hl : bs4.lookup h j = Ok (mkCell (u "a") at_ [IStr v t]))
    by (unfold bs4.lookup; by rewrite Hc).
  assert (He : j < length h) by (by eapply lookup_lt_Some).
  assert (Hafter : forall s,
            (found <- find_all (S f) (set_string h j s) j ;;
             for_each (fun h child => _process_element (S f) h child) found
                      (set_string h j s))
            = Ok (<[j := mkCell (u "a") at_ [IStr true s]]> h)).
  { intros s. unfold set_string. rewrite Hc. unfold find_all. cbn [descendants].
    unfold bs4.lookup. rewrite list_lookup_insert_eq by done. reflexivity. }
  assert (Hs : string (S f) h j = Ok (Some t)).
  { cbn [string]. by rewrite Hl. }
  remember (S f) as g eqn:Hg.
  cbn [_process_element]. rewrite Hl. cbn [bind name]. eval_str_eqb.
  rewrite Hs. cbn [bind]. unfold relink, link_markdown, get.
  cbn [name attrs contents]. destruct t as [|x t]; apply Hafter.
Qed.

(** An element around one string that is no heading, paragraph, link,
    image, figure, caption, list or line break stays as it is. *)
Lemma process_plain (f : nat) (h : heap) (j : nat) (c : cell) :
  h !! j = Some c -> unhandled c = true -> (exists v t, contents c = [IStr v t]) ->
  _process_element (S (S f)) h j = Ok h.
Proof.
  intros Hc Hu (v & t & Ht).
  assert (Hl : bs4.lookup h j = Ok c) by (unfold bs4.lookup; by rewrite Hc).
  pose proof (unhandled_names c Hu) as Hn.
  remember (S f) as g eqn:Hg.
  cbn [_process_element]. rewrite Hl. cbn [bind].
  repeat (apply List.Forall_cons_iff in Hn as [-> Hn]). cbn [bind].
  unfold find_all. subst g. cbn [descendants]. rewrite Hl. cbn [bind].
  rewrite Ht. reflexivity.
Qed.

Lemma process_inline (f : nat) (h : heap) (j : nat) (c : cell) :
  h !! j = Some c -> is_inline c ->
  _process_element (S (S f)) h j = Ok (<[j := processed c]> h).
Proof.
  intros Hc [Hn Hs]. unfold processed.
  destruct (str_eqb (name c) (u "a")) eqn:E.
  - apply str_eqb_eq in E. by apply process_link.
  - destruct Hn as [Hn | Hu]; [apply str_eqb_eq in Hn; congruence |].
    rewrite (list_insert_id h j c Hc). by apply (process_plain f h j c).
Qed.

Lemma get_text_one_string (f : nat) (h : heap) (j : nat) (c : cell) (v : bool)
    (s sep : pystr) :
  h !! j = Some c -> contents c = [IStr v s] ->
  get_text (S f) h j sep = Ok (shown v s).
Proof.
  intros Hc Hs. unfold get_text. cbn [descendants]. unfold bs4.lookup.
  rewrite Hc. cbn [bind]. rewrite Hs. by destruct v.
Qed.

Lemma insert_middle (pre post : list cell) (c c' : cell) :
  <[length pre := c']> (pre ++ c :: post) = pre ++ c' :: post.
Proof.
  rewrite insert_app_r_alt by lia. by rewrite Nat.sub_diag.
Qed.

(** Inline elements that are processed one after the other. *)
Lemma process_inlines (f : nat) (post cs : list cell) :
  Forall is_inline cs ->
  forall pre : list cell,
    for_each (fun h child => _process_element (S (S f)) h child)
             (seq (length pre) (length cs)) (pre ++ cs ++ post)
    = Ok (pre ++ map processed cs ++ post).
Proof.
  induction 1 as [|c cs Hc _ IH]; intros pre; [reflexivity |].
  cbn [length seq for_each map app].
  rewrite (process_inline f _ (length pre) c); [| by apply list_lookup_middle | done].
  cbn [bind]. rewrite insert_middle.
  specialize (IH (pre ++ [processed c])).
  rewrite length_app, Nat.add_1_r, <- !app_assoc in IH. exact IH.
Qed.

Lemma processed_text (nm : pystr) (at_ : list (pystr * pystr)) (v : bool) (t : pystr) :
  exists v' s,
    contents (processed (mkCell nm at_ [IStr v t])) = [IStr v' s] /\
    shown v' s = part_text (PElem nm at_ v t).
Proof.
  unfold processed, part_text. cbn [name].
  destruct (str_eqb nm (u "a")); by eexists _, _.
Qed.

(** The loop over the children of a paragraph: the strings are stripped,
    the elements processed and read back. *)
Lemma paragraph_parts (post : list cell) (ps : list part) :
  Forall (fun p => inline p = true) ps ->
  forall (f : nat) (pre : list cell) (acc : list pystr),
    length (elem_cells ps) < f ->
    for_each (paragraph_step f) (part_items (length pre) ps)
             (pre ++ elem_cells ps ++ post, acc)
    = Ok (pre ++ map processed (elem_cells ps) ++ post, acc ++ map part_text ps).
Proof.
  induction 1 as [|[v s | nm at_ v t] ps Hp Hps IH]; intros f pre acc Hf.
  - cbn [part_items elem_cells for_each map]. by rewrite app_nil_r.
  - cbn [part_items elem_cells for_each map paragraph_step bind fst snd part_text].
    rewrite IH by done. by rewrite <- app_assoc.
  - cbn [elem_cells length] in Hf.
    destruct f as [|[|f]]; [lia | lia |].
    cbn [part_items elem_cells for_each map app].
    set (c := mkCell nm at_ [IStr v t]).
    assert (Hl : is_inline c).
    { pose proof (elem_cells_inline [PElem nm at_ v t]) as H.
      cbn [elem_cells] in H. eapply Forall_inv, H. by constructor. }
    destruct (processed_text nm at_ v t) as (v' & s' & Hc' & Hs'). fold c in Hc'.
    unfold paragraph_step at 1. cbn [fst snd].
    rewrite (process_inline f _ (length pre) c); [| by apply list_lookup_middle | done].
    cbn [bind]. rewrite insert_middle.
    rewrite (get_text_one_string (S f) _ (length pre) (processed c) v' s');
      [| by apply list_lookup_middle | done].
    cbn [bind]. rewrite Hs'. specialize (IH (S (S f)) (pre ++ [processed c])).
    rewrite length_app, Nat.add_1_r, <- !app_assoc in IH.
    rewrite IH by lia. by rewrite <- app_assoc.
Qed.

Lemma string_of_parts (f : nat) (h : heap) (i : nat) (c : cell) (base : nat)
    (ps : list part) :
  h !! i = Some c -> contents c = part_items base ps -> length ps <> 1 ->
  string (S f) h i = Ok None.
Proof.
  intros Hc Hs Hn. cbn [string]. unfold bs4.lookup. rewrite Hc. cbn [bind].
  rewrite Hs. destruct ps as [|p1 [|p2 r]]; [reflexivity | done |].
  by destruct p1, p2.
Qed.

(** A paragraph that is not around a single child: its parts, joined by
    spaces. *)
Lemma process_paragraph (f : nat) (c0 : cell) (pa : list (pystr * pystr))
    (ps : list part) :
  Forall (fun p => inline p = true) ps ->
  length ps <> 1 -> length (elem_cells ps) < f ->
  _process_element (S f) (c0 :: mkCell (u "p") pa (part_items 2 ps) :: elem_cells ps) 1
  = Ok (c0 :: mkCell (u "p") pa [IStr true (join (u " ") (map part_text ps) ++ nl2)]
           :: map processed (elem_cells ps)).
Proof.
  intros Hall Hn Hf. destruct f as [|f]; [lia |].
  set (pc := mkCell (u "p") pa (part_items 2 ps)).
  set (h := c0 :: pc :: elem_cells ps).
  assert (Hc : h !! 1 = Some pc) by reflexivity.
  assert (Hs : string (S f) h 1 = Ok None)
    by (by apply (string_of_parts f h 1 pc 2 ps)).
  remember (S f) as g eqn:Hg.
  pose proof (paragraph_parts [] ps Hall g [c0; pc] [] Hf) as Hloop.
  rewrite !app_nil_r in Hloop. cbn [app length] in Hloop.
  change (c0 :: pc :: elem_cells ps) with h in Hloop.
  cbn [_process_element]. unfold bs4.lookup at 1. rewrite Hc. cbn [bind name pc].
  eval_str_eqb. rewrite Hs. cbn [bind contents].
  change (for_each _ (contents pc) (h, []))
    with (for_each (paragraph_step g) (part_items 2 ps) (h, [])).
  rewrite Hloop. cbn [bind fst snd].
  unfold set_string.
  change ((c0 :: pc :: ?l) !! 1) with (Some pc).
  change (<[1 := ?x]> (c0 :: pc :: ?l)) with (c0 :: x :: l).
  cbn [name attrs pc]. unfold find_all. subst g. cbn [descendants].
  reflexivity.
Qed.

(** Everything below an element around parts that has not been processed
    yet. *)
Lemma descendants_parts (post : list cell) (h : heap) (g : nat) (ps : list part) :
  forall pre : list cell,
    h = pre ++ elem_cells ps ++ post ->
    length (elem_cells ps) <= g ->
    exists subs,
      map_each (fun it => match it with
                          | IStr _ _ => Ok [it]
                          | IRef j => sub <- descendants g h j ;; Ok (it :: sub)
                          end) (part_items (length pre) ps) = Ok subs /\
      refs (concat subs) = seq (length pre) (length (elem_cells ps)).
Proof.
  induction ps as [|[v s | nm at_ v t] ps IH]; intros pre Hh Hg.
  - by exists [].
  - destruct (IH pre Hh Hg) as (subs & E & Hr).
    exists ([IStr v s] :: subs). cbn [part_items map_each elem_cells].
    rewrite E. split; [reflexivity |]. cbn [concat app]. exact Hr.
  - cbn [elem_cells length] in Hg. destruct g as [|g]; [lia |].
    cbn [elem_cells] in Hh.
    destruct (IH (pre ++ [mkCell nm at_ [IStr v t]])) as (subs & E & Hr).
    { by rewrite <- app_assoc. }
    { cbn [elem_cells length]. lia. }
    rewrite length_app, Nat.add_1_r in E, Hr.
    exists ([IRef (length pre); IStr v t] :: subs).
    cbn [part_items map_each elem_cells length seq].
    assert (Hd : descendants (S g) h (length pre) = Ok [IStr v t]).
    { cbn [descendants]. unfold bs4.lookup. rewrite Hh. cbn [app].
      rewrite list_lookup_middle by done. reflexivity. }
    rewrite Hd. cbn [bind]. rewrite E. split; [reflexivity |].
    cbn [concat app]. unfold refs in *. cbn [flat_map app]. by rewrite Hr.
Qed.

(** The soup around one element around parts: the element is processed,
    then every element that was below it, whatever has become of it. *)
Lemma process_soup_parts (oc oc' : cell) (ps : list part) (cells' : list cell) :
  let c0 := mkCell document_name [] [IRef 1] in
  let h := c0 :: oc :: elem_cells ps in
  let n := length (elem_cells ps) in
  contents oc = part_items 2 ps ->
  _process_element (S (S n)) h 1 = Ok (c0 :: oc' :: cells') ->
  Forall is_inline cells' -> length cells' = n ->
  _process_element (S (S (S n))) h 0 = Ok (c0 :: oc' :: map processed cells').
Proof.
  intros c0 h n Ho Hp Hl Hlen.
  destruct (descendants_parts [] h n ps [c0; oc])
    as (subs & E & Hr); [by rewrite app_nil_r | done |].
  assert (Hd : find_all (S (S n)) h 0 = Ok (1 :: seq 2 n)).
  { unfold find_all. remember (S n) as g eqn:Hg. cbn [descendants].
    unfold bs4.lookup at 1. change (h !! 0) with (Some c0). cbn [bind contents c0 map_each].
    subst g. remember n as m eqn:Hm. cbn [descendants]. subst m.
    unfold bs4.lookup at 1. change (h !! 1) with (Some oc).
    cbn [bind]. rewrite Ho. cbn [length] in E. rewrite E. cbn [bind concat app].
    rewrite app_nil_r. unfold refs in *. cbn [flat_map app]. by rewrite Hr. }
  remember (S (S n)) as g eqn:Hg.
  cbn [_process_element]. unfold bs4.lookup at 1. change (h !! 0) with (Some c0).
  cbn [bind name c0]. unfold document_name. eval_str_eqb. cbn [bind].
  fold document_name. fold c0. fold h. rewrite Hd. cbn [bind for_each].
  rewrite Hp. cbn [bind]. subst g.
  pose proof (process_inlines n [] cells' Hl [c0; oc']) as Hloop.
  rewrite Hlen, !app_nil_r in Hloop. exact Hloop.
Qed.

Lemma text_of_soup (f : nat) (c0 oc : cell) (rest : list cell) (s sep : pystr) :
  contents c0 = [IRef 1] -> contents oc = [IStr true s] ->
  get_text (S (S f)) (c0 :: oc :: rest) 0 sep = Ok s.
Proof.
  intros H0 H1. unfold get_text. remember (S f) as g eqn:Hg. cbn [descendants].
  unfold bs4.lookup at 1. change ((c0 :: oc :: rest) !! 0) with (Some c0).
  cbn [bind]. rewrite H0. cbn [map_each]. subst g. cbn [descendants].
  unfold bs4.lookup. change ((c0 :: oc :: rest) !! 1) with (Some oc).
  cbn [bind]. rewrite H1. reflexivity.
Qed.

(** X22. A paragraph of strings, links and elements that the converter
    leaves alone, each element around one string, is rebuilt from its
    parts unless it has exactly one child: each string stripped, each link
    as its text in brackets and its target in parentheses, any other
    element as its text, and the parts joined by single spaces, also where
    the source has none (a comma after a link) or more. *)
Theorem paragraph_of_parts (ext : Externals) (html_content : pystr)
    (pa : list (pystr * pystr)) (ps : list part) :
  html_content <> [] ->
  BeautifulSoup ext html_content = Ok [Tag (u "p") pa (map part_node ps)] ->
  Forall (fun p => inline p = true) ps ->
  length ps <> 1 ->
  html_to_markdown ext html_content
  = Ok (tidy (join (u " ") (map part_text ps) ++ nl2)).
Proof.
  intros Hne Hsoup Hall Hn. unfold html_to_markdown.
  destruct html_content as [|c t]; [done |]. rewrite Hsoup. cbn [bind].
  rewrite load_parts.
  cbn [length].
  rewrite (process_soup_parts (mkCell (u "p") pa (part_items 2 ps))
             (mkCell (u "p") pa [IStr true (join (u " ") (map part_text ps) ++ nl2)])
             ps (map processed (elem_cells ps))).
  - cbn [bind]. rewrite (text_of_soup _ _ _ _ (join (u " ") (map part_text ps) ++ nl2))
      by reflexivity.
    reflexivity.
  - reflexivity.
  - apply process_paragraph; [done | done | lia].
  - apply Forall_map. generalize (elem_cells_inline ps Hall).
    apply List.Forall_impl. apply processed_is_inline.
  - by rewrite length_map.
Qed.

Lemma paragraph_of_parts_witness :
  html_to_markdown no_externals sentence
  = Ok (u "Read all of [the notes](https://example.org/x) , please.").
Proof.
  refine (eq_trans
            (paragraph_of_parts no_externals sentence []
               [PText true (u "Read "); PElem (u "em") [] true (u "all");
                PText true (u " of ");
                PElem (u "a") [(u "href", u "https://example.org/x")] true
                      (u "the notes");
                PText true (u ", please.")] _ _ _ _) _).
  - discriminate.
  - reflexivity.
  - by repeat constructor.
  - discriminate.
  - vm_compute. reflexivity.
Defined.

(** X23. A paragraph that is nothing but one link around a clean line of
    text comes out as that text: the target of the link is lost. *)
Theorem paragraph_of_one_link (ext : Externals) (html_content : pystr)
    (pa aa : list (pystr * pystr)) (v : bool) (t : pystr) :
  html_content <> [] ->
  BeautifulSoup ext html_content
  = Ok [Tag (u "p") pa [Tag (u "a") aa [NavigableString v t]]] ->
  clean_line t = true ->
  html_to_markdown ext html_content = Ok t.
Proof.
  intros Hne Hsoup Ht. unfold html_to_markdown.
  destruct html_content as [|c0 t0]; [done |]. rewrite Hsoup. cbn [bind].
  change [Tag (u "a") aa [NavigableString v t]]
    with (map part_node [PElem (u "a") aa v t]).
  rewrite load_parts. cbn [length].
  rewrite (process_soup_parts (mkCell (u "p") pa (part_items 2 [PElem (u "a") aa v t]))
             (mkCell (u "p") pa [IStr true (t ++ nl2)])
             [PElem (u "a") aa v t] [mkCell (u "a") aa [IStr v t]]).
  - cbn [bind]. rewrite (text_of_soup _ _ _ _ (t ++ nl2)) by reflexivity.
    cbn [bind]. f_equal.
    apply (tidy_blocks [t]). constructor; [by apply clean_line_clean | constructor].
  - reflexivity.
  - destruct t as [|x t]; [done |]. reflexivity.
  - constructor; [| constructor]. split; [by left | by eexists _, _].
  - reflexivity.
Qed.

Lemma paragraph_of_one_link_witness :
  html_to_markdown no_externals only_link = Ok (u "the notes").
Proof.
  refine (paragraph_of_one_link no_externals only_link []
            [(u "href", u "https://example.org/x")] true (u "the notes") _ _ _).
  - discriminate.
  - reflexivity.
  - reflexivity.
Defined.

(** *** Lists *)

Lemma map_each_length {A B} (g : A -> result B) (l : list A) :
  forall ys, map_each g l = Ok ys -> length ys = length l.
Proof.
  induction l as [|a l IH]; intros ys; cbn [map_each].
  - by intros [= <-].
  - destruct (g a) as [b | e]; cbn [bind]; [| done].
    destruct (map_each g l) as [bs | e]; cbn [bind]; [| done].
    intros [= <-]. cbn [length]. by rewrite (IH bs).
Qed.

Lemma map_each_then {A B C} (g : A -> result B) (k : B -> C) (l : list A) :
  forall ys,
    map_each g l = Ok ys ->
    map_each (fun a => t <- g a ;; Ok (k t)) l = Ok (map k ys).
Proof.
  induction l as [|a l IH]; intros ys; cbn [map_each].
  - by intros [= <-].
  - destruct (g a) as [b | e]; cbn [bind]; [| done].
    destruct (map_each g l) as [bs | e]; cbn [bind]; [| done].
    intros [= <-]. by rewrite (IH bs).
Qed.

Lemma map_each_numbered {A B C} (g : A -> result B) (k : nat -> B -> C) (l : list A) :
  forall ys ns,
    map_each g l = Ok ys ->
    map_each (fun il : nat * A => t <- g (snd il) ;; Ok (k (fst il) t)) (combine ns l)
    = Ok (map (fun it : nat * B => k (fst it) (snd it)) (combine ns ys)).
Proof.
  induction l as [|a l IH]; intros ys ns; cbn [map_each].
  - intros [= <-]. by destruct ns.
  - destruct (g a) as [b | e] eqn:E; cbn [bind]; [| done].
    destruct (map_each g l) as [bs | e]; cbn [bind]; [| done].
    intros [= <-]. destruct ns as [|n ns]; [reflexivity |].
    cbn [combine map_each map fst snd]. rewrite E. cbn [bind].
    by rewrite (IH bs ns).
Qed.

(** The texts of the items of a list, as the list branches read them. *)
Lemma item_texts_read (post : list cell) (h : heap) (f : nat) (ps : list part) :
  forall pre : list cell,
    h = pre ++ elem_cells ps ++ post ->
    map_each (fun li => t <- get_text (S f) h li [] ;; Ok (strip t))
             (List.filter (has_name h (u "li")) (refs (part_items (length pre) ps)))
    = Ok (item_texts ps).
Proof.
  induction ps as [|[v s | nm at_ v t] ps IH]; intros pre Hh.
  - reflexivity.
  - cbn [part_items item_texts elem_cells] in *.
    change (refs (IStr v s :: ?l)) with (refs l). by apply IH.
  - cbn [part_items item_texts]. cbn [elem_cells] in Hh.
    change (refs (IRef ?j :: ?l)) with (j :: refs l). cbn [List.filter].
    set (c := mkCell nm at_ [IStr v t]) in *.
    assert (Hc : h !! length pre = Some c).
    { rewrite Hh. cbn [app]. by apply list_lookup_middle. }
    specialize (IH (pre ++ [c])).
    rewrite length_app, Nat.add_1_r, <- app_assoc in IH. specialize (IH Hh).
    unfold has_name at 1. rewrite Hc. cbn [name c].
    destruct (str_eqb nm (u "li")); [| exact IH].
    cbn [map_each]. rewrite (get_text_one_string f h (length pre) c v t) by done.
    cbn [bind]. by rewrite IH.
Qed.

(** A list: one line for each item among its children, and nothing of the
    other children. *)
Lemma process_list (f : nat) (c0 : cell) (nm : pystr) (la : list (pystr * pystr))
    (ps : list part) :
  nm = u "ul" \/ nm = u "ol" ->
  _process_element (S (S f)) (c0 :: mkCell nm la (part_items 2 ps) :: elem_cells ps) 1
  = Ok (c0 :: mkCell nm la
                 [IStr true (join [c_nl] (list_lines nm (item_texts ps)) ++ nl2)]
           :: elem_cells ps).
Proof.
  intros Hnm.
  set (lc := mkCell nm la (part_items 2 ps)).
  set (h := c0 :: lc :: elem_cells ps).
  assert (Hc : h !! 1 = Some lc) by reflexivity.
  pose proof (item_texts_read [] h f ps [c0; lc]) as Ht.
  rewrite app_nil_r in Ht. specialize (Ht eq_refl). cbn [length] in Ht.
  set (lis := List.filter (has_name h (u "li")) (refs (part_items 2 ps))) in *.
  assert (Hafter : forall s,
            (found <- find_all (S f) (set_string h 1 s) 1 ;;
             for_each (fun h child => _process_element (S f) h child) found
                      (set_string h 1 s))
            = Ok (c0 :: mkCell nm la [IStr true s] :: elem_cells ps)).
  { intros s. unfold set_string. rewrite Hc. unfold find_all. cbn [descendants].
    reflexivity. }
  remember (S f) as g eqn:Hg.
  cbn [_process_element]. unfold bs4.lookup at 1. rewrite Hc. cbn [bind name lc].
  unfold find_all_children, bs4.lookup. rewrite Hc. cbn [bind contents lc].
  fold lc. fold h. fold lis. unfold list_lines.
  destruct Hnm as [-> | ->]; eval_str_eqb.
  - pose proof (map_each_then _ (fun t => u "- " ++ t) lis _ Ht) as Hm.
    match goal with
    | |- context [map_each ?F lis] =>
        assert (Hm' : map_each F lis = Ok (map (fun t => u "- " ++ t) (item_texts ps)))
          by exact Hm;
        rewrite Hm'
    end.
    cbn [bind]. apply Hafter.
  - pose proof (map_each_numbered _ (fun i t => decimal i ++ u ". " ++ t) lis _
                  (seq 1 (length lis)) Ht) as Hm.
    unfold enumerate1. rewrite (map_each_length _ _ _ Ht).
    match goal with
    | |- context [map_each ?F ?l] =>
        assert (Hm' : map_each F l
                      = Ok (map (fun it : nat * pystr => decimal (fst it) ++ u ". " ++ snd it)
                                (combine (seq 1 (length lis)) (item_texts ps))))
          by exact Hm;
        rewrite Hm'
    end.
    cbn [bind]. apply Hafter.
Qed.

(** X24. A list, [ul] or [ol], around strings and elements that are each
    around one string becomes one line for each [li] among its children,
    with the stripped text of the item after a dash or after its number
    from 1 on; strings and other elements directly in the list leave no
    trace. *)
Theorem list_of_items (ext : Externals) (html_content nm : pystr)
    (la : list (pystr * pystr)) (ps : list part) :
  html_content <> [] ->
  BeautifulSoup ext html_content = Ok [Tag nm la (map part_node ps)] ->
  nm = u "ul" \/ nm = u "ol" ->
  Forall (fun p => inline p = true) ps ->
  html_to_markdown ext html_content
  = Ok (tidy (join [c_nl] (list_lines nm (item_texts ps)) ++ nl2)).
Proof.
  intros Hne Hsoup Hnm Hall. unfold html_to_markdown.
  destruct html_content as [|c t]; [done |]. rewrite Hsoup. cbn [bind].
  rewrite load_parts.
  cbn [length].
  rewrite (process_soup_parts (mkCell nm la (part_items 2 ps))
             (mkCell nm la [IStr true (join [c_nl] (list_lines nm (item_texts ps)) ++ nl2)])
             ps (elem_cells ps)).
  - cbn [bind].
    rewrite (text_of_soup _ _ _ _ (join [c_nl] (list_lines nm (item_texts ps)) ++ nl2))
      by reflexivity.
    reflexivity.
  - reflexivity.
  - by apply process_list.
  - by apply elem_cells_inline.
  - reflexivity.
Qed.

Lemma list_of_items_witness :
  html_to_markdown no_externals steps = Ok (u "1. mix" ++ [c_nl] ++ u "2. bake").
Proof.
  refine (eq_trans
            (list_of_items no_externals steps (u "ol") []
               [PText true [c_nl]; PElem (u "li") [] true (u " mix ");
                PText true [c_nl]; PElem (u "b") [] true (u "then");
                PElem (u "li") [] true (u "bake"); PText true [c_nl]] _ _ _ _) _).
  - discriminate.
  - reflexivity.
  - by right.
  - by repeat constructor.
  - vm_compute. reflexivity.
Defined.

(** ** Markup Converter: figures *)

Lemma process_figure (fa ia ca : list (pystr * pystr)) (v : bool) (caption : pystr) :
  _process_element 5 (load [figure fa ia ca v caption]) 0
  = Ok [mkCell document_name [] [IRef 1];
        mkCell (u "figure") fa
               [IStr true (u "![" ++ caption ++ u "](" ++ image_src ia ++ u ")" ++ nl2)];
        mkCell (u "img") ia [IStr true (image_markdown ia [])];
        mkCell (u "figcaption") ca [IStr true []]].
Proof. vm_compute. reflexivity. Qed.

Lemma process_caption_only (fa ca : list (pystr * pystr)) (v : bool) (caption : pystr) :
  _process_element 4 (load [caption_only fa ca v caption]) 0
  = Ok [mkCell document_name [] [IRef 1];
        mkCell (u "figure") fa [IRef 2];
        mkCell (u "figcaption") ca [IStr true []]].
Proof. vm_compute. reflexivity. Qed.

(** X25. A figure around an image and a caption becomes the image in
    Markdown with the caption as its label and the [src] attribute as its
    target; the [alt] attribute of the image plays no part. *)
Theorem figure_with_caption (ext : Externals) (html_content : pystr)
    (fa ia ca : list (pystr * pystr)) (v : bool) (caption : pystr) :
  html_content <> [] ->
  BeautifulSoup ext html_content = Ok [figure fa ia ca v caption] ->
  html_to_markdown ext html_content = Ok (tidy (image_markdown ia caption ++ nl2)).
Proof.
  intros Hne Hsoup. unfold html_to_markdown.
  destruct html_content as [|c t]; [done |]. rewrite Hsoup. cbn [bind].
  change (S (length (load [figure fa ia ca v caption]))) with 5.
  rewrite process_figure. cbn [bind].
  rewrite (text_of_soup _ _ _ _ (u "![" ++ caption ++ u "](" ++ image_src ia ++ u ")" ++ nl2))
    by reflexivity.
  cbn [bind]. unfold image_markdown. by rewrite <- !app_assoc.
Qed.

Lemma figure_with_caption_witness :
  html_to_markdown no_externals photo = Ok (u "![My cat](a.png)").
Proof.
  refine (eq_trans
            (figure_with_caption no_externals photo []
               [(u "src", u "a.png"); (u "alt", u "A cat")] [] true (u "My cat") _ _) _).
  - discriminate.
  - reflexivity.
  - vm_compute. reflexivity.
Defined.

(** X26. A figure without an image is not converted, and its caption is
    emptied when the caption is processed in its turn: nothing of the
    figure is left in the result. *)
Theorem figure_without_image (ext : Externals) (html_content : pystr)
    (fa ca : list (pystr * pystr)) (v : bool) (caption : pystr) :
  html_content <> [] ->
  BeautifulSoup ext html_content = Ok [caption_only fa ca v caption] ->
  html_to_markdown ext html_content = Ok [].
Proof.
  intros Hne Hsoup. unfold html_to_markdown.
  destruct html_content as [|c t]; [done |]. rewrite Hsoup. cbn [bind].
  change (S (length (load [caption_only fa ca v caption]))) with 4.
  rewrite process_caption_only. reflexivity.
Qed.

Lemma figure_without_image_witness :
  html_to_markdown no_externals bare_caption = Ok [].
Proof.
  refine (figure_without_image no_externals bare_caption [] [] true (u "My cat") _ _).
  - discriminate.
  - reflexivity.
Defined.
